(** * ISCA: assessment of pairwise alignments per locus

    Shallow embedding of [bin/threaded_assess_alignment.py]: the metric
    functions [find_ref_len] and [calculate_exact_alignment], the report
    parser [parse_alignment], the two workers [spades_worker] and
    [scaffold_worker], the writer [listener] and the orchestrator [main].

    Python values are modelled as follows.
    - [str] is [string], its characters the code points below 256; the
      built-in string methods the script calls are written out in
      [Section PyStr].
    - [int] is [Z].
    - [float] is an IEEE 754 binary64 number, [spec_float] with precision 53
      and maximal exponent 1024 (the specification of floats that ships with
      Rocq); division, multiplication and comparison are [SFdiv], [SFmul] and
      [SFcompare].
    - a raised exception is the [Raise] case of [result].
    - the file system is what [os.listdir] does at a path: the files of the
      directory there, or the exception it raises; the queue is the list
      of the messages put on it.

    Three functions are taken from outside the script, as the fields of
    [Runtime]: [float] on a [str], the text of a [float], and Biopython's
    [AlignIO.read]. *)

From Stdlib Require Import ZArith List Bool Ascii String Lia.
From Stdlib Require Import Numbers.DecimalString.
From Stdlib Require Import Floats.SpecFloat.
Import ListNotations.

Open Scope string_scope.
Open Scope Z_scope.

(** ** Exceptions *)

Inductive exn : Type :=
| IndexError
| ZeroDivisionError
| AttributeError
| ValueError
| FileNotFoundError
| UnboundLocalError
| NotADirectoryError
| PermissionError
| OSError
| AssertionError.

Inductive result (A : Type) : Type :=
| Ok (a : A)
| Raise (e : exn).

Arguments Ok {A} a.
Arguments Raise {A} e.

Definition bind {A B : Type} (r : result A) (k : A -> result B) : result B :=
  match r with
  | Ok a => k a
  | Raise e => Raise e
  end.

Notation "x <- r ;; k" := (bind r (fun x => k))
  (at level 61, r at next level, right associativity).

Definition is_ok {A : Type} (r : result A) : bool :=
  match r with Ok _ => true | Raise _ => false end.

(** ** Built-in string operations *)

Section PyStr.

(** [len(s)] *)
Definition len (s : string) : Z := Z.of_nat (String.length s).

(** [s[0]] and [s[-1]]: IndexError on the empty string. *)
Definition first_char (s : string) : result ascii :=
  match s with
  | EmptyString => Raise IndexError
  | String c _ => Ok c
  end.

Fixpoint last_char (s : string) : result ascii :=
  match s with
  | EmptyString => Raise IndexError
  | String c EmptyString => Ok c
  | String _ r => last_char r
  end.

Fixpoint drop (n : nat) (s : string) : string :=
  match n, s with
  | O, _ => s
  | S n', String _ r => drop n' r
  | S _, EmptyString => EmptyString
  end.

Fixpoint take (n : nat) (s : string) : string :=
  match n, s with
  | O, _ => EmptyString
  | S n', String c r => String c (take n' r)
  | S _, EmptyString => EmptyString
  end.

(** A slice bound as Python normalises it: a negative index counts from the
    end, and the result is clamped to [0, len(s)]. *)
Definition slice_index (s : string) (i : Z) : nat :=
  Z.to_nat (if i <? 0 then Z.max 0 (i + len s) else Z.min i (len s)).

(** [s[i:]] *)
Definition slice_from (s : string) (i : Z) : string := drop (slice_index s i) s.

(** [s[:j]] *)
Definition slice_to (s : string) (j : Z) : string := take (slice_index s j) s.

(** [s.lstrip(chars)] and [s.rstrip(chars)], the character set given as a
    predicate. *)
Fixpoint lstrip (p : ascii -> bool) (s : string) : string :=
  match s with
  | EmptyString => EmptyString
  | String c r => if p c then lstrip p r else s
  end.

Fixpoint rstrip (p : ascii -> bool) (s : string) : string :=
  match s with
  | EmptyString => EmptyString
  | String c r =>
      match rstrip p r with
      | EmptyString => if p c then EmptyString else String c EmptyString
      | r' => String c r'
      end
  end.

(** [s.replace(c, '')] for a single character [c]. *)
Fixpoint remove_char (c : ascii) (s : string) : string :=
  match s with
  | EmptyString => EmptyString
  | String d r => if Ascii.eqb d c then remove_char c r else String d (remove_char c r)
  end.

(** [s.startswith(p)] *)
Definition startswith (s p : string) : bool := String.prefix p s.

(** [s.endswith(p)] *)
Definition endswith (s p : string) : bool :=
  let n := String.length p in
  let m := String.length s in
  (n <=? m)%nat && String.eqb (drop (m - n) s) p.

(** [p in s] *)
Fixpoint contains (p s : string) : bool :=
  String.prefix p s ||
  match s with
  | EmptyString => false
  | String _ r => contains p r
  end.

(** [s.split(c)[0]]: the part of [s] before the first [c]. *)
Fixpoint split_head (c : ascii) (s : string) : string :=
  match s with
  | EmptyString => EmptyString
  | String d r => if Ascii.eqb d c then EmptyString else String d (split_head c r)
  end.

(** Characters [str.isspace] accepts, among the first 256 code points. *)
Definition is_space (c : ascii) : bool :=
  let n := nat_of_ascii c in
  ((9 <=? n) && (n <=? 13) || (28 <=? n) && (n <=? 32) ||
   (n =? 133) || (n =? 160))%nat.

Definition is_digit (c : ascii) : bool :=
  let n := nat_of_ascii c in ((48 <=? n) && (n <=? 57))%nat.

(** Lexicographic [<] on [str], by code point. *)
Fixpoint str_ltb (s t : string) : bool :=
  match s, t with
  | _, EmptyString => false
  | EmptyString, String _ _ => true
  | String c s', String d t' =>
      if (nat_of_ascii c <? nat_of_ascii d)%nat then true
      else if (nat_of_ascii d <? nat_of_ascii c)%nat then false
      else str_ltb s' t'
  end.

(** [str(n)] for an int. *)
Definition str_of_int (n : Z) : string := NilZero.string_of_int (Z.to_int n).

End PyStr.

Definition gap : ascii := "-"%char.
Definition is_gap (c : ascii) : bool := Ascii.eqb c gap.
Definition tab : ascii := ascii_of_nat 9.
Definition newline : ascii := ascii_of_nat 10.

(** ** Floats *)

Definition prec : Z := 53.
Definition emax : Z := 1024.

(** An int as the exact ratio [SFdiv] divides: mantissa [|n|], exponent 0. *)
Definition sf_of_int (n : Z) : spec_float :=
  match n with
  | Z0 => S754_zero false
  | Zpos p => S754_finite false p 0
  | Zneg p => S754_finite true p 0
  end.

(** [float(n)]: the int rounded to binary64. *)
Definition float_of_int (n : Z) : spec_float := binary_normalize prec emax n 0 false.

(** [x / y] on ints: the quotient of the two integers, rounded once. *)
Definition true_div (x y : Z) : result spec_float :=
  if y =? 0 then Raise ZeroDivisionError
  else Ok (SFdiv prec emax (sf_of_int x) (sf_of_int y)).

Definition is_nan (x : spec_float) : bool :=
  match x with S754_nan => true | _ => false end.

(** [x > y] and [x == y] on floats. *)
Definition float_gtb (x y : spec_float) : bool := SFltb y x.
Definition float_eqb (x y : spec_float) : bool := SFeqb x y.

(** The digits of ['{:.2f}'.format(x)]: the exact value of [x] times 100,
    rounded to the nearest integer, ties to even, printed with two
    decimals. *)
Definition round_half_even (num den : Z) : Z :=
  let q := num / den in
  let r := num mod den in
  match 2 * r ?= den with
  | Lt => q
  | Gt => q + 1
  | Eq => if Z.even q then q else q + 1
  end.

Definition hundredths (m : positive) (e : Z) : Z :=
  if 0 <=? e then Zpos m * 100 * 2 ^ e
  else round_half_even (Zpos m * 100) (2 ^ (- e)).

Definition two_digits (n : Z) : string :=
  String (ascii_of_nat (48 + Z.to_nat (n / 10)))
    (String (ascii_of_nat (48 + Z.to_nat (n mod 10))) EmptyString).

Definition fixed2 (n : Z) : string :=
  str_of_int (n / 100) ++ "." ++ two_digits (n mod 100).

Definition sign_str (s : bool) : string := if s then "-" else "".

Definition format_2f (x : spec_float) : string :=
  match x with
  | S754_nan => "nan"
  | S754_infinity s => sign_str s ++ "inf"
  | S754_zero s => sign_str s ++ "0.00"
  | S754_finite s m e => sign_str s ++ fixed2 (hundredths m e)
  end.

(** ** Metric calculator *)

(** [find_ref_len(a,b)] *)
Definition find_ref_len (a b : string) : result Z :=
  a0 <- first_char a ;;
  c1 <- (if negb (is_gap a0)
         then b0 <- first_char b ;; Ok (is_gap b0)
         else Ok false) ;;
  let a_align_seq :=
    if (c1 : bool) then
      let bstrip1 := lstrip is_gap b in
      let ltrim := len b - len bstrip1 in
      slice_from a ltrim
    else a in
  an <- last_char a ;;
  c2 <- (if negb (is_gap an)
         then bn <- last_char b ;; Ok (is_gap bn)
         else Ok false) ;;
  let a_align_seq :=
    if (c2 : bool) then
      let bstrip2 := rstrip is_gap b in
      let rtrim := (len b - len bstrip2) * -1 in
      slice_to a_align_seq rtrim
    else a_align_seq in
  let a_align_seq := remove_char gap a_align_seq in
  Ok (len a_align_seq).

(** The loop of [calculate_exact_alignment] over [zip(aseq,bseq)], carrying
    [(total, perfect_match)]. *)
Fixpoint exact_loop (aseq bseq : string) (total perfect_match : Z) : Z * Z :=
  match aseq, bseq with
  | String a_base ar, String b_base br =>
      if negb (is_gap a_base) then
        if Ascii.eqb a_base b_base
        then exact_loop ar br (total + 1) (perfect_match + 1)
        else exact_loop ar br (total + 1) perfect_match
      else exact_loop ar br total perfect_match
  | _, _ => (total, perfect_match)
  end.

(** [calculate_exact_alignment(aseq,bseq)] *)
Definition calculate_exact_alignment (aseq bseq : string) : result string :=
  let '(total, perfect_match) := exact_loop aseq bseq 0 0 in
  q <- true_div perfect_match total ;;
  Ok (format_2f (SFmul prec emax q (float_of_int 100))).

(** ** Regular expressions

    The two patterns of [parse_alignment] use literals, the classes [\s],
    [\d] and [.], the greedy quantifiers [+], [*] and [?] on a class, one
    capturing group and [$]. [re_match] is a backtracking matcher for
    sequences of such atoms; [re_search] tries every start position from the
    left, as [re.search] does, and returns group 1. *)

Inductive atom : Type :=
| One (p : ascii -> bool)
| Star (p : ascii -> bool)
| Opt (p : ascii -> bool)
| GroupOpen
| GroupClose
| Eol.

Definition regex : Type := list atom.

Definition lit (c : ascii) : atom := One (Ascii.eqb c).

Fixpoint lits (s : string) : regex :=
  match s with
  | EmptyString => []
  | String c r => lit c :: lits r
  end.

(** [p+] *)
Definition plus (p : ascii -> bool) : regex := [One p; Star p].

(** [.] matches any character but a newline. *)
Definition any_char (c : ascii) : bool := negb (Ascii.eqb c newline).

(** [$] matches at the end of the string and before a newline that ends it. *)
Definition at_eol (s : string) : bool :=
  match s with
  | EmptyString => true
  | String c EmptyString => Ascii.eqb c newline
  | _ => false
  end.

(** Greedy [p*] followed by the continuation [k]: the longest run first,
    then shorter ones. *)
Fixpoint star_then (p : ascii -> bool) (k : string -> option string) (s : string)
  : option string :=
  match s with
  | String c s' =>
      if p c then
        match star_then p k s' with
        | Some g => Some g
        | None => k s
        end
      else k s
  | EmptyString => k s
  end.

(** [re_match r s opened grp]: match [r] at the start of [s]; [opened] is the
    input where group 1 opened and [grp] the text of group 1 once closed. *)
Fixpoint re_match (r : regex) (s opened grp : string) : option string :=
  match r with
  | [] => Some grp
  | One p :: r' =>
      match s with
      | String c s' => if p c then re_match r' s' opened grp else None
      | EmptyString => None
      end
  | Star p :: r' => star_then p (fun s' => re_match r' s' opened grp) s
  | Opt p :: r' =>
      match s with
      | String c s' =>
          if p c then
            match re_match r' s' opened grp with
            | Some g => Some g
            | None => re_match r' s opened grp
            end
          else re_match r' s opened grp
      | EmptyString => re_match r' s opened grp
      end
  | GroupOpen :: r' => re_match r' s s grp
  | GroupClose :: r' =>
      re_match r' s opened (take (String.length opened - String.length s) opened)
  | Eol :: r' => if at_eol s then re_match r' s opened grp else None
  end.

(** [re.search(r, s)], giving [.group(1)] of the match. *)
Fixpoint re_search (r : regex) (s : string) : option string :=
  match re_match r s "" "" with
  | Some g => Some g
  | None =>
      match s with
      | String _ s' => re_search r s'
      | EmptyString => None
      end
  end.

(** The score pattern: hash, [\s], "Score:", [\s], then group 1 holding
    any run of [.], then [$]. *)
Definition score_re : regex :=
  ([lit "#"; One is_space] ++ lits "Score:" ++
   [One is_space; GroupOpen; Star any_char; GroupClose; Eol])%list.

(** The identity pattern: hash, [\s], "Identity:", [\s+], [\d+], a slash,
    [\d+], [\s], an opening parenthesis, [\s?], group 1 holding [\d+], a dot
    and [\d+], then a percent sign, a closing parenthesis and [$]. *)
Definition identity_re : regex :=
  ([lit "#"; One is_space] ++ lits "Identity:" ++
   plus is_space ++ plus is_digit ++ [lit "/"] ++ plus is_digit ++
   [One is_space; lit "("; Opt is_space; GroupOpen] ++
   plus is_digit ++ [lit "."] ++ plus is_digit ++
   [GroupClose; lit "%"; lit ")"; Eol])%list.

(** ** Values of the [stats] dictionary

    [stats['score']] is the int 0 it is initialised with or the text the
    score pattern captured; [stats['id']] is the int 0 or the float made of
    the captured percentage. *)

Inductive score_value : Type :=
| ScoreUnset
| ScoreText (s : string).

Inductive ident : Type :=
| IdUnset
| IdPct (x : spec_float).

Record stats : Type := mkStats { stats_score : score_value; stats_id : ident }.

(** The number an identity compares as: the int 0 is the float 0. *)
Definition ident_float (v : ident) : spec_float :=
  match v with
  | IdUnset => S754_zero false
  | IdPct x => x
  end.

Definition ident_gtb (x y : ident) : bool := float_gtb (ident_float x) (ident_float y).
Definition ident_eqb (x y : ident) : bool := float_eqb (ident_float x) (ident_float y).

(** ** [max] and [list.index]

    [max(l)] keeps the first element and replaces it by each later element
    that is greater; [l.index(m)] is the first position holding the object
    [m] itself or a value equal to it. [max_pos] is the position of the
    object [max] returns, so that [index_of_max l] is [l.index(max(l))]. *)

Section Selection.
Context {A : Type}.
Variable gtb : A -> A -> bool.
Variable eqb : A -> A -> bool.

Fixpoint max_from (best_pos : nat) (best : A) (pos : nat) (l : list A) : nat * A :=
  match l with
  | [] => (best_pos, best)
  | x :: r =>
      if gtb x best then max_from pos x (S pos) r
      else max_from best_pos best (S pos) r
  end.

Definition max_pos (l : list A) : result (nat * A) :=
  match l with
  | [] => Raise ValueError
  | x :: r => Ok (max_from 0%nat x 1%nat r)
  end.

Fixpoint index_from (k : nat) (m : A) (pos : nat) (l : list A) : result nat :=
  match l with
  | [] => Raise ValueError
  | x :: r =>
      if (pos =? k)%nat || eqb x m then Ok pos
      else index_from k m (S pos) r
  end.

Definition index_of_max (l : list A) : result nat :=
  km <- max_pos l ;;
  index_from (fst km) (snd km) 0%nat l.

End Selection.

(** [l[i]] *)
Definition item {A : Type} (l : list A) (i : nat) : result A :=
  match nth_error l i with
  | Some x => Ok x
  | None => Raise IndexError
  end.

(** ** Files

    A file is its name and its text; a directory is the list of its files in
    the order [os.listdir] returns them. The file system is what
    [os.listdir] does at a path: it returns the listing of the directory
    there, or raises: FileNotFoundError where nothing is, NotADirectoryError
    on a file that is no directory, PermissionError on a directory that may
    not be read, and OSError or ValueError on a path the system or Python
    refuses. *)

Record file : Type := mkFile { fname : string; fdata : string }.

Definition filesystem : Type := string -> result (list file).

Definition carriage_return : ascii := ascii_of_nat 13.

(** The lines a text-mode file object yields: each ends with its newline,
    the last one perhaps without; ["\r\n"] and ["\r"] are read as a
    newline. *)
Fixpoint file_lines (s : string) : list string :=
  match s with
  | EmptyString => []
  | String c r =>
      if Ascii.eqb c newline then String newline "" :: file_lines r
      else if Ascii.eqb c carriage_return then
        match r with
        | String d r' =>
            if Ascii.eqb d newline then String newline "" :: file_lines r'
            else String newline "" :: file_lines r
        | EmptyString => [String newline ""]
        end
      else
        match file_lines r with
        | [] => [String c ""]
        | l :: ls => String c l :: ls
        end
  end.

(** [os.stat(path).st_size] *)
Definition st_size (f : file) : Z := len (fdata f).

(** [os.listdir(algn_dir)] *)
Definition listdir (fs : filesystem) (algn_dir : string) : result (list file) :=
  fs algn_dir.

(** The local variables of a worker that outlive one turn of its loop over
    the directory: the parallel lists, [aligned], and [ref_align_len], which
    is unbound until first assigned. [nogap_id] stays empty in
    [spades_worker]. *)
Record locals : Type := mkLocals {
  isos : list string;
  scores : list spec_float;
  ids : list ident;
  files : list string;
  cov : list spec_float;
  length_ : list Z;
  ref_len : list Z;
  nogap_id : list string;
  aligned : bool;
  ref_align_len : option Z
}.

Definition fresh_locals : locals :=
  mkLocals [] [] [] [] [] [] [] [] false None.

Definition set_aligned (l : locals) : locals :=
  mkLocals (isos l) (scores l) (ids l) (files l) (cov l) (length_ l)
           (ref_len l) (nogap_id l) true (ref_align_len l).

Definition set_ref_align_len (l : locals) (r : Z) : locals :=
  mkLocals (isos l) (scores l) (ids l) (files l) (cov l) (length_ l)
           (ref_len l) (nogap_id l) (aligned l) (Some r).

Definition append_nogap_id (l : locals) (g : string) : locals :=
  mkLocals (isos l) (scores l) (ids l) (files l) (cov l) (length_ l)
           (ref_len l) (nogap_id l ++ [g]) (aligned l) (ref_align_len l).

(** The seven appends that end a turn of the loop. *)
Definition append_candidate (l : locals) (isolate : string) (sc : spec_float)
  (i : ident) (c : spec_float) (n r : Z) (full_path : string) : locals :=
  mkLocals (isos l ++ [isolate]) (scores l ++ [sc]) (ids l ++ [i])
           (files l ++ [full_path]) (cov l ++ [c]) (length_ l ++ [n])
           (ref_len l ++ [r]) (nogap_id l) (aligned l) (ref_align_len l).

(** Reading a local variable that may be unbound. *)
Definition read_local {A : Type} (v : option A) : result A :=
  match v with
  | Some x => Ok x
  | None => Raise UnboundLocalError
  end.

Definition suffix : string := ".trimmed_align.txt".

(** ["{0}/{1}".format(algn_dir,file)] *)
Definition path_join (algn_dir file : string) : string := algn_dir ++ "/" ++ file.

(** The skip of a file that does not start with a given priority. *)
Definition other_priority (priority file : string) : bool :=
  negb (String.eqb priority "") && negb (startswith file priority).

(** What the script takes from the Python runtime and from Biopython:
    [float(s)] on a [str], which raises ValueError on text that is no
    number; the text of a float in ["{0}".format(x)]; and
    [AlignIO.read(path,'emboss')], given the text of the file, which returns
    the sequences of the one alignment in it or raises. *)
Class Runtime : Type := mkRuntime {
  float_of_str : string -> result spec_float;
  str_of_float : spec_float -> string;
  AlignIO_read : string -> result (list string)
}.

Section Workers.
Context {rt : Runtime}.

(** *** Alignment report parser *)

(** The loop of [parse_alignment] over the lines, [stats] being the
    dictionary so far. *)
Fixpoint parse_lines (lines : list string) (st : stats) : result stats :=
  match lines with
  | [] => Ok st
  | line :: rest =>
      if startswith line "# Score:" then
        match re_search score_re line with
        | None => Raise AttributeError
        | Some g => parse_lines rest (mkStats (ScoreText g) (stats_id st))
        end
      else if startswith line "# Identity:" then
        match re_search identity_re line with
        | None => Raise AttributeError
        | Some g =>
            x <- float_of_str g ;;
            parse_lines rest (mkStats (stats_score st) (IdPct x))
        end
      else if startswith line "a.trimmed" then Ok st
      else parse_lines rest st
  end.

(** [parse_alignment(infile)], given the text of [infile]. *)
Definition parse_alignment (infile : string) : result stats :=
  parse_lines (file_lines infile) (mkStats ScoreUnset IdUnset).

(** [float(stats['score'])] *)
Definition float_of_score (v : score_value) : result spec_float :=
  match v with
  | ScoreUnset => Ok (float_of_int 0)
  | ScoreText s => float_of_str s
  end.

(** ["{0}".format(v)] for an entry of [ids]. *)
Definition str_of_ident (v : ident) : string :=
  match v with
  | IdUnset => str_of_int 0
  | IdPct x => str_of_float x
  end.

(** *** The worker for contigs *)

(** The loop over the sequences of an alignment in [spades_worker]: the
    first sequence goes to [a] while [a] is empty, every later one to [b]. *)
Definition read_sequences (alignment : list string) : string * string :=
  fold_left
    (fun (ab : string * string) (sequence : string) =>
       if String.eqb (fst ab) "" then (sequence, snd ab) else (fst ab, sequence))
    alignment ("", "").

(** One turn of the loop of [spades_worker] over the directory. *)
Definition spades_file (algn_dir priority : string) (l : locals) (f : file)
  : result locals :=
  let file := fname f in
  if endswith file suffix then
    if other_priority priority file then Ok l
    else
      let l := set_aligned l in
      let isolate := split_head "." file in
      let full_path := path_join algn_dir file in
      alignment <- AlignIO_read (fdata f) ;;
      let a := fst (read_sequences alignment) in
      let b := snd (read_sequences alignment) in
      abl <- (if negb (String.eqb a "") && negb (String.eqb b "")
              then r <- find_ref_len a b ;;
                   Ok (remove_char gap a, remove_char gap b, set_ref_align_len l r)
              else Ok (a, b, l)) ;;
      let '(a, b, l) := abl in
      st <- parse_alignment (fdata f) ;;
      sc <- float_of_score (stats_score st) ;;
      c <- true_div (len a) (len b) ;;
      r <- read_local (ref_align_len l) ;;
      Ok (append_candidate l isolate sc (stats_id st) c (len b) r full_path)
  else Ok l.

(** A loop over the directory: the first exception ends it. *)
Fixpoint scan (step : locals -> file -> result locals) (l : locals)
  (entries : list file) : result locals :=
  match entries with
  | [] => Ok l
  | f :: rest => l' <- step l f ;; scan step l' rest
  end.

(** The line [spades_worker] puts for position [x] of the lists. *)
Definition spades_record (l : locals) (x : nat) : result string :=
  i <- item (ids l) x ;;
  c <- item (cov l) x ;;
  n <- item (length_ l) x ;;
  iso <- item (isos l) x ;;
  r <- item (ref_len l) x ;;
  f <- item (files l) x ;;
  Ok (str_of_ident i ++ String tab (str_of_float c) ++ String tab (str_of_int n)
      ++ String tab iso ++ String tab (str_of_int r) ++ String tab f
      ++ String newline "").

(** [for x in range(0,len(files)): queue.put(...)]: the lines put, and how
    the loop ended. *)
Fixpoint put_each (record : nat -> result string) (xs : list nat)
  : list string * result unit :=
  match xs with
  | [] => ([], Ok tt)
  | x :: rest =>
      match record x with
      | Ok m => let '(ms, r) := put_each record rest in (m :: ms, r)
      | Raise e => ([], Raise e)
      end
  end.

(** The part of a worker after its scan: what it puts on the queue, and how
    it ends. *)
Definition select (crit : locals -> result nat) (record : locals -> nat -> result string)
  (best_only : string) (l : locals) : list string * result unit :=
  if negb (aligned l) then ([], Ok tt)
  else if String.eqb best_only "yes" then
    match (best <- crit l ;; record l best) with
    | Ok m => ([m], Ok tt)
    | Raise e => ([], Raise e)
    end
  else if String.eqb best_only "no" then
    put_each (record l) (seq 0 (List.length (files l)))
  else ([], Ok tt).

(** [best = ids.index(max(ids))] *)
Definition spades_best (l : locals) : result nat :=
  index_of_max ident_gtb ident_eqb (ids l).

(** [spades_worker(algn_dir,locus,priority,best_only,queue)]: the messages
    put on the queue, in order, and the outcome of the call. *)
Definition spades_worker (fs : filesystem) (algn_dir locus priority best_only : string)
  : list string * result unit :=
  match (entries <- listdir fs algn_dir ;;
         scan (spades_file algn_dir priority) fresh_locals entries) with
  | Raise e => ([], Raise e)
  | Ok l => select spades_best spades_record best_only l
  end.

(** *** The worker for scaffolds *)

(** One turn of the loop over the sequences of an alignment in
    [scaffold_worker], on the variables [a], [b] and the locals. *)
Definition scaffold_sequence (st : string * string * locals) (sequence : string)
  : result (string * string * locals) :=
  let '(a, b, l) := st in
  let a' := if String.eqb a "" then sequence else a in
  let b' := if String.eqb a "" then b else sequence in
  if negb (String.eqb a' "") && negb (String.eqb b' "") then
    r <- find_ref_len a' b' ;;
    g <- calculate_exact_alignment a' b' ;;
    Ok (remove_char gap a', remove_char gap b',
        append_nogap_id (set_ref_align_len l r) g)
  else Ok (a', b', l).

Fixpoint scaffold_sequences (st : string * string * locals) (alignment : list string)
  : result (string * string * locals) :=
  match alignment with
  | [] => Ok st
  | sequence :: rest =>
      st' <- scaffold_sequence st sequence ;;
      scaffold_sequences st' rest
  end.

(** One turn of the loop of [scaffold_worker] over the directory. *)
Definition scaffold_file (algn_dir priority : string) (l : locals) (f : file)
  : result locals :=
  let file := fname f in
  if contains "Scaffold" file && endswith file suffix then
    if other_priority priority file then Ok l
    else
      let l := set_aligned l in
      let isolate := split_head "." file in
      let full_path := path_join algn_dir file in
      if st_size f =? 0 then Ok l
      else
        alignment <- AlignIO_read (fdata f) ;;
        abl <- scaffold_sequences ("", "", l) alignment ;;
        let '(a, b, l) := abl in
        st <- parse_alignment (fdata f) ;;
        sc <- float_of_score (stats_score st) ;;
        c <- true_div (len a) (len b) ;;
        r <- read_local (ref_align_len l) ;;
        Ok (append_candidate l isolate sc (stats_id st) c (len b) r full_path)
  else Ok l.

(** [x > y] on [str]. *)
Definition str_gtb (x y : string) : bool := str_ltb y x.

(** [best = nogap_id.index(max(nogap_id))] *)
Definition scaffold_best (l : locals) : result nat :=
  index_of_max str_gtb String.eqb (nogap_id l).

(** The line [scaffold_worker] puts for position [x] of the lists. *)
Definition scaffold_record (l : locals) (x : nat) : result string :=
  i <- item (ids l) x ;;
  c <- item (cov l) x ;;
  n <- item (length_ l) x ;;
  iso <- item (isos l) x ;;
  r <- item (ref_len l) x ;;
  f <- item (files l) x ;;
  g <- item (nogap_id l) x ;;
  Ok (str_of_ident i ++ String tab (str_of_float c) ++ String tab (str_of_int n)
      ++ String tab iso ++ String tab (str_of_int r) ++ String tab f
      ++ String tab g ++ String newline "").

(** [scaffold_worker(algn_dir,locus,priority,best_only,queue)] *)
Definition scaffold_worker (fs : filesystem) (algn_dir locus priority best_only : string)
  : list string * result unit :=
  match (entries <- listdir fs algn_dir ;;
         scan (scaffold_file algn_dir priority) fresh_locals entries) with
  | Raise e => ([], Raise e)
  | Ok l => select scaffold_best scaffold_record best_only l
  end.

(** *** Writer and orchestrator *)

(** [listener(queue,out_file)] on the messages the queue will hold: the text
    appended to the output file, and whether the loop ended (it ends on
    ['stop'] and otherwise waits for a next message). *)
Fixpoint listener (queue : list string) (out : string) : string * bool :=
  match queue with
  | [] => (out, false)
  | msg :: rest =>
      if String.eqb msg "stop" then (out, true)
      else listener rest (out ++ msg)
  end.

(** The job [main] submits for a line of the map, if any. *)
Definition dispatch (fs : filesystem) (align_path priority best_only assmb_type : string)
  (line : string) : list (list string * result unit) :=
  let line := rstrip is_space line in
  let locus := split_head tab line in
  let algn_dir := path_join align_path locus in
  if String.eqb assmb_type "SPAdes" then
    [spades_worker fs algn_dir locus priority best_only]
  else if String.eqb assmb_type "HGA" then
    [scaffold_worker fs algn_dir locus priority best_only]
  else [].

(** [for job in jobs: job.get()]: the first exception a job ended with is
    raised again. *)
Fixpoint get_all (jobs : list (list string * result unit)) : result unit :=
  match jobs with
  | [] => Ok tt
  | job :: rest => _ <- snd job ;; get_all rest
  end.

(** The jobs [main] submits, one for each line of the map, in order. *)
Definition jobs (fs : filesystem) (assmb_map align_path priority best_only assmb_type : string)
  : list (list string * result unit) :=
  flat_map (dispatch fs align_path priority best_only assmb_type)
           (file_lines assmb_map).

(** [main()], given the text of the map and the arguments: the messages the
    queue received when the run ends normally, the workers' in the order
    their jobs were submitted and then ['stop']; or the exception that ends
    the run. Which workers' messages reach the queue before that exception
    depends on the pool and is left out, as is the order in which the pool
    interleaves the messages of different loci. The pool is taken to have a
    process for the jobs besides the one of the writer ([cpus] at least
    1). *)
Definition main (fs : filesystem) (assmb_map align_path priority best_only assmb_type : string)
  : result (list string) :=
  let js := jobs fs assmb_map align_path priority best_only assmb_type in
  _ <- get_all js ;;
  Ok (flat_map fst js ++ ["stop"])%list.

(** *** The candidate of one file

    What one turn of a worker's loop computes from a file it keeps, apart
    from the lists it appends to: the seven values it appends, and the
    gap-free identities [scaffold_worker] appends to [nogap_id] on the way
    (one for an alignment of two sequences). *)

Record candidate : Type := mkCandidate {
  c_isolate : string;
  c_score : spec_float;
  c_id : ident;
  c_cov : spec_float;
  c_length : Z;
  c_ref_len : Z;
  c_file : string;
  c_nogap_id : list string
}.

(** The files [spades_worker] keeps: the report suffix, and the priority
    prefix when one is set. *)
Definition spades_retained (priority : string) (f : file) : bool :=
  endswith (fname f) suffix && negb (other_priority priority (fname f)).

(** The files [scaffold_worker] takes for alignments of the locus (from
    then on [aligned] is true), and those of them it goes on to read: the
    ones that are not empty. *)
Definition scaffold_named (priority : string) (f : file) : bool :=
  contains "Scaffold" (fname f) && endswith (fname f) suffix
  && negb (other_priority priority (fname f)).

Definition scaffold_retained (priority : string) (f : file) : bool :=
  scaffold_named priority f && negb (st_size f =? 0).

Definition spades_candidate (algn_dir : string) (f : file) : result candidate :=
  alignment <- AlignIO_read (fdata f) ;;
  let a := fst (read_sequences alignment) in
  let b := snd (read_sequences alignment) in
  if negb (String.eqb a "") && negb (String.eqb b "") then
    r <- find_ref_len a b ;;
    st <- parse_alignment (fdata f) ;;
    sc <- float_of_score (stats_score st) ;;
    c <- true_div (len (remove_char gap a)) (len (remove_char gap b)) ;;
    Ok (mkCandidate (split_head "." (fname f)) sc (stats_id st) c
          (len (remove_char gap b)) r (path_join algn_dir (fname f)) [])
  else
    st <- parse_alignment (fdata f) ;;
    sc <- float_of_score (stats_score st) ;;
    c <- true_div (len a) (len b) ;;
    Raise UnboundLocalError.

Definition scaffold_candidate (algn_dir : string) (f : file) : result candidate :=
  alignment <- AlignIO_read (fdata f) ;;
  abl <- scaffold_sequences ("", "", fresh_locals) alignment ;;
  let '(a, b, l) := abl in
  st <- parse_alignment (fdata f) ;;
  sc <- float_of_score (stats_score st) ;;
  c <- true_div (len a) (len b) ;;
  r <- read_local (ref_align_len l) ;;
  Ok (mkCandidate (split_head "." (fname f)) sc (stats_id st) c
        (len b) r (path_join algn_dir (fname f)) (nogap_id l)).

(** A report that [AlignIO.read] reads as an alignment of two sequences. *)
Definition pairwise (f : file) : bool :=
  match AlignIO_read (fdata f) with
  | Ok [_; _] => true
  | _ => false
  end.

(** The locals once a candidate is appended. *)
Definition push_candidate (l : locals) (c : candidate) : locals :=
  mkLocals (isos l ++ [c_isolate c]) (scores l ++ [c_score c]) (ids l ++ [c_id c])
           (files l ++ [c_file c]) (cov l ++ [c_cov c]) (length_ l ++ [c_length c])
           (ref_len l ++ [c_ref_len c]) (nogap_id l ++ c_nogap_id c)
           true (Some (c_ref_len c)).

(** The candidates of a list of files, in order; the first exception ends
    the pass. *)
Fixpoint traverse {A B : Type} (f : A -> result B) (xs : list A) : result (list B) :=
  match xs with
  | [] => Ok []
  | x :: rest => y <- f x ;; ys <- traverse f rest ;; Ok (y :: ys)
  end.

(** The line of the output table for a candidate, without and with the
    column of the gap-free identity. *)
Definition contig_line (c : candidate) : string :=
  str_of_ident (c_id c) ++ String tab (str_of_float (c_cov c))
  ++ String tab (str_of_int (c_length c)) ++ String tab (c_isolate c)
  ++ String tab (str_of_int (c_ref_len c)) ++ String tab (c_file c)
  ++ String newline "".

Definition scaffold_line (c : candidate) (g : string) : string :=
  str_of_ident (c_id c) ++ String tab (str_of_float (c_cov c))
  ++ String tab (str_of_int (c_length c)) ++ String tab (c_isolate c)
  ++ String tab (str_of_int (c_ref_len c)) ++ String tab (c_file c)
  ++ String tab g ++ String newline "".

(** The lines of the candidates [cs], each with the gap-free identity that
    stands at its place in [gs]. *)
Definition scaffold_lines (cs : list candidate) (gs : list string) : list string :=
  map (fun cg => scaffold_line (fst cg) (snd cg)) (combine cs gs).

(** The locals [l] after a run of the loop over the sequences that, started
    on fresh locals, ends on [l0]: the identities appended, and
    [ref_align_len] assigned if the run assigned it. *)
Definition graft (l l0 : locals) : locals :=
  mkLocals (isos l) (scores l) (ids l) (files l) (cov l) (length_ l) (ref_len l)
           (nogap_id l ++ nogap_id l0) (aligned l)
           (match ref_align_len l0 with
            | Some r => Some r
            | None => ref_align_len l
            end).

(** While the sequences of one file are read: [b] is not empty only once
    [ref_align_len] is assigned, and that comes with a gap-free identity. *)
Definition assigned (st : string * string * locals) : Prop :=
  (snd (fst st) <> "" -> ref_align_len (snd st) <> None) /\
  (ref_align_len (snd st) <> None -> nogap_id (snd st) <> []).

End Workers.

(** ** The metrics as the specification words them *)

(** The length of the run of characters accepted by [p] that starts [s]. *)
Fixpoint leading_run (p : ascii -> bool) (s : string) : nat :=
  match s with
  | EmptyString => O
  | String c r => if p c then S (leading_run p r) else O
  end.

(** The length of the run of characters accepted by [p] that ends [s]: the
    run through [c] when the rest is all run. *)
Fixpoint trailing_run (p : ascii -> bool) (s : string) : nat :=
  match s with
  | EmptyString => O
  | String c r =>
      if p c && (trailing_run p r =? String.length r)%nat
      then S (String.length r)
      else trailing_run p r
  end.

(** The number of characters of [s] that are no gap. *)
Fixpoint count_bases (s : string) : nat :=
  match s with
  | EmptyString => O
  | String c r => if is_gap c then count_bases r else S (count_bases r)
  end.

Definition starts_with (p : ascii -> bool) (s : string) : bool :=
  match s with
  | EmptyString => false
  | String c _ => p c
  end.

Fixpoint ends_with (p : ascii -> bool) (s : string) : bool :=
  match s with
  | EmptyString => false
  | String c EmptyString => p c
  | String _ r => ends_with p r
  end.

Definition is_base (c : ascii) : bool := negb (is_gap c).

(** Reference-covered length: [a] loses at its start the gap run that starts
    [b] when [a] starts with a base and [b] with a gap, the same at the end,
    and the bases of what is left are counted. *)
Definition reference_covered (a b : string) : nat :=
  let left := if starts_with is_base a && starts_with is_gap b
              then leading_run is_gap b else O in
  let a1 := drop left a in
  let right := if ends_with is_base a && ends_with is_gap b
               then trailing_run is_gap b else O in
  let a2 := take (String.length a1 - right) a1 in
  count_bases a2.

(** The positions of the zipped sequences, as pairs of characters. *)
Definition columns (a b : string) : list (ascii * ascii) :=
  combine (list_ascii_of_string a) (list_ascii_of_string b).

(** The number of positions where [a] has a base and [b] the same
    character. *)
Definition exact_matches (a b : string) : nat :=
  List.length
    (filter (fun ab => is_base (fst ab) && Ascii.eqb (fst ab) (snd ab)) (columns a b)).

(** Gap-free identity: matches over the bases of [a], times 100, to two
    decimals. *)
Definition gap_free_identity (a b : string) : string :=
  format_2f
    (SFmul prec emax
       (SFdiv prec emax (sf_of_int (Z.of_nat (exact_matches a b)))
                        (sf_of_int (Z.of_nat (count_bases a))))
       (float_of_int 100)).

(** The locals [l'] are [l] after the candidates [cs] were appended in
    order, [seen] telling whether a file of the locus was met. *)
Definition grown (l l' : locals) (cs : list candidate) (seen : bool) : Prop :=
  isos l' = (isos l ++ map c_isolate cs)%list /\
  scores l' = (scores l ++ map c_score cs)%list /\
  ids l' = (ids l ++ map c_id cs)%list /\
  files l' = (files l ++ map c_file cs)%list /\
  cov l' = (cov l ++ map c_cov cs)%list /\
  length_ l' = (length_ l ++ map c_length cs)%list /\
  ref_len l' = (ref_len l ++ map c_ref_len cs)%list /\
  nogap_id l' = (nogap_id l ++ flat_map c_nogap_id cs)%list /\
  aligned l' = aligned l || seen.

(** The one gap-free identity of a candidate read from two sequences. *)
Definition c_nogap (c : candidate) : string := hd "" (c_nogap_id c).

(** ** A runtime for the examples

    [decimal_float] is [float] on a decimal, with or without a sign and a
    fraction, rounded to the nearest float as [float] rounds, the blanks
    around it stripped; the other spellings [float] accepts (exponents,
    underscores, infinities) are outside the examples and raise here.
    [decimal_str] is the text Python gives a float: the shortest decimal
    that reads back as the float, the nearest to it among the shortest.
    [needle_read] follows, on the text of a file, the reader of EMBOSS
    reports of Biopython that [AlignIO.read(path,'emboss')] runs. *)

Fixpoint digits_value (s : string) (acc : Z) : option Z :=
  match s with
  | EmptyString => Some acc
  | String c r =>
      if is_digit c
      then digits_value r (10 * acc + Z.of_nat (nat_of_ascii c - 48))
      else None
  end.

(** The part of [s] after the first [c], empty when there is none. *)
Fixpoint split_tail (c : ascii) (s : string) : string :=
  match s with
  | EmptyString => EmptyString
  | String d r => if Ascii.eqb d c then r else split_tail c r
  end.

(** [s.strip()] *)
Definition trimmed (s : string) : string := lstrip is_space (rstrip is_space s).

(** A decimal without a sign: the quotient of its digits by the power of
    ten of its fraction, rounded once. *)
Definition unsigned_float (s : string) : result spec_float :=
  let whole := split_head "." s in
  let fraction := split_tail "." s in
  if String.eqb (whole ++ fraction) "" then Raise ValueError
  else
    match digits_value (whole ++ fraction) 0 with
    | None => Raise ValueError
    | Some n =>
        Ok (SFdiv prec emax (sf_of_int n)
                  (sf_of_int (10 ^ Z.of_nat (String.length fraction))))
    end.

Definition decimal_float (s : string) : result spec_float :=
  let t := trimmed s in
  if startswith t "-" then x <- unsigned_float (drop 1 t) ;; Ok (SFopp x)
  else if startswith t "+" then unsigned_float (drop 1 t)
  else unsigned_float t.

(** The float nearest to [d * 10^k]. *)
Definition read_back (d k : Z) : spec_float :=
  SFdiv prec emax (sf_of_int (d * 10 ^ Z.max k 0)) (sf_of_int (10 ^ Z.max (- k) 0)).

(** The least [p] with [num / den < 10^p]: counted up from [p] when
    [num / den] is not below [10^p], down from [p] when it is. *)
Fixpoint decpt_up (fuel : nat) (p num den : Z) : Z :=
  match fuel with
  | O => p
  | S fuel' => if num <? den then p else decpt_up fuel' (p + 1) num (den * 10)
  end.

Fixpoint decpt_down (fuel : nat) (p num den : Z) : Z :=
  match fuel with
  | O => p
  | S fuel' => if num * 10 <? den then decpt_down fuel' (p - 1) (num * 10) den else p
  end.

Definition decpt_of (num den : Z) : Z :=
  if num <? den then decpt_down 400 0 num den else decpt_up 400 0 num den.

(** The shortest decimal [d * 10^k] that reads back as [x], the value of
    [x] being [num / den] and lying below [10^p10]: of [n] digits if there
    is one, of more otherwise, and of the two decimals of [n] digits around
    [x] the nearer one when both read back as [x]. *)
Fixpoint shortest_from (fuel : nat) (n p10 num den : Z) (x : spec_float) : Z * Z :=
  match fuel with
  | O => (0, 0)
  | S fuel' =>
      let k := p10 - n in
      let N := num * 10 ^ Z.max (- k) 0 in
      let D := den * 10 ^ Z.max k 0 in
      let lo := N / D in
      let r := N mod D in
      let hi := lo + 1 in
      let oklo := (0 <? lo) && float_eqb (read_back lo k) x in
      let okhi := float_eqb (read_back hi k) x in
      if oklo && okhi then
        (match 2 * r ?= D with
         | Lt => lo
         | Gt => hi
         | Eq => if Z.even lo then lo else hi
         end, k)
      else if oklo then (lo, k)
      else if okhi then (hi, k)
      else shortest_from fuel' (n + 1) p10 num den x
  end.

(** [d * 10^k] without the zeros that end [d]. *)
Fixpoint strip_zeros (fuel : nat) (d k : Z) : Z * Z :=
  match fuel with
  | O => (d, k)
  | S fuel' => if d mod 10 =? 0 then strip_zeros fuel' (d / 10) (k + 1) else (d, k)
  end.

Fixpoint zeros (n : nat) : string :=
  match n with
  | O => EmptyString
  | S n' => String "0" (zeros n')
  end.

(** The text of the positive float [m * 2^e]: with an exponent when the
    decimal point would stand more than sixteen places after the first
    digit or more than four before it. *)
Definition positive_str (m : positive) (e : Z) : string :=
  let num := Zpos m * 2 ^ Z.max e 0 in
  let den := 2 ^ Z.max (- e) 0 in
  let x := SFdiv prec emax (sf_of_int num) (sf_of_int den) in
  let p10 := decpt_of num den in
  let '(d, k) := shortest_from 17 1 p10 num den x in
  let '(d, k) := strip_zeros 400 d k in
  let digits := str_of_int d in
  let nd := len digits in
  let decpt := nd + k in
  if (decpt <=? -4) || (16 <? decpt) then
    let ex := decpt - 1 in
    take 1 digits ++ (if 1 <? nd then "." ++ drop 1 digits else "")
    ++ "e" ++ (if ex <? 0 then "-" else "+")
    ++ (if Z.abs ex <? 10 then "0" else "") ++ str_of_int (Z.abs ex)
  else if decpt <=? 0 then "0." ++ zeros (Z.to_nat (- decpt)) ++ digits
  else if nd <=? decpt then digits ++ zeros (Z.to_nat (decpt - nd)) ++ ".0"
  else take (Z.to_nat decpt) digits ++ "." ++ drop (Z.to_nat decpt) digits.

Definition decimal_str (x : spec_float) : string :=
  match x with
  | S754_nan => "nan"
  | S754_infinity s => sign_str s ++ "inf"
  | S754_zero s => sign_str s ++ "0.0"
  | S754_finite s m e => sign_str s ++ positive_str m e
  end.

(** *** The reader of reports

    The reader looks for the rule that opens the header of an alignment,
    reads from the header the number of the sequences, their names and
    their length, and then the lines of the alignment up to the next rule:
    a line longer than 21 characters with a name and a position in its
    first 21 characters and a piece of sequence and a position after them
    adds the piece to the next sequence in turn, once the positions are
    checked against the letters read so far. [AlignIO.read] raises
    ValueError unless the file holds one alignment. [int] is here [int] on
    plain digits. *)

(** [s.lower()] *)
Definition lower_char (c : ascii) : ascii :=
  let n := nat_of_ascii c in
  if ((65 <=? n) && (n <=? 90) ||
      (192 <=? n) && (n <=? 222) && negb (n =? 215))%nat
  then ascii_of_nat (n + 32)
  else c.

Fixpoint lower (s : string) : string :=
  match s with
  | EmptyString => EmptyString
  | String c r => String (lower_char c) (lower r)
  end.

Definition plain_int (s : string) : result Z :=
  let t := trimmed s in
  if String.eqb t "" then Raise ValueError
  else
    match digits_value t 0 with
    | Some n => Ok n
    | None => Raise ValueError
    end.

(** [s.split(":",1)[1]] *)
Definition after_colon (s : string) : result string :=
  if contains ":" s then Ok (split_tail ":" s) else Raise IndexError.

(** [s.split(None,1)] on a text without blanks at its ends: the first word
    and what follows the blanks after it, empty when there is one word. *)
Fixpoint first_word (s : string) : string :=
  match s with
  | EmptyString => EmptyString
  | String c r => if is_space c then EmptyString else String c (first_word r)
  end.

Definition after_word (s : string) : string :=
  lstrip is_space (drop (String.length (first_word s)) s).

Definition header_rule : string := "#=======================================".
Definition body_rule : string := "#---------------------------------------".

Definition is_rule (rule line : string) : bool :=
  String.eqb (rstrip is_space line) rule.

(** The lines from the first header rule on. *)
Fixpoint skip_to_rule (lines : list string) : option (list string) :=
  match lines with
  | [] => None
  | line :: rest => if is_rule header_rule line then Some lines else skip_to_rule rest
  end.

Record report_header : Type := mkHeader {
  number_of_seqs : option Z;
  length_of_seqs : option Z;
  seq_ids : list string
}.

(** One line of the header that is not the name of a sequence: the new
    header, and the number of names that follow the line. *)
Definition header_line (h : report_header) (line : string)
  : result (report_header * nat) :=
  let body := drop 1 line in
  let key := trimmed (lower (split_head ":" body)) in
  if String.eqb key "aligned_sequences" then
    p <- after_colon body ;;
    n <- plain_int p ;;
    match seq_ids h with
    | [] => Ok (mkHeader (Some n) (length_of_seqs h) [], Z.to_nat n)
    | _ => Raise AssertionError
    end
  else if String.eqb key "length" then
    p <- after_colon body ;;
    n <- plain_int p ;;
    Ok (mkHeader (number_of_seqs h) (Some n) (seq_ids h), O)
  else if String.eqb key "identity" || String.eqb key "similarity"
          || String.eqb key "gaps" then
    p <- after_colon body ;;
    _ <- plain_int (split_head "/" (trimmed p)) ;;
    Ok (h, O)
  else if String.eqb key "score" then
    p <- after_colon body ;;
    _ <- decimal_float p ;;
    Ok (h, O)
  else Ok (h, O).

(** The header: [names] lines that name sequences are still to come, the
    next being the one of number [i + 1]. The header ends before the first
    line that does not start with a hash. *)
Fixpoint read_header (lines : list string) (h : report_header) (names : nat) (i : Z)
  : result (report_header * list string) :=
  match lines with
  | [] =>
      match names with
      | O => Raise IndexError
      | S _ => Raise ValueError
      end
  | line :: rest =>
      match names with
      | S names' =>
          let parts := trimmed (drop 1 line) in
          n <- plain_int (split_head ":" parts) ;;
          if negb (n =? i + 1) then Raise AssertionError
          else
            id <- after_colon parts ;;
            read_header rest
              (mkHeader (number_of_seqs h) (length_of_seqs h)
                        (seq_ids h ++ [trimmed id]))
              names' (i + 1)
      | O =>
          if startswith line "#" then
            hn <- header_line h line ;;
            read_header rest (fst hn) (snd hn) 0
          else Ok (h, lines)
      end
  end.

(** The sequences read so far, the position each one started at, and the
    sequence the next piece goes to. *)
Record report_body : Type := mkBody {
  seqs : list string;
  seq_starts : list Z;
  index : nat
}.

Fixpoint replace_nth {A : Type} (l : list A) (i : nat) (x : A) : list A :=
  match l, i with
  | [], _ => []
  | _ :: rest, O => x :: rest
  | y :: rest, S i' => y :: replace_nth rest i' x
  end.

(** One line of the alignment. *)
Definition body_line (n : Z) (ids : list string) (b : report_body) (line : string)
  : result report_body :=
  if (21 <? String.length line)%nat then
    let id_start := trimmed (take 21 line) in
    let seq_end := trimmed (drop 21 line) in
    let id := first_word id_start in
    let start := after_word id_start in
    let seq := first_word seq_end in
    let end_ := after_word seq_end in
    if String.eqb start "" || String.eqb end_ "" then Ok b
    else
      let letters := remove_char gap seq in
      se <- (if negb (str_ltb start end_) then
               s <- plain_int start ;;
               e <- plain_int end_ ;;
               Ok (if String.eqb letters "" then s else s - 1, e)
             else if String.eqb letters "" then Raise AssertionError
             else
               s <- plain_int start ;;
               e <- plain_int end_ ;;
               Ok (s - 1, e)) ;;
      let '(s, e) := se in
      if n <=? Z.of_nat (index b) then Raise ValueError
      else
        name <- item ids (index b) ;;
        if negb (String.eqb id name || String.prefix id name) then Raise AssertionError
        else
          let starts :=
            if (List.length (seq_starts b) =? index b)%nat
            then (seq_starts b ++ [s])%list else seq_starts b in
          s0 <- item starts (index b) ;;
          so_far <- item (seqs b) (index b) ;;
          if (e <=? s) && negb (String.eqb letters "") then Raise AssertionError
          else if negb (e <=? s) && negb (s - s0 =? len (remove_char gap so_far))
          then Raise ValueError
          else
            let so_far := so_far ++ seq in
            if negb (e =? s0 + len (remove_char gap so_far)) then Raise ValueError
            else
              Ok (mkBody (replace_nth (seqs b) (index b) so_far) starts
                         (if n <=? Z.of_nat (index b) + 1 then O else S (index b)))
  else if String.eqb (trimmed line) "" then Ok b
  else Raise ValueError.

(** The lines of the alignment, up to a rule or the end of the file: the
    sequences, and the lines from the rule on. *)
Fixpoint read_body (n : Z) (ids : list string) (lines : list string) (b : report_body)
  : result (report_body * list string) :=
  match lines with
  | [] => Ok (b, [])
  | line :: rest =>
      b' <- body_line n ids b line ;;
      match rest with
      | next :: _ =>
          if is_rule body_rule next || is_rule header_rule next then Ok (b', rest)
          else read_body n ids rest b'
      | [] => Ok (b', [])
      end
  end.

(** The alignment that starts at the header rule [lines] starts with. *)
Definition read_alignment (lines : list string) : result (list string * list string) :=
  hl <- read_header lines (mkHeader None None []) O 0 ;;
  let '(h, lines) := hl in
  match number_of_seqs h, length_of_seqs h with
  | Some n, Some length =>
      bl <- read_body n (seq_ids h) lines (mkBody (map (fun _ => "") (seq_ids h)) [] O) ;;
      let '(b, rest) := bl in
      if negb (index b =? 0)%nat then Raise AssertionError
      else if forallb (fun seq => len seq =? length) (seqs b) then Ok (seqs b, rest)
      else Raise ValueError
  | _, _ => Raise ValueError
  end.

Definition needle_read (text : string) : result (list string) :=
  match skip_to_rule (file_lines text) with
  | None => Raise ValueError
  | Some lines =>
      al <- read_alignment lines ;;
      match skip_to_rule (snd al) with
      | None => Ok (fst al)
      | Some more => _ <- read_alignment more ;; Raise ValueError
      end
  end.

Definition example_runtime : Runtime :=
  mkRuntime decimal_float decimal_str needle_read.

(** A report of needle for the aligned sequences [a] and [b], of equal
    length and one line each, with the marker lines [markers]. The
    positions that end the lines of the sequences are the numbers of their
    letters. *)
Definition needle_text (markers a b : string) : string :=
  "########################################
# Program: needle
########################################

#=======================================
#
# Aligned_sequences: 2
# 1: a.trimmed
# 2: b.trimmed
# Matrix: EDNAFULL
# Gap_penalty: 10.0
# Extend_penalty: 0.5
#
# Length: " ++ str_of_int (len a) ++ "
" ++ markers ++ "#
#
#=======================================

a.trimmed          1 " ++ a ++ "     " ++ str_of_int (Z.of_nat (count_bases a)) ++ "
b.trimmed          1 " ++ b ++ "     " ++ str_of_int (Z.of_nat (count_bases b)) ++ "

#---------------------------------------
".

(** The report with its identity and score lines. *)
Definition needle_report (identity score a b : string) : string :=
  needle_text ("# Identity:     " ++ identity ++ "
# Score: " ++ score ++ "
") a b.

(** A line of tab-separated fields that a newline ends. *)
Definition tab_line (fields : list string) : string :=
  String.concat (String tab "") fields ++ String newline "".

(** The lists of [l] that [spades_worker] indexes hold [n] entries each. *)
Definition lists_length (l : locals) (n : nat) : Prop :=
  List.length (isos l) = n /\ List.length (scores l) = n /\
  List.length (ids l) = n /\ List.length (files l) = n /\
  List.length (cov l) = n /\ List.length (length_ l) = n /\
  List.length (ref_len l) = n.

(** ** Example loci

    Two reports of needle, one of 75.0 and one of 100.0 percent identity;
    a file that is no report; and a file system with a locus of contigs
    [L1], a locus of scaffolds [L2], a locus [L3] where a report and a file
    that is no report stand side by side, a locus [L4] whose only file is
    empty, a locus [L8] at whose path a file stands that is no directory,
    and nothing at the path of any other locus. *)

Definition report_75 : string := needle_report "3/4 (75.0%)" "11.0" "ACGT" "ACGA".
Definition report_100 : string := needle_report "4/4 (100.0%)" "20.0" "ACGT" "ACGT".
Definition no_report : string := "needle: could not align
".

Definition example_fs : filesystem :=
  fun algn_dir =>
    if String.eqb algn_dir "out/L1" then
      Ok [mkFile "IsoA.1.trimmed_align.txt" report_75;
          mkFile "IsoB.1.trimmed_align.txt" report_100;
          mkFile "IsoC.1.trimmed_align.txt" report_100;
          mkFile "IsoA.1.align.txt" report_75]
    else if String.eqb algn_dir "out/L2" then
      Ok [mkFile "IsoA.Scaffold.trimmed_align.txt" report_100;
          mkFile "IsoB.Scaffold.trimmed_align.txt" report_75]
    else if String.eqb algn_dir "out/L3" then
      Ok [mkFile "IsoA.1.trimmed_align.txt" report_75;
          mkFile "IsoB.1.trimmed_align.txt" no_report]
    else if String.eqb algn_dir "out/L4" then
      Ok [mkFile "IsoA.Scaffold.trimmed_align.txt" ""]
    else if String.eqb algn_dir "out/L8" then Raise NotADirectoryError
    else Raise FileNotFoundError.

(** A map of two loci: [L9], which has no directory, and [L1]. *)
Definition example_map : string :=
  "L9" ++ String tab "contigs.fasta" ++ String newline
  ("L1" ++ String tab "contigs.fasta" ++ String newline "").

(** A map of two loci: [L3], one of whose files is no report, and [L1]. *)
Definition example_map_L3 : string :=
  "L3" ++ String tab "contigs.fasta" ++ String newline
  ("L1" ++ String tab "contigs.fasta" ++ String newline "").

(** A map of the one locus [L1]. *)
Definition example_map_L1 : string :=
  "L1" ++ String tab "contigs.fasta" ++ String newline "".

(** The text of the output file once the messages [records] are written. *)
Definition joined (records : list string) : string :=
  fold_right append "" records.

(** ** The marker lines of a report *)

Fixpoint all_chars (p : ascii -> bool) (s : string) : bool :=
  match s with
  | EmptyString => true
  | String c r => p c && all_chars p r
  end.

(** A run of characters of one class: at least one, all accepted by [p]. *)
Definition run_of (p : ascii -> bool) (s : string) : Prop :=
  s <> "" /\ all_chars p s = true.

(** The score line of a report, for the score text [s]. *)
Definition score_line (s : string) : string :=
  "# Score: " ++ s ++ String newline "".

(** The identity line of a report: blanks [pad], the fraction [n]/[d], and
    in parentheses the percentage [w].[f], after a blank [sp] when it is
    short. *)
Definition identity_line (pad n d sp w f : string) : string :=
  "# Identity:" ++ pad ++ n ++ "/" ++ d ++ " (" ++ sp ++ w ++ "." ++ f
  ++ "%)" ++ String newline "".

(** A line that carries neither marker. *)
Definition unmarked (line : string) : bool :=
  negb (startswith line "# Score:") && negb (startswith line "# Identity:").

(** A line of the header that carries neither marker and does not open the
    alignment block. *)
Definition header_filler (line : string) : bool :=
  unmarked line && negb (startswith line "a.trimmed").

(** A report without an identity line, and one without any marker. *)
Definition report_without_identity : string :=
  needle_text (score_line "11.0") "ACGT" "ACGA".

Definition report_without_markers : string := needle_text "" "ACGT" "ACGA".

(** Atoms that neither open nor close the group. *)
Definition groupless (a : atom) : bool :=
  match a with
  | GroupOpen | GroupClose => false
  | _ => true
  end.

(** ** The order of floats

    A float that is no NaN has a key, a triple of integers, and floats
    compare as their keys do, first component first. *)

Definition key (x : spec_float) : Z * Z * Z :=
  match x with
  | S754_nan => (0, 0, 0)
  | S754_zero _ => (0, 0, 0)
  | S754_infinity false => (2, 0, 0)
  | S754_infinity true => (-2, 0, 0)
  | S754_finite false m e => (1, e, Zpos m)
  | S754_finite true m e => (-1, - e, Zneg m)
  end.

Definition key_lt (k k' : Z * Z * Z) : Prop :=
  fst (fst k) < fst (fst k') \/
  fst (fst k) = fst (fst k') /\
  (snd (fst k) < snd (fst k') \/ snd (fst k) = snd (fst k') /\ snd k < snd k').

Definition number (x : spec_float) : Prop := is_nan x = false.

(** What the selection of contigs needs of [float]: the float of a decimal,
    digits with a fraction, is a number. *)
Definition decimal_is_number {rt : Runtime} : Prop :=
  forall (w f : string) (x : spec_float),
    run_of is_digit w -> run_of is_digit f ->
    float_of_str (w ++ "." ++ f) = Ok x -> number x.

(** ** Further notions for the properties *)

(** [s[::-1]]: the characters of [s] from last to first. *)
Fixpoint reverse (s : string) : string :=
  match s with
  | EmptyString => EmptyString
  | String c r => reverse r ++ String c EmptyString
  end.

(** [c in s] for a character [c]. *)
Fixpoint mentions (c : ascii) (s : string) : bool :=
  match s with
  | EmptyString => false
  | String d r => Ascii.eqb d c || mentions c r
  end.

(** The file system [fs] with, in every directory, only the files [keep]
    accepts. *)
Definition only (keep : file -> bool) (fs : filesystem) : filesystem :=
  fun algn_dir =>
    match fs algn_dir with
    | Ok entries => Ok (filter keep entries)
    | Raise e => Raise e
    end.


(** * fastq_reads_to_fastq_alleles.py and get_final_sequences.py

    The functions of the two scripts around the assessment that work on
    strings, lists and dictionaries. *)

(** ** More built-in operations *)

(** [s.rsplit(c,1)[0]]: the part of [s] before its last [c], all of [s]
    when it holds none. *)
Fixpoint rsplit_head (c : ascii) (s : string) : string :=
  match s with
  | EmptyString => EmptyString
  | String d r =>
      if mentions c r then String d (rsplit_head c r)
      else if Ascii.eqb d c then EmptyString
      else s
  end.

(** A [set] of [str]: the list of its elements, none of them twice.
    [set_add] is [s.add(x)], [set_len] is [len(s)], and [set_eqb] is
    [s == t]: as many elements, each of [s] in [t]. *)
Definition set_in (x : string) (s : list string) : bool :=
  existsb (String.eqb x) s.

Definition set_add (s : list string) (x : string) : list string :=
  if set_in x s then s else (s ++ [x])%list.

Definition set_len (s : list string) : Z := Z.of_nat (List.length s).

Definition set_eqb (s t : list string) : bool :=
  (set_len s =? set_len t) && forallb (fun x => set_in x t) s.

(** [s is None] for a set [s]: a set is never the object [None]. *)
Definition is_None (s : list string) : bool := false.

(** ** get_final_sequences.py: [get_exon_parent(exon)] *)
Definition get_exon_parent (exon : string) : string :=
  if contains "-" exon || contains "exon_" exon
  then split_head "-" exon
  else rsplit_head "." exon.

(** ** fastq_reads_to_fastq_alleles.py: [verify_alignment(list1,list2)]

    The function returns one of three texts, or falls off its end and
    returns [None]. *)
Definition verify_alignment (list1 list2 : list string) : option string :=
  let set1 := fold_left set_add list1 [] in
  let set2 := fold_left set_add list2 [] in
  if (set_len set1 =? 1) && set_eqb set1 set2 then Some "single_map"
  else if (set_len set1 =? 1) && is_None set2 then Some "single_map"
  else if (set_len set2 =? 1) && is_None set1 then Some "single_map"
  else if (1 <? set_len set1) || (1 <? set_len set2) then Some "multi_map"
  else if negb (set_eqb set1 set2) then Some "discrepancy"
  else None.

(** ** fastq_reads_to_fastq_alleles.py: [filter_fastq] *)

(** [s.strip()] *)
Definition strip (s : string) : string := lstrip is_space (rstrip is_space s).

(** [s.replace(old,new)] for an [old] that is not empty: its occurrences
    are replaced from the left, none overlapping the one before; [skip]
    counts the characters of an occurrence that are still to pass. *)
Fixpoint replace_from (old new : string) (skip : nat) (s : string) : string :=
  match s with
  | EmptyString => EmptyString
  | String c r =>
      match skip with
      | S k => replace_from old new k r
      | O =>
          if String.prefix old s
          then new ++ replace_from old new (String.length old - 1) r
          else String c (replace_from old new 0 r)
      end
  end.

Definition replace (old new s : string) : string := replace_from old new 0 s.

(** [l[i] = x] *)
Definition set_item {A : Type} (l : list A) (i : nat) (x : A) : result (list A) :=
  if (i <? List.length l)%nat
  then Ok (firstn i l ++ x :: skipn (S i) l)%list
  else Raise IndexError.

(** A [dict] from [str] to lists of [str], its keys in the order they were
    inserted, none of them twice. *)
Definition dict : Type := list (string * list string).

Fixpoint dict_get (d : dict) (k : string) : option (list string) :=
  match d with
  | [] => None
  | (k', v) :: rest => if String.eqb k' k then Some v else dict_get rest k
  end.

(** [len(d)] *)
Definition dict_len (d : dict) : Z := Z.of_nat (List.length d).

(** The id the loop reads off the header of an entry: the first word
    without its first character, and without a final [.1]. *)
Definition read_id (header : string) : string :=
  let elements0 := split_head " " (strip header) in
  let id := drop 1 elements0 in
  if endswith id ".1" then slice_to id (-2) else id.

(** The four assignments that take the mate suffixes off the header and
    off the line of the plus sign of both entries. *)
Definition trim_suffixes (entry1 entry2 : list string)
  : result (list string * list string) :=
  h1 <- item entry1 0 ;;
  entry1 <- set_item entry1 0 (replace ".1 " " " h1) ;;
  p1 <- item entry1 2 ;;
  entry1 <- set_item entry1 2 (replace ".1 " " " p1) ;;
  h2 <- item entry2 0 ;;
  entry2 <- set_item entry2 0 (replace ".2 " " " h2) ;;
  p2 <- item entry2 2 ;;
  entry2 <- set_item entry2 2 (replace ".2 " " " p2) ;;
  Ok (entry1, entry2).

(** [for ref in ids[id]]: the lines of both entries appended to the file of
    each locus. [dirs] tells which directories exist: opening a file for
    appending in one that does not raises FileNotFoundError. The result is
    the appends made, each the path and the text, and how the loop ended. *)
Fixpoint write_entries (dirs : string -> bool) (outdir : string)
  (entry1 entry2 : list string) (refs : list string)
  : list (string * string) * result unit :=
  match refs with
  | [] => ([], Ok tt)
  | ref :: rest =>
      let dir := path_join outdir ref in
      let out := dir ++ "/reads.fastq.gz" in
      if dirs dir then
        let '(ws, r) := write_entries dirs outdir entry1 entry2 rest in
        ((out, joined entry1 ++ joined entry2) :: ws, r)
      else ([], Raise FileNotFoundError)
  end.

(** The body of [if lineno == 4]: the appends made for the entry, and
    whether its id is one of [ids]. *)
Definition check_entry (dirs : string -> bool) (ids : dict) (outdir : string)
  (entry1 entry2 : list string) : list (string * string) * result bool :=
  match item entry1 0 with
  | Raise e => ([], Raise e)
  | Ok header =>
      match dict_get ids (read_id header) with
      | None => ([], Ok false)
      | Some refs =>
          match (if endswith (split_head " " header) ".1"
                 then trim_suffixes entry1 entry2
                 else Ok (entry1, entry2)) with
          | Raise e => ([], Raise e)
          | Ok (entry1, entry2) =>
              let '(ws, r) := write_entries dirs outdir entry1 entry2 refs in
              (ws, _ <- r ;; Ok true)
          end
      end
  end.

(** The variables of the loop of [filter_fastq]. *)
Record reader : Type := mkReader {
  entry1 : list string;
  entry2 : list string;
  lineno : Z;
  seen : Z
}.

(** The loop over [zip(f1,f2)]. *)
Fixpoint filter_lines (dirs : string -> bool) (ids : dict) (outdir : string)
  (total : Z) (lines : list (string * string)) (st : reader)
  : list (string * string) * result unit :=
  match lines with
  | [] => ([], Ok tt)
  | (line1, line2) :: rest =>
      let entry1 := (entry1 st ++ [line1])%list in
      let entry2 := (entry2 st ++ [line2])%list in
      let lineno := lineno st + 1 in
      let '(ws, r) :=
        if lineno =? 4 then
          let '(ws, r) := check_entry dirs ids outdir entry1 entry2 in
          (ws, found <- r ;;
               Ok (mkReader [] [] 0 (if found : bool then seen st + 1 else seen st)))
        else ([], Ok (mkReader entry1 entry2 lineno (seen st))) in
      match r with
      | Raise e => (ws, Raise e)
      | Ok st' =>
          if seen st' =? total then (ws, Ok tt)
          else
            let '(ws', r') := filter_lines dirs ids outdir total rest st' in
            ((ws ++ ws')%list, r')
      end
  end.

(** [filter_fastq(ids,file1,file2,outdir)], given the texts the two
    compressed files hold. *)
Definition filter_fastq (dirs : string -> bool) (ids : dict)
  (file1 file2 outdir : string) : list (string * string) * result unit :=
  filter_lines dirs ids outdir (dict_len ids)
               (combine (file_lines file1) (file_lines file2))
               (mkReader [] [] 0 0).

(** *** The entries of a FASTQ file *)

(** The lines four by four; a rest of fewer than four lines is left out. *)
Fixpoint quads {A : Type} (l : list A) : list (list A) :=
  match l with
  | a :: b :: c :: d :: rest => [a; b; c; d] :: quads rest
  | _ => []
  end.

(** The loop of [filter_fastq] seen one entry at a time, an entry being
    four lines of the first file beside the four lines of the second. *)
Fixpoint filter_entries (dirs : string -> bool) (ids : dict) (outdir : string)
  (total : Z) (entries : list (list (string * string))) (seen : Z)
  : list (string * string) * result unit :=
  match entries with
  | [] => ([], Ok tt)
  | q :: rest =>
      if seen =? total then ([], Ok tt)
      else
        let '(ws, r) := check_entry dirs ids outdir (map fst q) (map snd q) in
        match r with
        | Raise e => (ws, Raise e)
        | Ok found =>
            let seen := if found : bool then seen + 1 else seen in
            if seen =? total then (ws, Ok tt)
            else
              let '(ws', r') := filter_entries dirs ids outdir total rest seen in
              ((ws ++ ws')%list, r')
        end
  end.

(** The appends of all the entries, none left out. *)
Definition all_appends (dirs : string -> bool) (ids : dict) (outdir : string)
  (entries : list (list (string * string))) : list (string * string) :=
  flat_map (fun q => fst (check_entry dirs ids outdir (map fst q) (map snd q)))
           entries.

(** The id of an entry, read off the header of the first mate. *)
Definition entry_id (q : list (string * string)) : string :=
  read_id (hd "" (map fst q)).

(** ** fastq_reads_to_fastq_alleles.py: [main], from the read map to the ids

    The part of [main] that reads the map of the reads and builds
    [ids_to_keep], the dictionary [filter_fastq] is then called with, the
    set [unique_refs] and the counts written to the statistics file. The
    making of the directories and the checks that follow it are left
    out. *)

(** The two scripts raise KeyError and OverflowError besides the
    exceptions above. *)
Inductive error : Type :=
| Builtin (e : exn)
| KeyError
| OverflowError.

Inductive outcome (A : Type) : Type :=
| Done (a : A)
| Fail (e : error).

Arguments Done {A} a.
Arguments Fail {A} e.

Definition and_then {A B : Type} (r : outcome A) (k : A -> outcome B) : outcome B :=
  match r with
  | Done a => k a
  | Fail e => Fail e
  end.

Notation "x <~ r ;; k" := (and_then r (fun x => k))
  (at level 61, r at next level, right associativity).

Definition lift {A : Type} (r : result A) : outcome A :=
  match r with
  | Ok a => Done a
  | Raise e => Fail (Builtin e)
  end.

(** [s.split(c)] for a character [c]. *)
Fixpoint split (c : ascii) (s : string) : list string :=
  match s with
  | EmptyString => [EmptyString]
  | String d r =>
      if Ascii.eqb d c then EmptyString :: split c r
      else
        match split c r with
        | [] => [String d EmptyString]
        | p :: ps => String d p :: ps
        end
  end.

(** A [defaultdict(list)]: reading [d[k]] inserts the key [k] with an empty
    list when [d] does not hold it. [dd_touch] is that insertion, [dd_get]
    the list read, and [dd_append d k x] is [d[k].append(x)]. *)
Fixpoint dd_touch (d : dict) (k : string) : dict :=
  match d with
  | [] => [(k, [])]
  | (k', v) :: rest =>
      if String.eqb k' k then d else (k', v) :: dd_touch rest k
  end.

Definition dd_get (d : dict) (k : string) : list string :=
  match dict_get d k with
  | Some v => v
  | None => []
  end.

Fixpoint dd_append (d : dict) (k x : string) : dict :=
  match d with
  | [] => [(k, [x])]
  | (k', v) :: rest =>
      if String.eqb k' k then (k', (v ++ [x])%list) :: rest
      else (k', v) :: dd_append rest k x
  end.

(** The locus of one alignment of the map: the second part, dots apart, of
    the third part, bars apart. *)
Definition ref_loc (field : string) : result string :=
  alignment2 <- item (split "|" field) 2 ;;
  item (split "." alignment2) 1.

(** [for j in range(1,len(ele))] in the branch for suffixes: the loci of
    the alignments added to [d[k]], each once. *)
Fixpoint add_loci (d : dict) (k : string) (fields : list string) : result dict :=
  match fields with
  | [] => Ok d
  | field :: rest =>
      x <- ref_loc field ;;
      let d := dd_touch d k in
      add_loci (if set_in x (dd_get d k) then d else dd_append d k x) k rest
  end.

(** One line of the map in the branch for suffixes: the loci go to [r1]
    when the name of the read ends with [1], to [r2] otherwise. *)
Definition read_mate (r : dict * dict) (line : string) : result (dict * dict) :=
  let line := rstrip is_space line in
  let ele := split tab line in
  ele0 <- item ele 0 ;;
  c <- last_char ele0 ;;
  if Ascii.eqb c "1"
  then r1 <- add_loci (fst r) ele0 (tl ele) ;; Ok (r1, snd r)
  else r2 <- add_loci (snd r) ele0 (tl ele) ;; Ok (fst r, r2).

Fixpoint read_mates (r : dict * dict) (lines : list string) : result (dict * dict) :=
  match lines with
  | [] => Ok r
  | line :: rest => r' <- read_mate r line ;; read_mates r' rest
  end.

(** The dictionary [counts]. *)
Record tally : Type := mkTally {
  single_map : Z;
  multi_map : Z;
  discrepancy : Z
}.

(** [counts[count_val] += 1]: KeyError when [count_val] is no key of
    [counts], as [None] is. *)
Definition count (counts : tally) (count_val : option string) : outcome tally :=
  match count_val with
  | None => Fail KeyError
  | Some k =>
      if String.eqb k "single_map"
      then Done (mkTally (single_map counts + 1) (multi_map counts) (discrepancy counts))
      else if String.eqb k "multi_map"
      then Done (mkTally (single_map counts) (multi_map counts + 1) (discrepancy counts))
      else if String.eqb k "discrepancy"
      then Done (mkTally (single_map counts) (multi_map counts) (discrepancy counts + 1))
      else Fail KeyError
  end.

(** [count_val == "single_map"] *)
Definition is_single_map (count_val : option string) : bool :=
  match count_val with
  | Some k => String.eqb k "single_map"
  | None => false
  end.

(** What the two loops over the mates work on. *)
Record pairing : Type := mkPairing {
  r1 : dict;
  r2 : dict;
  ids_to_keep : dict;
  unique_refs : list string;
  checked_ids : list string;
  counts : tally
}.

(** [ids_to_keep[shared_id].append(x)] followed by
    [unique_refs.add(ids_to_keep[shared_id][0])] *)
Definition keep_first (ids : dict) (refs : list string) (shared_id x : string)
  : outcome (dict * list string) :=
  let ids := dd_append ids shared_id x in
  y <~ lift (item (dd_get ids shared_id) 0) ;;
  Done (ids, set_add refs y).

(** [for ref in l: ids_to_keep[shared_id].append(ref); unique_refs.add(ref)] *)
Definition keep_all (ids : dict) (refs : list string) (shared_id : string)
  (l : list string) : dict * list string :=
  fold_left (fun (acc : dict * list string) (ref : string) =>
               (dd_append (fst acc) shared_id ref, set_add (snd acc) ref))
            l (ids, refs).

(** The same loop with the test [if ref not in ids_to_keep[shared_id]]. *)
Definition keep_new (ids : dict) (refs : list string) (shared_id : string)
  (l : list string) : dict * list string :=
  fold_left (fun (acc : dict * list string) (ref : string) =>
               let ids := dd_touch (fst acc) shared_id in
               if set_in ref (dd_get ids shared_id) then (ids, snd acc)
               else (dd_append ids shared_id ref, set_add (snd acc) ref))
            l (ids, refs).

(** One turn of [for read in r1]. *)
Definition pair_mate1 (filter : string) (p : pairing) (read : string)
  : outcome pairing :=
  let shared_id := slice_to read (-2) in
  let mate_id := shared_id ++ ".2" in
  let r1 := dd_touch (r1 p) read in
  let list1 := dd_get r1 read in
  let r2 := dd_touch (r2 p) mate_id in
  let list2 := dd_get r2 mate_id in
  let count_val := verify_alignment list1 list2 in
  counts <~ count (counts p) count_val ;;
  kept <~ (if String.eqb filter "yes" && is_single_map count_val then
             match list1, list2 with
             | [], _ =>
                 x <~ lift (item list2 0) ;;
                 keep_first (ids_to_keep p) (unique_refs p) shared_id x
             | _, _ =>
                 x <~ lift (item list1 0) ;;
                 keep_first (ids_to_keep p) (unique_refs p) shared_id x
             end
           else
             let '(ids, refs) :=
               keep_all (ids_to_keep p) (unique_refs p) shared_id list1 in
             Done (keep_new ids refs shared_id list2)) ;;
  Done (mkPairing r1 r2 (fst kept) (snd kept)
                  (set_add (checked_ids p) shared_id) counts).

(** One turn of [for read in r2]. *)
Definition pair_mate2 (filter : string) (p : pairing) (read : string)
  : outcome pairing :=
  let shared_id := slice_to read (-2) in
  if set_in shared_id (checked_ids p) then Done p
  else
    let mate_id := shared_id ++ ".1" in
    let r1 := dd_touch (r1 p) mate_id in
    let list1 := dd_get r1 mate_id in
    let r2 := dd_touch (r2 p) read in
    let list2 := dd_get r2 read in
    let count_val := verify_alignment list1 list2 in
    counts <~ count (counts p) count_val ;;
    kept <~ (if String.eqb filter "yes" && is_single_map count_val then
               x <~ lift (item list2 0) ;;
               keep_first (ids_to_keep p) (unique_refs p) shared_id x
             else Done (keep_all (ids_to_keep p) (unique_refs p) shared_id list2)) ;;
    Done (mkPairing r1 r2 (fst kept) (snd kept) (checked_ids p) counts).

(** A loop over the keys a dictionary has when the loop starts. *)
Fixpoint for_each (step : pairing -> string -> outcome pairing) (p : pairing)
  (keys : list string) : outcome pairing :=
  match keys with
  | [] => Done p
  | k :: rest => p' <~ step p k ;; for_each step p' rest
  end.

(** The two loops, over the mates of [r1] and then over those of [r2]. *)
Definition pair_mates (filter : string) (r : dict * dict) : outcome pairing :=
  let p := mkPairing (fst r) (snd r) [] [] []  (mkTally 0 0 0) in
  p <~ for_each (pair_mate1 filter) p (map fst (r1 p)) ;;
  for_each (pair_mate2 filter) p (map fst (r2 p)).

(** The lines written to the statistics file, one for each count. *)
Definition stats_lines (counts : tally) : string :=
  str_of_int (single_map counts) ++ " read-pairs have a single_map." ++ String newline
  (str_of_int (multi_map counts) ++ " read-pairs have a multi_map." ++ String newline
  (str_of_int (discrepancy counts) ++ " read-pairs have a discrepancy." ++ String newline "")).

(** One line of the map in the branch without suffixes. *)
Fixpoint add_refs (ids : dict) (refs : list string) (k : string)
  (fields : list string) : result (dict * list string) :=
  match fields with
  | [] => Ok (ids, refs)
  | field :: rest =>
      x <- ref_loc field ;;
      let ids := dd_touch ids k in
      if set_in x (dd_get ids k) then add_refs ids refs k rest
      else add_refs (dd_append ids k x) (set_add refs x) k rest
  end.

Definition read_locus (st : dict * list string) (line : string)
  : result (dict * list string) :=
  let line := rstrip is_space line in
  let ele := split tab line in
  ele0 <- item ele 0 ;;
  add_refs (fst st) (snd st) ele0 (tl ele).

Fixpoint read_loci (st : dict * list string) (lines : list string)
  : result (dict * list string) :=
  match lines with
  | [] => Ok st
  | line :: rest => st' <- read_locus st line ;; read_loci st' rest
  end.

(** [main] up to the making of the directories, given the text of the map:
    [ids_to_keep], [unique_refs], and the text of the statistics file when
    one is written. *)
Definition main_ids (ab_read_map filter paired_suffixes : string)
  : outcome (dict * list string * option string) :=
  if String.eqb paired_suffixes "yes" then
    r <~ lift (read_mates ([], []) (file_lines ab_read_map)) ;;
    p <~ pair_mates filter r ;;
    Done (ids_to_keep p, unique_refs p, Some (stats_lines (counts p)))
  else if String.eqb paired_suffixes "no" then
    st <~ lift (read_loci ([], []) (file_lines ab_read_map)) ;;
    Done (fst st, snd st, None)
  else Done ([], [], None).

(** The id two mates share: the name of a read without its last two
    characters. *)
Definition pair_id (read : string) : string := slice_to read (-2).

(** *** Dictionaries of loci *)

(** No key twice, and under every key at least one locus and none twice. *)
Definition neat (d : dict) : Prop :=
  NoDup (map fst d) /\
  (forall k v, dict_get d k = Some v -> v <> [] /\ NoDup v).

(** A neat dictionary and the set of its loci. *)
Definition tidy (ids : dict) (refs : list string) : Prop :=
  neat ids /\ NoDup refs /\
  (forall x, In x refs <-> exists k v, dict_get ids k = Some v /\ In x v).

(** *** The two loops over the mates *)

(** The dictionary of the second mates during the first loop: a read
    without locus is the mate of a read that was looked at. *)
Definition mates_checked (p : pairing) : Prop :=
  forall k v, dict_get (r2 p) k = Some v -> v = [] ->
              In (pair_id k) (checked_ids p).

(** What holds in the first loop when the reads [rest] are still to be
    looked at. *)
Definition first_loop (d1 : dict) (rest : list string) (p : pairing) : Prop :=
  r1 p = d1 /\
  (forall k, In k rest -> In k (map fst d1)) /\
  (forall k, In k (map fst d1) -> In k rest \/ In (pair_id k) (checked_ids p)) /\
  mates_checked p.

(** What holds in the second loop. *)
Definition second_loop (p1 : pairing) (rest : list string) (p : pairing) : Prop :=
  r2 p = r2 p1 /\ checked_ids p = checked_ids p1 /\
  (forall k, In k rest -> In k (map fst (r2 p1))) /\
  (forall k v, dict_get (r1 p) k = Some v -> v <> [] ->
               In (pair_id k) (checked_ids p1)).

(** *** Example maps of reads

    A map without suffixes, of two reads, and a map with suffixes, of the
    mates of three reads: both mates of [readA] on one locus, the mates of
    [readB] on two loci, and one mate of [readC] alone. A line holds the
    name of the read and, after tabs, its alignments: a flag, a quality
    and the reference, bars apart. *)

Definition map_line (fields : list string) : string :=
  String.concat (String tab "") fields ++ String newline "".

Definition example_read_map : string :=
  map_line ["readA"; "0|60|ref.locus1.a"; "16|60|ref.locus2.a"; "0|60|alt.locus1.b"]
  ++ map_line ["readB"; "0|60|ref.locus2.a"].

Definition example_mate_map : string :=
  map_line ["readA.1"; "0|60|ref.locus1.a"]
  ++ map_line ["readA.2"; "16|60|alt.locus1.b"]
  ++ map_line ["readB.1"; "0|60|ref.locus1.a"]
  ++ map_line ["readB.2"; "16|60|ref.locus2.a"]
  ++ map_line ["readC.2"; "0|60|ref.locus3.a"].

(** ** get_final_sequences.py: [main], the loop over the table

    The loop of [main] over the lines of the table that
    [threaded_assess_alignment.py] wrote, which keeps for every entity the
    line of the greatest identity. [seq_dict] is the dictionary of the
    reference sequences, from the id of a sequence to its letters. The
    reading and the writing of the FASTA files, which is Biopython's, is
    left out. *)

(** [os.path.basename(p)]: what follows the last slash of [p]. *)
Fixpoint basename (p : string) : string :=
  match p with
  | EmptyString => EmptyString
  | String c r =>
      if mentions "/" r then basename r
      else if Ascii.eqb c "/" then r
      else p
  end.

(** [s.split(sep)] for a separator of any length: ValueError when [sep] is
    empty; the occurrences of [sep] are found from the left, none
    overlapping the one before, [skip] counting the characters of an
    occurrence that are still to pass. *)
Fixpoint split_on (sep : string) (skip : nat) (s : string) : list string :=
  match s with
  | EmptyString => [EmptyString]
  | String c r =>
      match skip with
      | S k => split_on sep k r
      | O =>
          if String.prefix sep s
          then EmptyString :: split_on sep (String.length sep - 1) r
          else
            match split_on sep 0 r with
            | [] => [String c EmptyString]
            | p :: ps => String c p :: ps
            end
      end
  end.

Definition split_str (sep s : string) : result (list string) :=
  if String.eqb sep "" then Raise ValueError else Ok (split_on sep 0 s).

(** [int(s)] on a [str], taken from the Python runtime as [float(s)] is:
    it raises ValueError on a text that is no integer. *)
Class IntReader : Type := mkIntReader {
  int_of_str : string -> result Z
}.

(** [int(x)] on a float: the integer towards zero; ValueError on a NaN and
    OverflowError on an infinity. *)
Definition int_of_float (x : spec_float) : outcome Z :=
  match x with
  | S754_nan => Fail (Builtin ValueError)
  | S754_infinity _ => Fail OverflowError
  | S754_zero _ => Done 0
  | S754_finite s m e =>
      let n := if 0 <=? e then Zpos m * 2 ^ e else Zpos m / 2 ^ (- e) in
      Done (if s then - n else n)
  end.

(** The list [best_id[entity]]: the identity, the path of the alignment,
    the length, the coverage, the id of the reference and the length of
    reference that aligned. *)
Record best : Type := mkBest {
  b_id : spec_float;
  b_file_path : string;
  b_length : Z;
  b_cov : spec_float;
  b_ref_seq : string;
  b_ref_len : Z
}.

Fixpoint best_get (d : list (string * best)) (entity : string) : option best :=
  match d with
  | [] => None
  | (k, v) :: rest => if String.eqb k entity then Some v else best_get rest entity
  end.

(** [best_id[entity][0] = id] and the five assignments after it. *)
Fixpoint best_set (d : list (string * best)) (entity : string) (v : best)
  : list (string * best) :=
  match d with
  | [] => []
  | (k, v') :: rest =>
      if String.eqb k entity then (k, v) :: rest
      else (k, v') :: best_set rest entity v
  end.

Section FinalSequences.
Context {rt : Runtime} {ir : IntReader}.

(** The arguments of the script the loop reads, and the dictionary of the
    reference sequences. *)
Variable groupby : string.
Variable align_path : string.
Variable threshold : Z.
Variable min_len : spec_float.
Variable seq_dict : string -> option string.

(** One turn of the loop over the lines of the table. The state is the
    local variable [ref_seq], unbound until it is assigned, and
    [best_id]. *)
Definition table_line (st : option string * list (string * best)) (line : string)
  : outcome (option string * list (string * best)) :=
  let '(ref_seq, best_id) := st in
  let line := rstrip is_space line in
  let elements := split tab line in
  e5 <~ lift (item elements 5) ;;
  names <~ (if negb (String.eqb groupby "l")
            then Done (hd "" (split_on ".WITH" 0 (basename e5)), ref_seq)
            else
              entity <~ lift (item (split "." (basename e5)) 1) ;;
              Done (entity, Some (hd "" (split_on ".WITH" 0 (basename e5))))) ;;
  let '(entity, ref_seq) := names in
  let base_dir := align_path in
  let split_point := basename base_dir in
  parts <~ lift (split_str split_point e5) ;;
  tmp_path <~ lift (item parts 1) ;;
  let file_path := path_join base_dir tmp_path in
  ref_name <~ lift (read_local ref_seq) ;;
  unbuffered_ref_seq <~ match seq_dict ref_name with
                        | Some s => Done s
                        | None => Fail KeyError
                        end ;;
  id <~ (if (List.length elements =? 6)%nat
         then e0 <~ lift (item elements 0) ;; lift (float_of_str e0)
         else e6 <~ lift (item elements 6) ;; lift (float_of_str e6)) ;;
  e2 <~ lift (item elements 2) ;;
  length <~ lift (int_of_str e2) ;;
  e1 <~ lift (item elements 1) ;;
  cov <~ lift (float_of_str e1) ;;
  e4 <~ lift (item elements 4) ;;
  ref_len <~ lift (int_of_str e4) ;;
  floor <~ int_of_float (SFmul prec emax (float_of_int (len unbuffered_ref_seq)) min_len) ;;
  if ref_len <? floor then Done (ref_seq, best_id)
  else
    whole <~ int_of_float id ;;
    if whole <? threshold then Done (ref_seq, best_id)
    else
      let v := mkBest id file_path length cov ref_name ref_len in
      match best_get best_id entity with
      | Some old =>
          if float_gtb id (b_id old)
          then Done (ref_seq, best_set best_id entity v)
          else Done (ref_seq, best_id)
      | None => Done (ref_seq, (best_id ++ [(entity, v)])%list)
      end.

Fixpoint table_lines (st : option string * list (string * best))
  (lines : list string) : outcome (option string * list (string * best)) :=
  match lines with
  | [] => Done st
  | line :: rest => st' <~ table_line st line ;; table_lines st' rest
  end.

(** *** The offer of one line

    What a turn of the loop computes from its line before it looks at
    [best_id]: [ref_seq] as the turn leaves it, and the entity and the
    values the line offers when it passes both cutoffs. *)
Definition offer (ref_seq : option string) (line : string)
  : outcome (option string * option (string * best)) :=
  let line := rstrip is_space line in
  let elements := split tab line in
  e5 <~ lift (item elements 5) ;;
  names <~ (if negb (String.eqb groupby "l")
            then Done (hd "" (split_on ".WITH" 0 (basename e5)), ref_seq)
            else
              entity <~ lift (item (split "." (basename e5)) 1) ;;
              Done (entity, Some (hd "" (split_on ".WITH" 0 (basename e5))))) ;;
  let '(entity, ref_seq) := names in
  parts <~ lift (split_str (basename align_path) e5) ;;
  tmp_path <~ lift (item parts 1) ;;
  ref_name <~ lift (read_local ref_seq) ;;
  unbuffered_ref_seq <~ match seq_dict ref_name with
                        | Some s => Done s
                        | None => Fail KeyError
                        end ;;
  id <~ (if (List.length elements =? 6)%nat
         then e0 <~ lift (item elements 0) ;; lift (float_of_str e0)
         else e6 <~ lift (item elements 6) ;; lift (float_of_str e6)) ;;
  e2 <~ lift (item elements 2) ;;
  length <~ lift (int_of_str e2) ;;
  e1 <~ lift (item elements 1) ;;
  cov <~ lift (float_of_str e1) ;;
  e4 <~ lift (item elements 4) ;;
  ref_len <~ lift (int_of_str e4) ;;
  floor <~ int_of_float (SFmul prec emax (float_of_int (len unbuffered_ref_seq)) min_len) ;;
  if ref_len <? floor then Done (ref_seq, None)
  else
    whole <~ int_of_float id ;;
    if whole <? threshold then Done (ref_seq, None)
    else Done (ref_seq,
               Some (entity, mkBest id (path_join align_path tmp_path) length cov
                                    ref_name ref_len)).

(** The offers of the lines, in order. *)
Fixpoint offers (ref_seq : option string) (lines : list string)
  : outcome (list (string * best)) :=
  match lines with
  | [] => Done []
  | line :: rest =>
      o <~ offer ref_seq line ;;
      os <~ offers (fst o) rest ;;
      Done (match snd o with
            | Some ev => ev :: os
            | None => os
            end)
  end.

(** [best_id] after the loop, given the text of the table. *)
Definition best_ids (ivc : string) : outcome (list (string * best)) :=
  st <~ table_lines (None, []) (file_lines ivc) ;;
  Done (snd st).

(** The values of a line that passed both cutoffs: the reference is in the
    dictionary, the length of reference is no less than the integer part
    of the length of that reference times [min_len], and the integer part
    of the identity is no less than the threshold. *)
Definition passes (v : best) : Prop :=
  exists (s : string) (floor whole : Z),
    seq_dict (b_ref_seq v) = Some s /\
    int_of_float (SFmul prec emax (float_of_int (len s)) min_len) = Done floor /\
    floor <= b_ref_len v /\
    int_of_float (b_id v) = Done whole /\
    threshold <= whole.

End FinalSequences.

(** What the loop does to [best_id] with an offer: a first offer of an
    entity is entered, a later one replaces the entry when its identity is
    greater. *)
Definition best_update (d : list (string * best)) (ev : string * best)
  : list (string * best) :=
  match best_get d (fst ev) with
  | Some old =>
      if float_gtb (b_id (snd ev)) (b_id old) then best_set d (fst ev) (snd ev)
      else d
  | None => (d ++ [ev])%list
  end.

(** The entry of [entity] is the first of its offers whose identity none
    of them exceeds. *)
Definition first_greatest (os : list (string * best)) (entity : string) (v : best)
  : Prop :=
  exists before after,
    os = (before ++ (entity, v) :: after)%list /\
    (forall v', In (entity, v') before -> float_gtb (b_id v) (b_id v') = true) /\
    (forall v', In (entity, v') after -> float_gtb (b_id v') (b_id v) = false).

(** A table that holds, for the offers [os], the first greatest offer of
    every entity that has one. *)
Definition greatest_of (os d : list (string * best)) : Prop :=
  NoDup (map fst d) /\
  (forall entity v, best_get d entity = Some v -> first_greatest os entity v) /\
  (forall entity v, In (entity, v) os -> best_get d entity <> None).

(** [int(s)] on plain digits, for the examples. *)
Definition digits_int : IntReader :=
  mkIntReader (fun s =>
    if String.eqb s "" then Raise ValueError
    else match digits_value s 0 with
         | Some n => Ok n
         | None => Raise ValueError
         end).

(** A table of six columns for the examples, four alignments of one
    locus, with the dictionary of its reference and the default [0.5] of
    [--min_align_len]. *)
Definition example_row (fields : list string) : string :=
  String.concat (String tab "") fields ++ String newline "".

Definition example_table : string :=
  example_row ["75.0"; "1.0"; "6"; "a"; "6"; "work/aligns/L1/3D7.L1.WITH.a.trimmed_align.txt"] ++
  example_row ["100.0"; "1.0"; "8"; "b"; "8"; "work/aligns/L1/3D7.L1.WITH.b.trimmed_align.txt"] ++
  example_row ["100.0"; "1.0"; "7"; "c"; "7"; "work/aligns/L1/3D7.L1.WITH.c.trimmed_align.txt"] ++
  example_row ["100.0"; "1.0"; "3"; "d"; "3"; "work/aligns/L1/3D7.L1.WITH.d.trimmed_align.txt"].

Definition example_seq_dict (k : string) : option string :=
  if String.eqb k "3D7.L1" then Some "ACGTACGT" else None.

Definition example_min_len : spec_float := S754_finite false 4503599627370496 (-53).

(** * Properties *)

(** ** Strings *)

Lemma length_drop (n : nat) (s : string) :
  String.length (drop n s) = (String.length s - n)%nat.
Proof.
  revert s; induction n as [|n IH]; intros [|c r]; simpl; auto with arith.
Qed.

Lemma length_take (n : nat) (s : string) :
  String.length (take n s) = Nat.min n (String.length s).
Proof.
  revert s; induction n as [|n IH]; intros [|c r]; simpl; auto.
Qed.

Lemma take_all (s : string) : take (String.length s) s = s.
Proof. induction s as [|c r IH]; simpl; congruence. Qed.

Lemma drop_past (n : nat) (s : string) :
  drop (Nat.min n (String.length s)) s = drop n s.
Proof.
  revert s; induction n as [|n IH]; intros [|c r]; simpl; auto.
Qed.

Lemma lstrip_run (p : ascii -> bool) (s : string) :
  (String.length (lstrip p s) + leading_run p s = String.length s)%nat.
Proof.
  induction s as [|c r IH]; simpl; auto.
  destruct (p c); simpl; lia.
Qed.

Lemma rstrip_run (p : ascii -> bool) (s : string) :
  (String.length (rstrip p s) + trailing_run p s = String.length s)%nat.
Proof.
  induction s as [|c r IH]; simpl; auto.
  destruct (rstrip p r) as [|d r'] eqn:E; simpl in *.
  - assert (H : trailing_run p r = String.length r) by lia.
    rewrite H, Nat.eqb_refl. destruct (p c); simpl; lia.
  - destruct (Nat.eqb_spec (trailing_run p r) (String.length r)) as [H|H].
    + lia.
    + rewrite andb_false_r. lia.
Qed.

Lemma trailing_run_le (p : ascii -> bool) (s : string) :
  (trailing_run p s <= String.length s)%nat.
Proof. pose proof (rstrip_run p s). lia. Qed.

Lemma trailing_run_pos (p : ascii -> bool) (s : string) :
  ends_with p s = true -> (1 <= trailing_run p s)%nat.
Proof.
  induction s as [|c r IH]; simpl; [discriminate|].
  destruct r as [|d r'].
  - intros ->. simpl. lia.
  - intros H. specialize (IH H).
    destruct (p c && _); [simpl; lia | exact IH].
Qed.

Lemma leading_run_pos (p : ascii -> bool) (s : string) :
  starts_with p s = true -> (1 <= leading_run p s)%nat.
Proof. destruct s as [|c r]; simpl; [discriminate|]. intros ->. lia. Qed.

Lemma remove_gaps_length (s : string) :
  String.length (remove_char gap s) = count_bases s.
Proof.
  induction s as [|c r IH]; simpl; auto.
  unfold is_gap. destruct (Ascii.eqb c gap); simpl; auto.
Qed.

Lemma count_bases_le (s : string) : (count_bases s <= String.length s)%nat.
Proof. induction s as [|c r IH]; simpl; auto. destruct (is_gap c); lia. Qed.

Lemma count_bases_drop (n : nat) (s : string) :
  (count_bases (drop n s) <= count_bases s)%nat.
Proof.
  revert s; induction n as [|n IH]; intros [|c r]; simpl; auto.
  specialize (IH r). destruct (is_gap c); lia.
Qed.

Lemma count_bases_take (n : nat) (s : string) :
  (count_bases (take n s) <= count_bases s)%nat.
Proof.
  revert s; induction n as [|n IH]; intros [|c r]; simpl; auto with arith.
  specialize (IH r). destruct (is_gap c); lia.
Qed.

Lemma first_char_starts (p : ascii -> bool) (s : string) :
  s <> "" -> exists c, first_char s = Ok c /\ starts_with p s = p c.
Proof. destruct s as [|c r]; [congruence|]. intros _. exists c. auto. Qed.

Lemma last_char_ends (p : ascii -> bool) (s : string) :
  s <> "" -> exists c, last_char s = Ok c /\ ends_with p s = p c.
Proof.
  induction s as [|c r IH]; [congruence|]. intros _.
  destruct r as [|d r'].
  - exists c. auto.
  - destruct IH as [x [H1 H2]]; [discriminate|]. exists x. auto.
Qed.

Lemma nonempty_length (s : string) : s <> "" <-> (0 < String.length s)%nat.
Proof. destruct s; simpl; split; intros; try congruence; try lia. Qed.

(** ** [find_ref_len] *)

(** What [find_ref_len] returns on two sequences that are not empty. *)
Lemma find_ref_len_nonempty (a b : string) :
  a <> "" -> b <> "" ->
  find_ref_len a b = Ok (Z.of_nat (reference_covered a b)).
Proof.
  intros Ha Hb.
  destruct (first_char_starts is_base a Ha) as [a0 [Ea0 Sa]].
  destruct (first_char_starts is_gap b Hb) as [b0 [Eb0 Sb]].
  destruct (last_char_ends is_base a Ha) as [an [Ean Ta]].
  destruct (last_char_ends is_gap b Hb) as [bn [Ebn Tb]].
  unfold find_ref_len, reference_covered.
  rewrite Ea0, Ean, Sa, Sb, Ta, Tb. cbn [bind].
  unfold is_base.
  assert (L : slice_from a (len b - len (lstrip is_gap b)) = drop (leading_run is_gap b) a).
  { unfold slice_from, slice_index, len.
    pose proof (lstrip_run is_gap b) as R.
    destruct (Z.ltb_spec (Z.of_nat (String.length b) - Z.of_nat (String.length (lstrip is_gap b))) 0); [lia|].
    rewrite <- Nat2Z.inj_sub by lia. rewrite <- Nat2Z.inj_min, Nat2Z.id.
    replace (String.length b - String.length (lstrip is_gap b))%nat
      with (leading_run is_gap b) by lia.
    apply drop_past. }
  assert (R : forall s, ends_with is_gap b = true ->
            slice_to s ((len b - len (rstrip is_gap b)) * -1) =
            take (String.length s - trailing_run is_gap b) s).
  { intros s E. unfold slice_to, slice_index, len.
    pose proof (rstrip_run is_gap b) as R.
    pose proof (trailing_run_pos is_gap b E) as P.
    destruct (Z.ltb_spec ((Z.of_nat (String.length b) - Z.of_nat (String.length (rstrip is_gap b))) * -1) 0); [|lia].
    f_equal. lia. }
  destruct (negb (is_gap a0)) eqn:C1; cbn [bind].
  - rewrite Eb0. cbn [bind andb].
    destruct (negb (is_gap an)) eqn:C2; cbn [bind].
    + rewrite Ebn. cbn [bind andb].
      destruct (is_gap b0) eqn:G0; destruct (is_gap bn) eqn:Gn;
        rewrite ?L, ?R by exact Tb;
        unfold len; rewrite remove_gaps_length; simpl drop;
        rewrite ?Nat.sub_0_r, ?take_all; reflexivity.
    + cbn [andb]. destruct (is_gap b0) eqn:G0; rewrite ?L;
        unfold len; rewrite remove_gaps_length; simpl drop;
        rewrite ?Nat.sub_0_r, ?take_all; reflexivity.
  - cbn [andb]. simpl drop.
    destruct (negb (is_gap an)) eqn:C2; cbn [bind].
    + rewrite Ebn. cbn [bind andb].
      destruct (is_gap bn) eqn:Gn; rewrite ?R by exact Tb;
        unfold len; rewrite remove_gaps_length;
        rewrite ?Nat.sub_0_r, ?take_all; reflexivity.
    + cbn [andb]. unfold len. rewrite remove_gaps_length, Nat.sub_0_r, take_all.
      reflexivity.
Qed.

(** C5. For every pair of equal-length gap-padded sequences, the aligned
    sequences of a report, which are not empty, [find_ref_len] returns the
    reference-covered length: the number of bases of [a] once [a] has lost,
    at its start, as many characters as the gap run that starts [b] when
    [a] starts with a base and [b] with a gap, and the same at its end;
    ["--ACGT--"] against ["XXACGTXX"] gives 4. *)
Theorem find_ref_len_reference_covered :
  (forall a b : string,
      a <> "" -> String.length a = String.length b ->
      find_ref_len a b = Ok (Z.of_nat (reference_covered a b))) /\
  find_ref_len "--ACGT--" "XXACGTXX" = Ok 4.
Proof.
  split; [|reflexivity].
  intros a b Ha Hlen. apply find_ref_len_nonempty; [exact Ha|].
  apply nonempty_length. rewrite <- Hlen. apply nonempty_length. exact Ha.
Qed.

Lemma find_ref_len_reference_covered_witness :
  "ACGTAC" <> "" /\ String.length "ACGTAC" = String.length "--GT--" /\
  find_ref_len "ACGTAC" "--GT--" = Ok 2.
Proof.
  split; [discriminate|]. split; [reflexivity|].
  apply (proj1 find_ref_len_reference_covered "ACGTAC" "--GT--");
    [discriminate | reflexivity].
Defined.

(** C8. On sequences of equal length that are not empty, [find_ref_len]
    returns an integer between 0 and the number of bases of the reference
    [a]; on an empty [a] it raises IndexError, whatever [b] is. *)
Theorem find_ref_len_bounds :
  (forall a b : string,
      a <> "" -> String.length a = String.length b ->
      exists n : Z,
        find_ref_len a b = Ok n /\ 0 <= n <= Z.of_nat (count_bases a)) /\
  (forall b : string, find_ref_len "" b = Raise IndexError).
Proof.
  split; [|reflexivity].
  intros a b Ha Hlen.
  exists (Z.of_nat (reference_covered a b)). split.
  - apply find_ref_len_nonempty; [exact Ha|].
    apply nonempty_length. rewrite <- Hlen. apply nonempty_length. exact Ha.
  - split; [lia|]. apply Nat2Z.inj_le. unfold reference_covered.
    etransitivity; [apply count_bases_take|]. apply count_bases_drop.
Qed.

Lemma find_ref_len_bounds_witness :
  "AC-GT" <> "" /\ String.length "AC-GT" = String.length "-CAG-" /\
  exists n : Z,
    find_ref_len "AC-GT" "-CAG-" = Ok n /\ 0 <= n <= Z.of_nat (count_bases "AC-GT").
Proof.
  split; [discriminate|]. split; [reflexivity|].
  apply (proj1 find_ref_len_bounds "AC-GT" "-CAG-"); [discriminate | reflexivity].
Defined.

(** ** [calculate_exact_alignment] *)

Lemma columns_cons (x y : ascii) (a b : string) :
  columns (String x a) (String y b) = (x, y) :: columns a b.
Proof. reflexivity. Qed.

(** The loop adds to [total] the bases of [a] that face a character of [b],
    and to [perfect_match] those that equal it. *)
Lemma exact_loop_counts (a b : string) (total perfect_match : Z) :
  exact_loop a b total perfect_match =
  (total + Z.of_nat (count_bases (take (String.length b) a)),
   perfect_match + Z.of_nat (exact_matches a b)).
Proof.
  revert b total perfect_match.
  induction a as [|x a IH]; intros [|y b] total perfect_match;
    try (simpl; f_equal; lia).
  unfold exact_matches. rewrite columns_cons.
  cbn [exact_loop String.length take count_bases filter fst snd].
  change (is_base x) with (negb (is_gap x)).
  destruct (is_gap x); cbn [negb andb].
  - rewrite IH. reflexivity.
  - destruct (Ascii.eqb x y); rewrite IH; unfold exact_matches;
      cbn [List.length]; f_equal; lia.
Qed.

(** C6. For sequences of equal length whose reference [a] has a base,
    [calculate_exact_alignment] returns the gap-free identity: the number of
    positions where [a] has a base that [b] matches, over the number of
    bases of [a], times 100, to two decimals; ["ACGT"] against ["ACGA"] gives
    ["75.00"]. *)
Theorem calculate_exact_alignment_gap_free :
  (forall a b : string,
      String.length a = String.length b -> (0 < count_bases a)%nat ->
      calculate_exact_alignment a b = Ok (gap_free_identity a b)) /\
  calculate_exact_alignment "ACGT" "ACGA" = Ok "75.00".
Proof.
  split; [|reflexivity].
  intros a b Hlen Hpos.
  unfold calculate_exact_alignment. rewrite exact_loop_counts.
  rewrite <- Hlen, take_all. cbn [Z.add].
  unfold true_div.
  destruct (Z.eqb_spec (Z.of_nat (count_bases a)) 0) as [E|E]; [lia|].
  reflexivity.
Qed.

Lemma calculate_exact_alignment_gap_free_witness :
  String.length "AC-GTA" = String.length "ACTGAA" /\
  (0 < count_bases "AC-GTA")%nat /\
  calculate_exact_alignment "AC-GTA" "ACTGAA" = Ok "80.00".
Proof.
  split; [reflexivity|]. split; [simpl; lia|].
  apply (proj1 calculate_exact_alignment_gap_free "AC-GTA" "ACTGAA");
    [reflexivity | simpl; lia].
Defined.

(** ** One file at a time *)

Section WorkerFacts.
Context {rt : Runtime}.

Lemma bind_ok {A B : Type} (r : result A) (k : A -> result B) (b : B) :
  bind r k = Ok b -> exists a, r = Ok a /\ k a = Ok b.
Proof. destruct r as [a|e]; simpl; [eauto | discriminate]. Qed.

Lemma string_eqb_empty (s : string) : String.eqb s "" = true <-> s = "".
Proof. apply String.eqb_eq. Qed.

Lemma len_zero (s : string) : len s = 0 <-> s = "".
Proof. unfold len. destruct s; simpl; split; intros; try congruence; try lia. Qed.

(** [b] is assigned only once [a] is not empty. *)
Lemma read_sequences_empty (alignment : list string) :
  fst (read_sequences alignment) = "" -> snd (read_sequences alignment) = "".
Proof.
  unfold read_sequences.
  assert (G : forall ab : string * string,
             (fst ab = "" -> snd ab = "") ->
             fst (fold_left
                    (fun (ab : string * string) (sequence : string) =>
                       if String.eqb (fst ab) "" then (sequence, snd ab)
                       else (fst ab, sequence)) alignment ab) = "" ->
             snd (fold_left
                    (fun (ab : string * string) (sequence : string) =>
                       if String.eqb (fst ab) "" then (sequence, snd ab)
                       else (fst ab, sequence)) alignment ab) = "").
  { induction alignment as [|s al IH]; intros [a b] Hab; simpl; [exact Hab|].
    apply IH. simpl in Hab.
    destruct (String.eqb a "") eqn:E; simpl.
    - apply string_eqb_empty in E. intros _. auto.
    - intros ->. discriminate. }
  apply G. auto.
Qed.

(** A turn of the loop of [spades_worker] appends the candidate of the file
    when it keeps the file, and leaves the locals alone otherwise. *)
Lemma spades_file_candidate (algn_dir priority : string) (l : locals) (f : file) :
  spades_file algn_dir priority l f =
  if spades_retained priority f
  then c <- spades_candidate algn_dir f ;; Ok (push_candidate l c)
  else Ok l.
Proof.
  unfold spades_file, spades_retained, spades_candidate.
  destruct (endswith (fname f) suffix); [|reflexivity].
  destruct (other_priority priority (fname f)); [reflexivity|].
  cbn [andb negb].
  destruct (AlignIO_read (fdata f)) as [alignment|e]; [|reflexivity].
  cbn [bind].
  pose proof (read_sequences_empty alignment) as Hab.
  destruct (String.eqb (fst (read_sequences alignment)) "") eqn:Ea.
  - apply string_eqb_empty in Ea. rewrite (Hab Ea), Ea. cbn [negb andb bind].
    destruct (parse_alignment (fdata f)) as [st|e]; [|reflexivity]. cbn [bind].
    destruct (float_of_score (stats_score st)) as [sc|e]; reflexivity.
  - cbn [negb andb].
    destruct (String.eqb (snd (read_sequences alignment)) "") eqn:Eb.
    + apply string_eqb_empty in Eb. rewrite Eb. cbn [negb bind].
      destruct (parse_alignment (fdata f)) as [st|e]; [|reflexivity]. cbn [bind].
      destruct (float_of_score (stats_score st)) as [sc|e]; reflexivity.
    + cbn [negb bind].
      destruct (find_ref_len _ _) as [r|e]; [|reflexivity]. cbn [bind].
      destruct (parse_alignment (fdata f)) as [st|e]; [|reflexivity]. cbn [bind].
      destruct (float_of_score (stats_score st)) as [sc|e]; [|reflexivity]. cbn [bind].
      destruct (true_div _ _) as [c|e]; [|reflexivity]. cbn [bind].
      unfold push_candidate, append_candidate, set_ref_align_len, set_aligned.
      cbn. rewrite app_nil_r. reflexivity.
Qed.

Lemma graft_fresh (l : locals) : graft l fresh_locals = l.
Proof. destruct l. unfold graft. cbn. rewrite app_nil_r. reflexivity. Qed.

Lemma scaffold_sequence_graft (l : locals) (a b : string) (l0 : locals) (s : string) :
  scaffold_sequence (a, b, graft l l0) s =
  (abl <- scaffold_sequence (a, b, l0) s ;;
   Ok (fst (fst abl), snd (fst abl), graft l (snd abl))).
Proof.
  unfold scaffold_sequence.
  destruct (negb _ && negb _); [|reflexivity].
  destruct (find_ref_len _ _) as [r|e]; [|reflexivity]. cbn [bind].
  destruct (calculate_exact_alignment _ _) as [g|e]; [|reflexivity]. cbn [bind fst snd].
  unfold graft, append_nogap_id, set_ref_align_len. cbn. rewrite app_assoc. reflexivity.
Qed.

Lemma scaffold_sequences_graft (l : locals) (alignment : list string) :
  forall (a b : string) (l0 : locals),
    scaffold_sequences (a, b, graft l l0) alignment =
    (abl <- scaffold_sequences (a, b, l0) alignment ;;
     Ok (fst (fst abl), snd (fst abl), graft l (snd abl))).
Proof.
  induction alignment as [|s al IH]; intros a b l0; [reflexivity|].
  cbn [scaffold_sequences]. rewrite scaffold_sequence_graft.
  destruct (scaffold_sequence (a, b, l0) s) as [[[a' b'] l0']|e]; [|reflexivity].
  cbn [bind fst snd]. apply IH.
Qed.

Lemma scaffold_sequence_assigned (st st' : string * string * locals) (s : string) :
  assigned st -> scaffold_sequence st s = Ok st' -> assigned st'.
Proof.
  destruct st as [[a b] l]. unfold scaffold_sequence, assigned. cbn [fst snd].
  intros [I J].
  destruct (String.eqb a "") eqn:Ea.
  - destruct (negb (String.eqb s "") && negb (String.eqb b "")) eqn:C.
    + intros H. apply bind_ok in H as [r [_ H]]. apply bind_ok in H as [g [_ H]].
      injection H as <-. cbn. split; intros _; [discriminate|].
      destruct (nogap_id l); discriminate.
    + intros H. injection H as <-. split; assumption.
  - rewrite Ea. cbn [negb andb].
    destruct (negb (String.eqb s "")) eqn:C.
    + intros H. apply bind_ok in H as [r [_ H]]. apply bind_ok in H as [g [_ H]].
      injection H as <-. cbn. split; intros _; [discriminate|].
      destruct (nogap_id l); discriminate.
    + intros H. injection H as <-. split; [|assumption].
      apply negb_false_iff, string_eqb_empty in C.
      cbn [fst snd]. intros N. congruence.
Qed.

Lemma scaffold_sequences_assigned (alignment : list string) :
  forall st st' : string * string * locals,
    assigned st -> scaffold_sequences st alignment = Ok st' -> assigned st'.
Proof.
  induction alignment as [|s al IH]; intros st st' I H; cbn in H.
  - injection H as <-. exact I.
  - apply bind_ok in H as [st1 [H1 H2]].
    eapply IH; [|exact H2]. eapply scaffold_sequence_assigned; eauto.
Qed.

Lemma assigned_fresh : assigned ("", "", fresh_locals).
Proof. split; intros H; cbn in *; congruence. Qed.

(** A turn of the loop of [scaffold_worker]: a file it does not take is
    skipped, an empty one only sets [aligned], and any other appends its
    candidate. *)
Lemma scaffold_file_candidate (algn_dir priority : string) (l : locals) (f : file) :
  scaffold_file algn_dir priority l f =
  if scaffold_named priority f then
    if st_size f =? 0 then Ok (set_aligned l)
    else c <- scaffold_candidate algn_dir f ;; Ok (push_candidate l c)
  else Ok l.
Proof.
  unfold scaffold_file, scaffold_named, scaffold_candidate.
  destruct (contains "Scaffold" (fname f) && endswith (fname f) suffix); [|reflexivity].
  destruct (other_priority priority (fname f)); [reflexivity|].
  cbn [andb negb].
  destruct (st_size f =? 0); [reflexivity|].
  destruct (AlignIO_read (fdata f)) as [alignment|e]; [|reflexivity].
  cbn [bind].
  rewrite <- (graft_fresh (set_aligned l)) at 1.
  rewrite scaffold_sequences_graft.
  destruct (scaffold_sequences ("", "", fresh_locals) alignment)
    as [[[a b] l0]|e] eqn:E; [|reflexivity].
  cbn [bind fst snd].
  destruct (parse_alignment (fdata f)) as [st|e]; [|reflexivity]. cbn [bind].
  destruct (float_of_score (stats_score st)) as [sc|e]; [|reflexivity]. cbn [bind].
  destruct (true_div (len a) (len b)) as [c|e] eqn:D; [|reflexivity]. cbn [bind].
  pose proof (scaffold_sequences_assigned _ _ _ assigned_fresh E) as [I _].
  assert (Hb : b <> "").
  { intros ->. discriminate D. }
  cbn [fst snd] in I.
  destruct (ref_align_len l0) as [r|] eqn:R; [|exfalso; exact (I Hb eq_refl)].
  unfold graft at 1. cbn [ref_align_len]. rewrite R. cbn [read_local bind].
  unfold push_candidate, append_candidate, graft, set_aligned. cbn. rewrite R.
  reflexivity.
Qed.

End WorkerFacts.

(** ** Comparison of floats *)

Lemma SFcompare_key (x y : spec_float) :
  number x -> number y ->
  exists c, SFcompare x y = Some c /\
            (c = Lt <-> key_lt (key x) (key y)) /\
            (c = Eq <-> key x = key y) /\
            (c = Gt <-> key_lt (key y) (key x)).
Proof.
  unfold number, key_lt.
  destruct x as [sx|sx| |sx mx ex]; try discriminate;
    destruct y as [sy|sy| |sy my ey]; try discriminate; intros _ _;
    try (destruct sx); try (destruct sy); cbn [SFcompare key fst snd];
    try (eexists; split; [reflexivity|];
         repeat split; intros H; try discriminate H; try reflexivity;
         try (injection H; intros; lia); lia).
  - rewrite Pos.compare_cont_spec. cbn [Pos.switch_Eq].
    destruct (Z.compare_spec ex ey) as [E|E|E];
      [destruct (Pos.compare_spec mx my) as [F|F|F]| |];
      cbn [CompOpp]; eexists; (split; [reflexivity|]);
      repeat split; intros H; try discriminate H; try reflexivity;
      try (injection H; intros; lia); try lia; try (f_equal; f_equal; lia).
  - rewrite Pos.compare_cont_spec. cbn [Pos.switch_Eq].
    destruct (Z.compare_spec ex ey) as [E|E|E];
      [destruct (Pos.compare_spec mx my) as [F|F|F]| |];
      eexists; (split; [reflexivity|]);
      repeat split; intros H; try discriminate H; try reflexivity;
      try (injection H; intros; lia); try lia; try (f_equal; f_equal; lia).
Qed.

Lemma key_lt_irrefl (k : Z * Z * Z) : ~ key_lt k k.
Proof. unfold key_lt. lia. Qed.

Lemma key_lt_trans (k1 k2 k3 : Z * Z * Z) :
  key_lt k1 k2 -> key_lt k2 k3 -> key_lt k1 k3.
Proof. unfold key_lt. lia. Qed.

Lemma key_le_lt_trans (k1 k2 k3 : Z * Z * Z) :
  ~ key_lt k2 k1 -> key_lt k2 k3 -> key_lt k1 k3.
Proof. unfold key_lt. lia. Qed.

Lemma key_lt_le_trans (k1 k2 k3 : Z * Z * Z) :
  key_lt k1 k2 -> ~ key_lt k3 k2 -> key_lt k1 k3.
Proof. unfold key_lt. lia. Qed.

Lemma key_total (k1 k2 : Z * Z * Z) :
  ~ key_lt k1 k2 -> k1 <> k2 -> key_lt k2 k1.
Proof.
  destruct k1 as [[a1 b1] c1], k2 as [[a2 b2] c2]. unfold key_lt. cbn [fst snd].
  intros H N.
  assert (a1 <> a2 \/ b1 <> b2 \/ c1 <> c2) as D.
  { destruct (Z.eq_dec a1 a2) as [->|]; [|auto].
    destruct (Z.eq_dec b1 b2) as [->|]; [|auto].
    destruct (Z.eq_dec c1 c2) as [->|]; [|auto]. congruence. }
  lia.
Qed.

Lemma float_gtb_key (x y : spec_float) :
  number x -> number y -> (float_gtb x y = true <-> key_lt (key y) (key x)).
Proof.
  intros Hx Hy. unfold float_gtb, SFltb.
  destruct (SFcompare_key y x Hy Hx) as [c [-> [L _]]].
  rewrite <- L. destruct c; split; intros; congruence.
Qed.

Lemma float_eqb_key (x y : spec_float) :
  number x -> number y -> (float_eqb x y = true <-> key x = key y).
Proof.
  intros Hx Hy. unfold float_eqb, SFeqb.
  destruct (SFcompare_key x y Hx Hy) as [c [-> [_ [E _]]]].
  rewrite <- E. destruct c; split; intros; congruence.
Qed.

Lemma SFltb_key (x y : spec_float) :
  number x -> number y -> (SFltb x y = true <-> key_lt (key x) (key y)).
Proof. intros Hx Hy. apply (float_gtb_key y x Hy Hx). Qed.

Lemma SFleb_key (x y : spec_float) :
  number x -> number y -> (SFleb x y = true <-> ~ key_lt (key y) (key x)).
Proof.
  intros Hx Hy. unfold SFleb.
  destruct (SFcompare_key x y Hx Hy) as [c [-> [L [E G]]]].
  rewrite <- G. destruct c; split; intros; congruence.
Qed.

(** ** [max] and [index] *)

Section SelectionFacts.
Context {A : Type}.
Variable gtb : A -> A -> bool.
Variable eqb : A -> A -> bool.

(** [max] returns an element of the list, at the position [max_from]
    tracks. *)
Lemma max_from_position (l : list A) :
  forall (best_pos : nat) (best : A) (pos : nat),
    (fst (max_from gtb best_pos best pos l) = best_pos /\
     snd (max_from gtb best_pos best pos l) = best) \/
    (pos <= fst (max_from gtb best_pos best pos l) < pos + List.length l /\
     nth_error l (fst (max_from gtb best_pos best pos l) - pos) =
     Some (snd (max_from gtb best_pos best pos l)))%nat.
Proof.
  induction l as [|x r IH]; intros best_pos best pos; cbn [max_from]; [auto|].
  destruct (gtb x best).
  - right. destruct (IH pos x (S pos)) as [[-> ->]|[B N]].
    + rewrite Nat.sub_diag. cbn. split; [lia|reflexivity].
    + cbn [List.length]. split; [lia|].
      replace (fst (max_from gtb pos x (S pos) r) - pos)%nat
        with (S (fst (max_from gtb pos x (S pos) r) - S pos)) by lia.
      exact N.
  - destruct (IH best_pos best (S pos)) as [E|[B N]]; [auto|].
    right. cbn [List.length]. split; [lia|].
    replace (fst (max_from gtb best_pos best (S pos) r) - pos)%nat
      with (S (fst (max_from gtb best_pos best (S pos) r) - S pos)) by lia.
    exact N.
Qed.

Lemma max_pos_element (l : list A) (k : nat) (m : A) :
  max_pos gtb l = Ok (k, m) -> nth_error l k = Some m.
Proof.
  destruct l as [|x r]; [discriminate|]. cbn [max_pos]. intros H.
  injection H as H. 
  destruct (max_from_position r 0%nat x 1%nat) as [[E1 E2]|[B N]];
    rewrite H in *; cbn [fst snd] in *.
  - subst. reflexivity.
  - destruct k as [|k]; [lia|]. replace (S k - 1)%nat with k in N by lia. exact N.
Qed.

(** [index] stops at the first position that holds the object sought or a
    value equal to it. *)
Lemma index_from_first (k : nat) (m : A) (l : list A) :
  forall pos : nat,
    (pos <= k < pos + List.length l)%nat ->
    exists i : nat,
      index_from eqb k m pos l = Ok i /\ (pos <= i <= k)%nat /\
      (i = k \/ exists x, nth_error l (i - pos) = Some x /\ eqb x m = true) /\
      (forall j x, (pos <= j < i)%nat -> nth_error l (j - pos) = Some x ->
                   eqb x m = false).
Proof.
  induction l as [|x r IH]; intros pos B; cbn [List.length] in B; [lia|].
  cbn [index_from].
  destruct (Nat.eqb_spec pos k) as [E|E]; cbn [orb].
  - exists pos. split; [reflexivity|]. split; [lia|]. split; [auto|]. intros; lia.
  - destruct (eqb x m) eqn:Ex.
    + exists pos. split; [reflexivity|]. split; [lia|]. split.
      * right. exists x. rewrite Nat.sub_diag. auto.
      * intros; lia.
    + destruct (IH (S pos)) as [i [Hi [Bi [Ei Fi]]]]; [lia|].
      exists i. split; [exact Hi|]. split; [lia|]. split.
      * destruct Ei as [Ei|[y [Ny Ey]]]; [auto|]. right. exists y. split; [|exact Ey].
        replace (i - pos)%nat with (S (i - S pos)) by lia. exact Ny.
      * intros j y Bj Nj.
        destruct (Nat.eq_dec j pos) as [->|Nj'].
        -- rewrite Nat.sub_diag in Nj. cbn in Nj. congruence.
        -- apply (Fi j y); [lia|].
           replace (j - pos)%nat with (S (j - S pos)) in Nj by lia. exact Nj.
Qed.

(** On a list that is not empty, [l.index(max(l))] is a position of [l]:
    the first one that holds the maximum itself or a value equal to it. *)
Lemma index_of_max_first (l : list A) :
  l <> [] ->
  exists (best k : nat) (m : A),
    index_of_max gtb eqb l = Ok best /\ max_pos gtb l = Ok (k, m) /\
    (best <= k < List.length l)%nat /\ nth_error l k = Some m /\
    (best = k \/ exists x, nth_error l best = Some x /\ eqb x m = true) /\
    (forall j x, (j < best)%nat -> nth_error l j = Some x -> eqb x m = false).
Proof.
  intros N. unfold index_of_max.
  destruct (max_pos gtb l) as [[k m]|e] eqn:M; [|destruct l; [congruence|discriminate]].
  pose proof (max_pos_element l k m M) as Hk.
  assert (Bk : (k < List.length l)%nat) by (apply nth_error_Some; congruence).
  cbn [bind fst snd].
  destruct (index_from_first k m l 0%nat) as [i [Hi [Bi [Ei Fi]]]]; [lia|].
  exists i, k, m. split; [exact Hi|]. split; [reflexivity|]. split; [lia|].
  split; [exact Hk|]. split.
  - destruct Ei as [Ei|[x [Nx Ex]]]; [auto|]. right. exists x.
    rewrite Nat.sub_0_r in Nx. auto.
  - intros j x Bj Nj. apply (Fi j x); [lia|]. rewrite Nat.sub_0_r. exact Nj.
Qed.

Lemma index_of_max_nil : index_of_max gtb eqb [] = Raise ValueError.
Proof. reflexivity. Qed.

(** When the elements are ranked by keys that [>] follows, no element
    outranks the one [max] returns. *)
Variable rank : A -> Z * Z * Z.
Variable good : A -> Prop.
Hypothesis gtb_rank :
  forall x y, good x -> good y -> (gtb x y = true <-> key_lt (rank y) (rank x)).

Lemma max_from_greatest (l : list A) :
  forall (best_pos : nat) (best : A) (pos : nat),
    good best -> Forall good l ->
    ~ key_lt (rank (snd (max_from gtb best_pos best pos l))) (rank best) /\
    Forall (fun x => ~ key_lt (rank (snd (max_from gtb best_pos best pos l))) (rank x)) l.
Proof.
  induction l as [|x r IH]; intros best_pos best pos Gb Gl; cbn [max_from].
  - split; [apply key_lt_irrefl | constructor].
  - inversion Gl as [|? ? Gx Gr]; subst.
    destruct (gtb x best) eqn:C.
    + apply (proj1 (gtb_rank x best Gx Gb)) in C.
      destruct (IH pos x (S pos) Gx Gr) as [H1 H2].
      split; [|constructor; assumption].
      intros H. apply H1. eapply key_lt_trans; eassumption.
    + destruct (IH best_pos best (S pos) Gb Gr) as [H1 H2].
      split; [assumption|]. constructor; [|assumption].
      intros H. apply H1.
      assert (N : ~ key_lt (rank best) (rank x)).
      { intros K. apply (proj2 (gtb_rank x best Gx Gb)) in K. congruence. }
      eapply key_lt_le_trans; eassumption.
Qed.

Lemma max_pos_greatest (l : list A) (k : nat) (m : A) :
  Forall good l -> max_pos gtb l = Ok (k, m) ->
  Forall (fun x => ~ key_lt (rank m) (rank x)) l.
Proof.
  destruct l as [|x r]; [discriminate|]. cbn [max_pos]. intros G H.
  injection H as H. inversion G as [|? ? Gx Gr]; subst.
  destruct (max_from_greatest r 0%nat x 1%nat Gx Gr) as [H1 H2].
  rewrite H in *. cbn [snd] in *. constructor; assumption.
Qed.

End SelectionFacts.

(** ** The scan of a directory *)

Section ScanFacts.
Context {rt : Runtime}.

Lemma grown_refl (l : locals) : grown l l [] false.
Proof.
  unfold grown. cbn [map flat_map]. rewrite !app_nil_r, orb_false_r.
  repeat split.
Qed.

Lemma grown_push (l l' : locals) (c : candidate) (cs : list candidate) (seen : bool) :
  grown (push_candidate l c) l' cs seen -> grown l l' (c :: cs) true.
Proof.
  unfold grown, push_candidate. cbn [isos scores ids files cov length_ ref_len nogap_id aligned map flat_map].
  rewrite <- !app_assoc, orb_true_r. cbn [app orb]. tauto.
Qed.

Lemma grown_set_aligned (l l' : locals) (cs : list candidate) (seen : bool) :
  grown (set_aligned l) l' cs seen -> grown l l' cs true.
Proof.
  unfold grown, set_aligned. cbn [isos scores ids files cov length_ ref_len nogap_id aligned].
  rewrite orb_true_r. cbn [orb]. tauto.
Qed.

(** The scan of [spades_worker] ends with the candidates of the files it
    keeps, or with the exception of the first of them that has none. *)
Lemma scan_spades (algn_dir priority : string) (entries : list file) :
  forall l : locals,
    match scan (spades_file algn_dir priority) l entries,
          traverse (spades_candidate algn_dir) (filter (spades_retained priority) entries)
    with
    | Ok l', Ok cs => grown l l' cs (existsb (spades_retained priority) entries)
    | Raise e, Raise e' => e = e'
    | _, _ => False
    end.
Proof.
  induction entries as [|f rest IH]; intros l.
  - cbn. apply grown_refl.
  - cbn [scan filter existsb]. rewrite spades_file_candidate.
    destruct (spades_retained priority f).
    + cbn [traverse orb].
      destruct (spades_candidate algn_dir f) as [c|e]; cbn [bind]; [|reflexivity].
      specialize (IH (push_candidate l c)).
      destruct (scan _ _ rest) as [l'|e1], (traverse _ (filter _ rest)) as [cs|e2];
        cbn [bind]; try exact IH.
      eapply grown_push; exact IH.
    + cbn [bind orb]. apply IH.
Qed.

Lemma scan_scaffold (algn_dir priority : string) (entries : list file) :
  forall l : locals,
    match scan (scaffold_file algn_dir priority) l entries,
          traverse (scaffold_candidate algn_dir) (filter (scaffold_retained priority) entries)
    with
    | Ok l', Ok cs => grown l l' cs (existsb (scaffold_named priority) entries)
    | Raise e, Raise e' => e = e'
    | _, _ => False
    end.
Proof.
  induction entries as [|f rest IH]; intros l.
  - cbn. apply grown_refl.
  - cbn [scan filter existsb]. rewrite scaffold_file_candidate.
    assert (R : scaffold_retained priority f =
                scaffold_named priority f && negb (st_size f =? 0)) by reflexivity.
    rewrite R. clear R.
    destruct (scaffold_named priority f); cbn [andb orb].
    + destruct (st_size f =? 0); cbn [negb bind].
      * specialize (IH (set_aligned l)).
        destruct (scan _ _ rest) as [l'|e1], (traverse _ (filter _ rest)) as [cs|e2];
          try exact IH.
        eapply grown_set_aligned; exact IH.
      * cbn [traverse].
        destruct (scaffold_candidate algn_dir f) as [c|e]; cbn [bind]; [|reflexivity].
        specialize (IH (push_candidate l c)).
        destruct (scan _ _ rest) as [l'|e1], (traverse _ (filter _ rest)) as [cs|e2];
          cbn [bind]; try exact IH.
        eapply grown_push; exact IH.
    + cbn [bind]. apply IH.
Qed.

Lemma traverse_length {A B : Type} (f : A -> result B) (xs : list A) (ys : list B) :
  traverse f xs = Ok ys -> List.length ys = List.length xs.
Proof.
  revert ys; induction xs as [|x xs IH]; intros ys H; cbn in H.
  - injection H as <-. reflexivity.
  - apply bind_ok in H as [y [_ H]]. apply bind_ok in H as [ys' [H1 H]].
    injection H as <-. cbn. f_equal. auto.
Qed.

Lemma traverse_Forall2 {A B : Type} (f : A -> result B) (xs : list A) (ys : list B) :
  traverse f xs = Ok ys -> Forall2 (fun x y => f x = Ok y) xs ys.
Proof.
  revert ys; induction xs as [|x xs IH]; intros ys H; cbn in H.
  - injection H as <-. constructor.
  - apply bind_ok in H as [y [Hy H]]. apply bind_ok in H as [ys' [H1 H]].
    injection H as <-. constructor; auto.
Qed.

Lemma traverse_raise {A B : Type} (f : A -> result B) (xs : list A) (e : exn) :
  traverse f xs = Raise e -> exists x, In x xs /\ f x = Raise e.
Proof.
  induction xs as [|x xs IH]; cbn; [discriminate|].
  destruct (f x) as [y|e'] eqn:E; cbn [bind].
  - destruct (traverse f xs) as [ys|e'']; cbn [bind]; [discriminate|].
    intros H. injection H as ->. destruct IH as [x' [I F]]; eauto.
  - intros H. injection H as ->. eauto.
Qed.

Lemma traverse_all_ok {A B : Type} (f : A -> result B) (xs : list A) :
  (forall x, In x xs -> is_ok (f x) = true) -> exists ys, traverse f xs = Ok ys.
Proof.
  intros H. destruct (traverse f xs) as [ys|e] eqn:E; [eauto|].
  apply traverse_raise in E as [x [I F]]. specialize (H x I). rewrite F in H.
  discriminate.
Qed.

End ScanFacts.

(** ** What a worker puts on the queue *)

Section SelectFacts.
Context {rt : Runtime}.

Lemma item_map {A B : Type} (f : A -> B) (l : list A) (x : nat) (c : A) :
  nth_error l x = Some c -> item (map f l) x = Ok (f c).
Proof. intros H. unfold item. rewrite nth_error_map, H. reflexivity. Qed.

Lemma item_short {A : Type} (l : list A) (x : nat) :
  (x < List.length l)%nat -> exists y, item l x = Ok y.
Proof.
  intros H. unfold item. destruct (nth_error l x) as [y|] eqn:E; [eauto|].
  apply nth_error_None in E. lia.
Qed.

Lemma spades_record_candidate (l : locals) (cs : list candidate) (seen : bool)
  (x : nat) (c : candidate) :
  grown fresh_locals l cs seen -> nth_error cs x = Some c ->
  spades_record l x = Ok (contig_line c).
Proof.
  intros (Hi & _ & Hd & Hf & Hc & Hn & Hr & _) N. unfold spades_record.
  rewrite Hi, Hd, Hf, Hc, Hn, Hr. cbn [fresh_locals isos ids files cov length_ ref_len app].
  rewrite !(item_map _ _ _ _ N). reflexivity.
Qed.

Lemma scaffold_record_candidate (l : locals) (cs : list candidate) (seen : bool)
  (x : nat) (c : candidate) :
  grown fresh_locals l cs seen -> nogap_id l = map c_nogap cs ->
  nth_error cs x = Some c ->
  scaffold_record l x = Ok (scaffold_line c (c_nogap c)).
Proof.
  intros (Hi & _ & Hd & Hf & Hc & Hn & Hr & _) Hg N. unfold scaffold_record.
  rewrite Hi, Hd, Hf, Hc, Hn, Hr, Hg.
  cbn [fresh_locals isos ids files cov length_ ref_len app].
  rewrite !(item_map _ _ _ _ N). reflexivity.
Qed.

(** The loop over [range(0,len(files))] puts one line for each position,
    in order, when every position has its line. *)
Lemma put_each_lines {C : Type} (record : nat -> result string) (line : C -> string)
  (cs : list C) :
  forall start : nat,
    (forall i c, nth_error cs i = Some c -> record (start + i)%nat = Ok (line c)) ->
    put_each record (seq start (List.length cs)) = (map line cs, Ok tt).
Proof.
  induction cs as [|c cs IH]; intros start H; [reflexivity|].
  cbn [List.length seq put_each map].
  rewrite <- (Nat.add_0_r start) at 1. rewrite (H 0%nat c eq_refl).
  rewrite (IH (S start)); [reflexivity|].
  intros i c' N. replace (S start + i)%nat with (start + S i)%nat by lia.
  apply H. exact N.
Qed.

(** A message of the loop is the line of one of the positions. *)
Lemma put_each_in (record : nat -> result string) (xs : list nat) (m : string) :
  In m (fst (put_each record xs)) -> exists x, record x = Ok m.
Proof.
  induction xs as [|x xs IH]; cbn [put_each]; [intros []|].
  destruct (record x) as [m'|e] eqn:E; [|intros []].
  destruct (put_each record xs) as [ms r]. cbn [fst] in *.
  intros [<-|I]; eauto.
Qed.

(** The loop ends normally when every position has a line. *)
Lemma put_each_ok (record : nat -> result string) (xs : list nat) :
  (forall x, In x xs -> exists m, record x = Ok m) ->
  snd (put_each record xs) = Ok tt.
Proof.
  induction xs as [|x xs IH]; intros H; [reflexivity|]. cbn [put_each].
  destruct (H x (or_introl eq_refl)) as [m ->].
  destruct (put_each record xs) as [ms r] eqn:E. cbn [snd] in *.
  apply IH. intros y I. apply H. right. exact I.
Qed.

(** A message of a worker is a line of its record function. *)
Lemma select_in (crit : locals -> result nat) (record : locals -> nat -> result string)
  (best_only : string) (l : locals) (m : string) :
  In m (fst (select crit record best_only l)) -> exists x, record l x = Ok m.
Proof.
  unfold select. destruct (negb (aligned l)); [intros []|].
  destruct (String.eqb best_only "yes").
  - destruct (crit l) as [best|e]; cbn [bind]; [|intros []].
    destruct (record l best) as [m'|e] eqn:E; [|intros []].
    cbn. intros [<-|[]]. eauto.
  - destruct (String.eqb best_only "no"); [|intros []].
    apply put_each_in.
Qed.

(** A worker that ends with an exception after its scan has put nothing,
    provided every position of [files] has a line. *)
Lemma select_raise (crit : locals -> result nat) (record : locals -> nat -> result string)
  (best_only : string) (l : locals) (e : exn) :
  (forall x, (x < List.length (files l))%nat -> exists m, record l x = Ok m) ->
  snd (select crit record best_only l) = Raise e ->
  fst (select crit record best_only l) = [].
Proof.
  intros H. unfold select. destruct (negb (aligned l)); [reflexivity|].
  destruct (String.eqb best_only "yes").
  - destruct (crit l) as [best|e']; cbn [bind]; [|reflexivity].
    destruct (record l best) as [m'|e']; [discriminate|reflexivity].
  - destruct (String.eqb best_only "no"); [|reflexivity].
    rewrite put_each_ok; [discriminate|].
    intros x I. apply in_seq in I. apply H. lia.
Qed.

End SelectFacts.

(** ** The workers, by candidates *)

Section WorkerResults.
Context {rt : Runtime}.

Lemma filter_nil_existsb {A : Type} (p : A -> bool) (l : list A) :
  existsb p l = false -> filter p l = [].
Proof.
  induction l as [|x l IH]; cbn; [reflexivity|].
  destruct (p x); cbn; [discriminate|exact IH].
Qed.

Lemma existsb_filter {A : Type} (p : A -> bool) (l : list A) :
  filter p l <> [] -> existsb p l = true.
Proof.
  intros H. destruct (existsb p l) eqn:E; [reflexivity|].
  apply filter_nil_existsb in E. congruence.
Qed.

Lemma scaffold_sequence_first (a : string) (l : locals) :
  scaffold_sequence ("", "", l) a = Ok (a, "", l).
Proof.
  unfold scaffold_sequence. cbn [String.eqb negb andb].
  rewrite andb_false_r. reflexivity.
Qed.

(** The candidate of a report of two sequences: its reference-covered
    length and its one gap-free identity come from the two sequences as
    read, its coverage and length from the sequences without gaps. *)
Lemma scaffold_candidate_pairwise (algn_dir : string) (f : file) (c : candidate) :
  pairwise f = true -> scaffold_candidate algn_dir f = Ok c ->
  exists a b : string,
    AlignIO_read (fdata f) = Ok [a; b] /\
    find_ref_len a b = Ok (c_ref_len c) /\
    (exists g, calculate_exact_alignment a b = Ok g /\ c_nogap_id c = [g]) /\
    c_length c = len (remove_char gap b) /\
    true_div (len (remove_char gap a)) (len (remove_char gap b)) = Ok (c_cov c).
Proof.
  unfold pairwise, scaffold_candidate.
  destruct (AlignIO_read (fdata f)) as [[|a [|b [|x al]]]|e]; try discriminate.
  intros _. cbn [bind scaffold_sequences].
  rewrite scaffold_sequence_first. cbn [bind].
  unfold scaffold_sequence.
  destruct (String.eqb a "") eqn:Ea.
  - cbn [String.eqb negb andb]. rewrite andb_false_r. cbn [bind].
    destruct (parse_alignment (fdata f)) as [st|e]; [|discriminate]. cbn [bind].
    destruct (float_of_score (stats_score st)) as [sc|e]; discriminate.
  - rewrite Ea. cbn [negb andb].
    destruct (String.eqb b "") eqn:Eb; cbn [negb bind].
    + apply string_eqb_empty in Eb. subst b.
      destruct (parse_alignment (fdata f)) as [st|e]; [|discriminate]. cbn [bind].
      destruct (float_of_score (stats_score st)) as [sc|e]; discriminate.
    + destruct (find_ref_len a b) as [r|e] eqn:Fr; [|discriminate]. cbn [bind].
      destruct (calculate_exact_alignment a b) as [g|e] eqn:Cg; [|discriminate]. cbn [bind].
      destruct (parse_alignment (fdata f)) as [st|e]; [|discriminate]. cbn [bind].
      destruct (float_of_score (stats_score st)) as [sc|e]; [|discriminate]. cbn [bind].
      destruct (true_div _ _) as [q|e] eqn:D; [|discriminate]. cbn.
      intros H. injection H as <-. cbn.
      exists a, b. repeat split; eauto.
Qed.

(** The identity of a candidate of [spades_worker] is the one the parser
    returns for its file. *)
Lemma spades_candidate_identity (algn_dir : string) (f : file) (c : candidate) :
  spades_candidate algn_dir f = Ok c ->
  exists st, parse_alignment (fdata f) = Ok st /\ c_id c = stats_id st.
Proof.
  unfold spades_candidate. intros H.
  apply bind_ok in H as [alignment [_ H]].
  destruct (negb _ && negb _).
  - apply bind_ok in H as [r [_ H]]. apply bind_ok in H as [st [P H]].
    apply bind_ok in H as [sc [_ H]]. apply bind_ok in H as [q [_ H]].
    injection H as <-. eauto.
  - apply bind_ok in H as [st [_ H]]. apply bind_ok in H as [sc [_ H]].
    apply bind_ok in H as [q [_ H]]. discriminate.
Qed.

(** A candidate of [scaffold_worker] comes with a gap-free identity. *)
Lemma scaffold_candidate_nogap (algn_dir : string) (f : file) (c : candidate) :
  scaffold_candidate algn_dir f = Ok c -> c_nogap_id c <> [].
Proof.
  unfold scaffold_candidate. intros H.
  apply bind_ok in H as [alignment [_ H]].
  apply bind_ok in H as [[[a b] l] [E H]].
  apply bind_ok in H as [st [_ H]]. apply bind_ok in H as [sc [_ H]].
  apply bind_ok in H as [q [_ H]]. apply bind_ok in H as [r [R H]].
  injection H as <-. cbn [c_nogap_id].
  pose proof (scaffold_sequences_assigned _ _ _ assigned_fresh E) as [_ J].
  apply J. cbn [snd]. destruct (ref_align_len l); [discriminate|discriminate R].
Qed.

Lemma flat_map_single (cs : list candidate) :
  Forall (fun c => exists g, c_nogap_id c = [g]) cs ->
  flat_map c_nogap_id cs = map c_nogap cs.
Proof.
  induction 1 as [|c cs [g Hg] _ IH]; [reflexivity|].
  cbn [flat_map map]. unfold c_nogap at 1. rewrite Hg, IH. reflexivity.
Qed.

Lemma flat_map_longer (cs : list candidate) :
  Forall (fun c => c_nogap_id c <> []) cs ->
  (List.length cs <= List.length (flat_map c_nogap_id cs))%nat.
Proof.
  induction 1 as [|c cs Hc _ IH]; [reflexivity|].
  cbn [flat_map List.length]. rewrite length_app.
  destruct (c_nogap_id c); [congruence|]. cbn [List.length]. lia.
Qed.

(** The candidates of the files [scaffold_worker] reads hold one gap-free
    identity each when these files are reports of two sequences. *)
Lemma pairwise_candidates (algn_dir priority : string) (entries : list file)
  (cs : list candidate) :
  (forall f, In f entries -> scaffold_retained priority f = true -> pairwise f = true) ->
  traverse (scaffold_candidate algn_dir) (filter (scaffold_retained priority) entries) = Ok cs ->
  Forall (fun c => exists g, c_nogap_id c = [g]) cs.
Proof.
  intros P T. apply traverse_Forall2 in T.
  assert (Q : Forall (fun f => pairwise f = true) (filter (scaffold_retained priority) entries)).
  { apply Forall_forall. intros f I. apply filter_In in I as [I R]. auto. }
  induction T as [|f c fs cs' Hc _ IH]; [constructor|].
  inversion Q as [|? ? Qf Qfs]; subst. constructor; [|auto].
  destruct (scaffold_candidate_pairwise _ _ _ Qf Hc) as (a & b & _ & _ & [g [_ G]] & _).
  eauto.
Qed.

Lemma any_candidates_nogap (algn_dir : string) (fs : list file) (cs : list candidate) :
  traverse (scaffold_candidate algn_dir) fs = Ok cs ->
  Forall (fun c => c_nogap_id c <> []) cs.
Proof.
  intros T. apply traverse_Forall2 in T.
  induction T as [|f c fs' cs' Hc _ IH]; constructor; auto.
  eapply scaffold_candidate_nogap; eauto.
Qed.

(** The locals at the end of the scan of [spades_worker], from the
    candidates of the files it keeps. *)
Lemma spades_scan_ok (algn_dir priority : string) (entries : list file)
  (cs : list candidate) :
  traverse (spades_candidate algn_dir) (filter (spades_retained priority) entries) = Ok cs ->
  exists l, scan (spades_file algn_dir priority) fresh_locals entries = Ok l /\
            grown fresh_locals l cs (existsb (spades_retained priority) entries).
Proof.
  intros T. pose proof (scan_spades algn_dir priority entries fresh_locals) as S.
  rewrite T in S. destruct (scan _ _ _) as [l|e]; [eauto|contradiction].
Qed.

Lemma spades_scan_raise (algn_dir priority : string) (entries : list file) (e : exn) :
  traverse (spades_candidate algn_dir) (filter (spades_retained priority) entries) = Raise e ->
  scan (spades_file algn_dir priority) fresh_locals entries = Raise e.
Proof.
  intros T. pose proof (scan_spades algn_dir priority entries fresh_locals) as S.
  rewrite T in S. destruct (scan _ _ _) as [l|e']; [contradiction|congruence].
Qed.

Lemma scaffold_scan_ok (algn_dir priority : string) (entries : list file)
  (cs : list candidate) :
  traverse (scaffold_candidate algn_dir) (filter (scaffold_retained priority) entries) = Ok cs ->
  exists l, scan (scaffold_file algn_dir priority) fresh_locals entries = Ok l /\
            grown fresh_locals l cs (existsb (scaffold_named priority) entries).
Proof.
  intros T. pose proof (scan_scaffold algn_dir priority entries fresh_locals) as S.
  rewrite T in S. destruct (scan _ _ _) as [l|e]; [eauto|contradiction].
Qed.

Lemma scaffold_scan_raise (algn_dir priority : string) (entries : list file) (e : exn) :
  traverse (scaffold_candidate algn_dir) (filter (scaffold_retained priority) entries) = Raise e ->
  scan (scaffold_file algn_dir priority) fresh_locals entries = Raise e.
Proof.
  intros T. pose proof (scan_scaffold algn_dir priority entries fresh_locals) as S.
  rewrite T in S. destruct (scan _ _ _) as [l|e']; [contradiction|congruence].
Qed.

Lemma grown_lengths (l : locals) (cs : list candidate) (seen : bool) :
  grown fresh_locals l cs seen -> lists_length l (List.length cs).
Proof.
  intros (Hi & Hs & Hd & Hf & Hc & Hn & Hr & _). unfold lists_length.
  rewrite Hi, Hs, Hd, Hf, Hc, Hn, Hr. cbn [fresh_locals isos scores ids files cov length_ ref_len app].
  rewrite !length_map. repeat split.
Qed.

End WorkerResults.

(** ** The claims about the workers *)

Section Claims.
Context {rt : Runtime}.

Lemma scaffold_record_any (l : locals) (cs : list candidate) (seen : bool)
  (x : nat) (c : candidate) (g : string) :
  grown fresh_locals l cs seen ->
  nth_error cs x = Some c -> nth_error (nogap_id l) x = Some g ->
  scaffold_record l x = Ok (scaffold_line c g).
Proof.
  intros (Hi & _ & Hd & Hf & Hc & Hn & Hr & _) N Ng. unfold scaffold_record.
  rewrite Hi, Hd, Hf, Hc, Hn, Hr.
  cbn [fresh_locals isos ids files cov length_ ref_len app].
  rewrite !(item_map _ _ _ _ N). unfold item. rewrite Ng. reflexivity.
Qed.

Lemma nth_error_combine {A B : Type} (xs : list A) (ys : list B) (i : nat)
  (x : A) (y : B) :
  nth_error (combine xs ys) i = Some (x, y) ->
  nth_error xs i = Some x /\ nth_error ys i = Some y.
Proof.
  revert ys i. induction xs as [|a xs IH]; intros [|b ys] [|i]; cbn;
    try discriminate.
  - intros H. injection H as <- <-. auto.
  - apply IH.
Qed.

Lemma nth_error_firstn_some {A : Type} (n : nat) (l : list A) (i : nat) (x : A) :
  nth_error (firstn n l) i = Some x -> nth_error l i = Some x.
Proof.
  revert l i. induction n as [|n IH]; intros [|a l] [|i]; cbn; try discriminate.
  - auto.
  - apply IH.
Qed.

Lemma scaffold_lines_single (cs : list candidate) :
  scaffold_lines cs (map c_nogap cs) = map (fun c => scaffold_line c (c_nogap c)) cs.
Proof.
  unfold scaffold_lines. induction cs as [|c cs IH]; [reflexivity|].
  cbn [map combine fst snd]. rewrite IH. reflexivity.
Qed.

(** C7 (amended). Under the All policy ([best_only] is ["no"]), a locus all
    of whose retained files are valid candidates, N of them, yields exactly
    N records, the record of each file in the order the files were scanned.
    For scaffolds the record of the file at a place ends with the gap-free
    identity that stands at that place in [nogap_id], which is the one of
    the file when the files are reports of two sequences. *)
Theorem all_policy_one_record_per_candidate :
  (forall (fs : filesystem) (algn_dir locus priority : string)
          (entries : list file) (cs : list candidate),
      fs algn_dir = Ok entries ->
      traverse (spades_candidate algn_dir)
               (filter (spades_retained priority) entries) = Ok cs ->
      spades_worker fs algn_dir locus priority "no" = (map contig_line cs, Ok tt) /\
      List.length (fst (spades_worker fs algn_dir locus priority "no")) =
      List.length (filter (spades_retained priority) entries)) /\
  (forall (fs : filesystem) (algn_dir locus priority : string)
          (entries : list file) (cs : list candidate),
      fs algn_dir = Ok entries ->
      traverse (scaffold_candidate algn_dir)
               (filter (scaffold_retained priority) entries) = Ok cs ->
      List.length (firstn (List.length cs) (flat_map c_nogap_id cs)) = List.length cs /\
      scaffold_worker fs algn_dir locus priority "no" =
      (scaffold_lines cs (firstn (List.length cs) (flat_map c_nogap_id cs)), Ok tt) /\
      List.length (fst (scaffold_worker fs algn_dir locus priority "no")) =
      List.length (filter (scaffold_retained priority) entries) /\
      ((forall f, In f entries -> scaffold_retained priority f = true ->
                  pairwise f = true) ->
       scaffold_worker fs algn_dir locus priority "no" =
       (map (fun c => scaffold_line c (c_nogap c)) cs, Ok tt))).
Proof.
  split.
  - intros fs algn_dir locus priority entries cs Hfs T.
    assert (W : spades_worker fs algn_dir locus priority "no" = (map contig_line cs, Ok tt)).
    { destruct (spades_scan_ok _ _ _ _ T) as [l [S G]].
      unfold spades_worker, listdir. rewrite Hfs. cbn [bind]. rewrite S.
      unfold select. cbn [String.eqb Ascii.eqb Bool.eqb].
      destruct (aligned l) eqn:A; cbn [negb].
      - destruct G as (Hi & Hs & Hd & Hf & Hrest).
        assert (G' : grown fresh_locals l cs (existsb (spades_retained priority) entries))
          by (repeat split; tauto).
        rewrite Hf. cbn [fresh_locals files app]. rewrite length_map.
        apply put_each_lines. intros i c N. cbn [Nat.add].
        eapply spades_record_candidate; eauto.
      - destruct G as (_ & _ & _ & _ & _ & _ & _ & _ & Ha).
        rewrite A in Ha. cbn [fresh_locals aligned orb] in Ha. symmetry in Ha.
        apply filter_nil_existsb in Ha. rewrite Ha in T. cbn in T.
        injection T as <-. reflexivity. }
    split; [exact W|]. rewrite W. cbn [fst]. rewrite length_map.
    eapply traverse_length; eauto.
  - intros fs algn_dir locus priority entries cs Hfs T.
    pose proof (flat_map_longer cs (any_candidates_nogap _ _ _ T)) as Longer.
    set (gs := firstn (List.length cs) (flat_map c_nogap_id cs)).
    assert (Lg : List.length gs = List.length cs).
    { subst gs. rewrite length_firstn. lia. }
    assert (W : scaffold_worker fs algn_dir locus priority "no" =
                (scaffold_lines cs gs, Ok tt)).
    { destruct (scaffold_scan_ok _ _ _ _ T) as [l [S G]].
      unfold scaffold_worker, listdir. rewrite Hfs. cbn [bind]. rewrite S.
      unfold select. cbn [String.eqb Ascii.eqb Bool.eqb].
      destruct (aligned l) eqn:A; cbn [negb].
      - assert (Hg : nogap_id l = flat_map c_nogap_id cs).
        { destruct G as (_ & _ & _ & _ & _ & _ & _ & Hg & _). exact Hg. }
        assert (Hf : files l = map c_file cs).
        { destruct G as (_ & _ & _ & Hf & _). exact Hf. }
        rewrite Hf, length_map.
        replace (List.length cs) with (List.length (combine cs gs))
          by (rewrite length_combine; lia).
        unfold scaffold_lines.
        apply (put_each_lines _ (fun cg => scaffold_line (fst cg) (snd cg))).
        intros i [c g] N. cbn [Nat.add fst snd].
        apply nth_error_combine in N as [Nc Ng].
        eapply scaffold_record_any; eauto.
        rewrite Hg. eapply nth_error_firstn_some. exact Ng.
      - destruct G as (_ & _ & _ & _ & _ & _ & _ & _ & Ha).
        rewrite A in Ha. cbn [fresh_locals aligned orb] in Ha. symmetry in Ha.
        assert (F : filter (scaffold_retained priority) entries = []).
        { apply filter_nil_existsb.
          destruct (existsb (scaffold_retained priority) entries) eqn:X; [|reflexivity].
          apply existsb_exists in X as [f [I R]].
          assert (Y : existsb (scaffold_named priority) entries = true).
          { apply existsb_exists. exists f. split; [exact I|].
            unfold scaffold_retained in R. apply andb_true_iff in R. tauto. }
          congruence. }
        rewrite F in T. cbn in T. injection T as <-. reflexivity. }
    split; [exact Lg|]. split; [exact W|]. split.
    + rewrite W. cbn [fst]. unfold scaffold_lines.
      rewrite length_map, length_combine, Lg, Nat.min_id.
      eapply traverse_length; eauto.
    + intros P. rewrite W. f_equal. subst gs.
      rewrite (flat_map_single cs (pairwise_candidates _ _ _ _ P T)).
      rewrite <- (length_map c_nogap cs) at 1. rewrite firstn_all.
      apply scaffold_lines_single.
Qed.

End Claims.

Lemma all_policy_one_record_per_candidate_witness :
  (exists cs : list candidate,
      example_fs "out/L1" =
        Ok [mkFile "IsoA.1.trimmed_align.txt" report_75;
            mkFile "IsoB.1.trimmed_align.txt" report_100;
            mkFile "IsoC.1.trimmed_align.txt" report_100;
            mkFile "IsoA.1.align.txt" report_75] /\
      traverse (spades_candidate (rt := example_runtime) "out/L1")
        (filter (spades_retained "")
           [mkFile "IsoA.1.trimmed_align.txt" report_75;
            mkFile "IsoB.1.trimmed_align.txt" report_100;
            mkFile "IsoC.1.trimmed_align.txt" report_100;
            mkFile "IsoA.1.align.txt" report_75]) = Ok cs /\
      map (contig_line (rt := example_runtime)) cs =
        [tab_line ["75.0"; "1.0"; "4"; "IsoA"; "4"; "out/L1/IsoA.1.trimmed_align.txt"];
         tab_line ["100.0"; "1.0"; "4"; "IsoB"; "4"; "out/L1/IsoB.1.trimmed_align.txt"];
         tab_line ["100.0"; "1.0"; "4"; "IsoC"; "4"; "out/L1/IsoC.1.trimmed_align.txt"]] /\
      spades_worker (rt := example_runtime) example_fs "out/L1" "L1" "" "no" =
        (map (contig_line (rt := example_runtime)) cs, Ok tt)) /\
  (exists cs : list candidate,
      example_fs "out/L2" =
        Ok [mkFile "IsoA.Scaffold.trimmed_align.txt" report_100;
            mkFile "IsoB.Scaffold.trimmed_align.txt" report_75] /\
      traverse (scaffold_candidate (rt := example_runtime) "out/L2")
        (filter (scaffold_retained "")
           [mkFile "IsoA.Scaffold.trimmed_align.txt" report_100;
            mkFile "IsoB.Scaffold.trimmed_align.txt" report_75]) = Ok cs /\
      scaffold_lines (rt := example_runtime) cs
        (firstn (List.length cs) (flat_map c_nogap_id cs)) =
        [tab_line ["100.0"; "1.0"; "4"; "IsoA"; "4";
                   "out/L2/IsoA.Scaffold.trimmed_align.txt"; "100.00"];
         tab_line ["75.0"; "1.0"; "4"; "IsoB"; "4";
                   "out/L2/IsoB.Scaffold.trimmed_align.txt"; "75.00"]] /\
      scaffold_worker (rt := example_runtime) example_fs "out/L2" "L2" "" "no" =
        (scaffold_lines (rt := example_runtime) cs
           (firstn (List.length cs) (flat_map c_nogap_id cs)), Ok tt)).
Proof.
  split.
  - eexists. split; [reflexivity|]. split; [vm_compute; reflexivity|].
    split; [vm_compute; reflexivity|].
    apply (proj1 (@all_policy_one_record_per_candidate example_runtime)
                 example_fs "out/L1" "L1" "" _ _ eq_refl).
    vm_compute. reflexivity.
  - eexists. split; [reflexivity|]. split; [vm_compute; reflexivity|].
    split; [vm_compute; reflexivity|].
    apply (proj2 (@all_policy_one_record_per_candidate example_runtime)
                 example_fs "out/L2" "L2" "" _ _ eq_refl).
    vm_compute. reflexivity.
Defined.

(** C7 as stated fails on a locus where a valid candidate file stands next
    to a file that is no report: [AlignIO.read] reads the former and raises
    on the latter, the worker ends with that exception, and no record is
    put, not even the one of the valid file. *)
Lemma all_policy_mixed_locus :
  example_fs "out/L3" =
    Ok [mkFile "IsoA.1.trimmed_align.txt" report_75;
        mkFile "IsoB.1.trimmed_align.txt" no_report] /\
  needle_read report_75 = Ok ["ACGT"; "ACGA"] /\
  needle_read no_report = Raise ValueError /\
  (exists c : candidate,
      spades_candidate (rt := example_runtime) "out/L3"
        (mkFile "IsoA.1.trimmed_align.txt" report_75) = Ok c /\
      contig_line (rt := example_runtime) c =
        tab_line ["75.0"; "1.0"; "4"; "IsoA"; "4"; "out/L3/IsoA.1.trimmed_align.txt"]) /\
  spades_worker (rt := example_runtime) example_fs "out/L3" "L3" "" "no" =
    ([], Raise ValueError).
Proof.
  split; [reflexivity|]. split; [vm_compute; reflexivity|].
  split; [vm_compute; reflexivity|]. split.
  - eexists. split; [vm_compute; reflexivity|vm_compute; reflexivity].
  - vm_compute. reflexivity.
Qed.

Section SelectionClaims.
Context {rt : Runtime}.

Lemma index_of_max_bound {A : Type} (gtb eqb : A -> A -> bool) (l : list A) (best : nat) :
  index_of_max gtb eqb l = Ok best -> (best < List.length l)%nat.
Proof.
  intros H. destruct l as [|x r]; [discriminate|].
  destruct (index_of_max_first gtb eqb (x :: r)) as (b & k & m & I & _ & B & _);
    [discriminate|].
  rewrite I in H. injection H as <-. lia.
Qed.

(** C9. In each worker, when the scan ends, the parallel lists the worker
    indexes hold one entry for each file the scan read, provided, for
    [nogap_id] in [scaffold_worker], that these files are reports of two
    sequences; so the position the BestOnly policy computes is a position of
    every list. *)
Theorem parallel_lists_in_step :
  (forall (algn_dir priority : string) (entries : list file) (l : locals),
      scan (spades_file algn_dir priority) fresh_locals entries = Ok l ->
      lists_length l (List.length (filter (spades_retained priority) entries)) /\
      (forall best, spades_best l = Ok best ->
                    (best < List.length (filter (spades_retained priority) entries))%nat)) /\
  (forall (algn_dir priority : string) (entries : list file) (l : locals),
      (forall f, In f entries -> scaffold_retained priority f = true ->
                 pairwise f = true) ->
      scan (scaffold_file algn_dir priority) fresh_locals entries = Ok l ->
      lists_length l (List.length (filter (scaffold_retained priority) entries)) /\
      List.length (nogap_id l) =
        List.length (filter (scaffold_retained priority) entries) /\
      (forall best, scaffold_best l = Ok best ->
                    (best < List.length (filter (scaffold_retained priority) entries))%nat)).
Proof.
  split.
  - intros algn_dir priority entries l S.
    pose proof (scan_spades algn_dir priority entries fresh_locals) as G.
    rewrite S in G.
    destruct (traverse _ _) as [cs|e] eqn:T; [|contradiction].
    rewrite <- (traverse_length _ _ _ T).
    pose proof (grown_lengths _ _ _ G) as L. split; [exact L|].
    intros best B. apply index_of_max_bound in B.
    destruct L as (_ & _ & Ld & _). lia.
  - intros algn_dir priority entries l P S.
    pose proof (scan_scaffold algn_dir priority entries fresh_locals) as G.
    rewrite S in G.
    destruct (traverse _ _) as [cs|e] eqn:T; [|contradiction].
    rewrite <- (traverse_length _ _ _ T).
    pose proof (grown_lengths _ _ _ G) as L. split; [exact L|].
    assert (N : List.length (nogap_id l) = List.length cs).
    { destruct G as (_ & _ & _ & _ & _ & _ & _ & Hg & _). rewrite Hg.
      cbn [fresh_locals nogap_id app].
      rewrite (flat_map_single cs (pairwise_candidates _ _ _ _ P T)).
      apply length_map. }
    split; [exact N|].
    intros best B. apply index_of_max_bound in B. lia.
Qed.

End SelectionClaims.

Lemma parallel_lists_in_step_witness :
  exists l : locals,
    (forall f,
        In f [mkFile "IsoA.Scaffold.trimmed_align.txt" report_100;
              mkFile "IsoB.Scaffold.trimmed_align.txt" report_75] ->
        scaffold_retained "" f = true -> pairwise (rt := example_runtime) f = true) /\
    scan (scaffold_file (rt := example_runtime) "out/L2" "") fresh_locals
      [mkFile "IsoA.Scaffold.trimmed_align.txt" report_100;
       mkFile "IsoB.Scaffold.trimmed_align.txt" report_75] = Ok l /\
    lists_length l 2 /\ List.length (nogap_id l) = 2%nat /\
    (forall best, scaffold_best l = Ok best -> (best < 2)%nat).
Proof.
  eexists.
  assert (P : forall f,
             In f [mkFile "IsoA.Scaffold.trimmed_align.txt" report_100;
                   mkFile "IsoB.Scaffold.trimmed_align.txt" report_75] ->
             scaffold_retained "" f = true ->
             pairwise (rt := example_runtime) f = true).
  { intros f [<-|[<-|[]]] _; vm_compute; reflexivity. }
  split; [exact P|]. split; [vm_compute; reflexivity|].
  apply (proj2 (@parallel_lists_in_step example_runtime) "out/L2" "" _ _ P).
  vm_compute. reflexivity.
Defined.

(** ** Failures *)

Section FailureClaims.
Context {rt : Runtime}.


(** After a scan that appended nothing, nothing is put. *)
Lemma select_empty (crit : locals -> result nat) (record : locals -> nat -> result string)
  (best_only : string) (l : locals) :
  files l = [] -> (forall best, crit l <> Ok best) ->
  fst (select crit record best_only l) = [].
Proof.
  intros F C. unfold select. destruct (negb (aligned l)); [reflexivity|].
  destruct (String.eqb best_only "yes").
  - destruct (crit l) as [best|e] eqn:E; [exfalso; eapply C; eauto|reflexivity].
  - destruct (String.eqb best_only "no"); [|reflexivity].
    rewrite F. reflexivity.
Qed.

Lemma grown_nothing (l : locals) (seen : bool) :
  grown fresh_locals l [] seen ->
  files l = [] /\ ids l = [] /\ nogap_id l = [].
Proof. intros (_ & _ & Hd & Hf & _ & _ & _ & Hg & _). auto. Qed.

(** C4. A locus none of whose retained files is a valid candidate puts no
    record, whatever [best_only] is; so does, in particular, a locus of
    scaffolds whose only file is an empty report. *)
Theorem no_candidate_no_record :
  (forall (fs : filesystem) (algn_dir locus priority best_only : string),
      (forall entries f,
          fs algn_dir = Ok entries -> In f entries ->
          spades_retained priority f = true ->
          is_ok (spades_candidate algn_dir f) = false) ->
      fst (spades_worker fs algn_dir locus priority best_only) = []) /\
  (forall (fs : filesystem) (algn_dir locus priority best_only : string),
      (forall entries f,
          fs algn_dir = Ok entries -> In f entries ->
          scaffold_retained priority f = true ->
          is_ok (scaffold_candidate algn_dir f) = false) ->
      fst (scaffold_worker fs algn_dir locus priority best_only) = []) /\
  (forall (fs : filesystem) (algn_dir locus priority best_only : string) (f : file),
      fs algn_dir = Ok [f] ->
      scaffold_named priority f = true -> st_size f = 0 ->
      fst (scaffold_worker fs algn_dir locus priority best_only) = []).
Proof.
  assert (Scaffold :
    forall (fs : filesystem) (algn_dir locus priority best_only : string),
      (forall entries f,
          fs algn_dir = Ok entries -> In f entries ->
          scaffold_retained priority f = true ->
          is_ok (scaffold_candidate algn_dir f) = false) ->
      fst (scaffold_worker fs algn_dir locus priority best_only) = []).
  { intros fs algn_dir locus priority best_only H.
    unfold scaffold_worker, listdir.
    destruct (fs algn_dir) as [entries|] eqn:Hfs; [|reflexivity]. cbn [bind].
    destruct (filter (scaffold_retained priority) entries) as [|f fs'] eqn:F.
    - destruct (scaffold_scan_ok algn_dir priority entries []) as [l [S G]];
        [rewrite F; reflexivity|].
      rewrite S. apply grown_nothing in G as (Hf & _ & Hg).
      apply select_empty; [exact Hf|].
      intros best. unfold scaffold_best. rewrite Hg. discriminate.
    - assert (If : In f (filter (scaffold_retained priority) entries))
        by (rewrite F; left; reflexivity).
      apply filter_In in If as [If Rf]. specialize (H entries f eq_refl If Rf).
      destruct (scaffold_candidate algn_dir f) as [c|e] eqn:C; [discriminate|].
      rewrite (scaffold_scan_raise algn_dir priority entries e); [reflexivity|].
      rewrite F. cbn [traverse]. rewrite C. reflexivity. }
  split; [|split; [exact Scaffold|]].
  - intros fs algn_dir locus priority best_only H.
    unfold spades_worker, listdir.
    destruct (fs algn_dir) as [entries|] eqn:Hfs; [|reflexivity]. cbn [bind].
    destruct (filter (spades_retained priority) entries) as [|f fs'] eqn:F.
    + destruct (spades_scan_ok algn_dir priority entries []) as [l [S G]];
        [rewrite F; reflexivity|].
      rewrite S. apply grown_nothing in G as (Hf & Hd & _).
      apply select_empty; [exact Hf|].
      intros best. unfold spades_best. rewrite Hd. discriminate.
    + assert (If : In f (filter (spades_retained priority) entries))
        by (rewrite F; left; reflexivity).
      apply filter_In in If as [If Rf]. specialize (H entries f eq_refl If Rf).
      destruct (spades_candidate algn_dir f) as [c|e] eqn:C; [discriminate|].
      rewrite (spades_scan_raise algn_dir priority entries e); [reflexivity|].
      rewrite F. cbn [traverse]. rewrite C. reflexivity.
  - intros fs algn_dir locus priority best_only f Hfs Named Size.
    apply Scaffold. intros entries f' Hfs' I R.
    rewrite Hfs in Hfs'. injection Hfs' as <-. destruct I as [<-|[]].
    unfold scaffold_retained in R. rewrite Size in R.
    rewrite andb_false_r in R. discriminate.
Qed.

Lemma item_ok_of_length {A : Type} (l : list A) (x n : nat) :
  List.length l = n -> (x < n)%nat -> exists y, item l x = Ok y.
Proof. intros <-. apply item_short. Qed.

Lemma spades_record_ok (l : locals) (x n : nat) :
  lists_length l n -> (x < n)%nat -> exists m, spades_record l x = Ok m.
Proof.
  intros (Li & _ & Ld & Lf & Lc & Ln & Lr) B. unfold spades_record.
  destruct (item_ok_of_length _ x n Ld B) as [? ->].
  destruct (item_ok_of_length _ x n Lc B) as [? ->].
  destruct (item_ok_of_length _ x n Ln B) as [? ->].
  destruct (item_ok_of_length _ x n Li B) as [? ->].
  destruct (item_ok_of_length _ x n Lr B) as [? ->].
  destruct (item_ok_of_length _ x n Lf B) as [? ->].
  cbn [bind]. eauto.
Qed.

Lemma scaffold_record_ok (l : locals) (x n : nat) :
  lists_length l n -> (n <= List.length (nogap_id l))%nat -> (x < n)%nat ->
  exists m, scaffold_record l x = Ok m.
Proof.
  intros (Li & _ & Ld & Lf & Lc & Ln & Lr) Lg B. unfold scaffold_record.
  destruct (item_ok_of_length _ x n Ld B) as [? ->].
  destruct (item_ok_of_length _ x n Lc B) as [? ->].
  destruct (item_ok_of_length _ x n Ln B) as [? ->].
  destruct (item_ok_of_length _ x n Li B) as [? ->].
  destruct (item_ok_of_length _ x n Lr B) as [? ->].
  destruct (item_ok_of_length _ x n Lf B) as [? ->].
  destruct (item_short (nogap_id l) x) as [? ->]; [lia|].
  cbn [bind]. eauto.
Qed.

(** Collecting the jobs raises the exception of the first job that ended
    with one. *)
Lemma get_all_raise (js : list (list string * result unit))
  (job : list string * result unit) (e : exn) :
  In job js -> snd job = Raise e ->
  exists (e' : exn) (before after : list (list string * result unit))
         (failed : list string * result unit),
    js = (before ++ failed :: after)%list /\
    Forall (fun j => snd j = Ok tt) before /\
    snd failed = Raise e' /\ get_all js = Raise e'.
Proof.
  induction js as [|j js IH]; intros I R; [destruct I|]. cbn [get_all].
  destruct (snd j) as [[]|e0] eqn:E; cbn [bind].
  - destruct I as [->|I]; [congruence|].
    destruct (IH I R) as (e' & before & after & failed & -> & F & Rf & G).
    exists e', (j :: before), after, failed.
    split; [reflexivity|]. split; [constructor; assumption|]. split; assumption.
  - exists e0, [], js, j. split; [reflexivity|]. split; [constructor|].
    split; [exact E|reflexivity].
Qed.

Lemma get_all_ok (js : list (list string * result unit)) :
  get_all js = Ok tt -> forall job, In job js -> snd job = Ok tt.
Proof.
  induction js as [|j js IH]; intros G job I; [destruct I|]. cbn [get_all] in G.
  destruct (snd j) as [[]|e] eqn:E; cbn [bind] in G; [|discriminate].
  destruct I as [<-|I]; auto.
Qed.

Lemma traverse_fails {A B : Type} (f : A -> result B) (xs : list A) (x : A) :
  In x xs -> is_ok (f x) = false -> exists e, traverse f xs = Raise e.
Proof.
  intros I F. destruct (traverse f xs) as [ys|e] eqn:T; [|eauto].
  apply traverse_Forall2 in T. exfalso. revert x I F.
  induction T as [|x0 y xs' ys' Hx T IH]; intros x I F; [destruct I|].
  destruct I as [<-|I]; [rewrite Hx in F; discriminate|eauto].
Qed.

(** A file that [AlignIO.read] or [parse_alignment] refuses is no valid
    candidate. *)
Lemma unread_no_candidate (algn_dir : string) (f : file) (e : exn) :
  AlignIO_read (fdata f) = Raise e \/ parse_alignment (fdata f) = Raise e ->
  is_ok (spades_candidate algn_dir f) = false /\
  is_ok (scaffold_candidate algn_dir f) = false.
Proof.
  intros H. unfold spades_candidate, scaffold_candidate.
  destruct (AlignIO_read (fdata f)) as [alignment|e1]; cbn [bind]; [|split; reflexivity].
  destruct H as [H|H]; [discriminate|]. rewrite H. split.
  - destruct (read_sequences alignment) as [a b]. cbn [fst snd].
    destruct (negb (String.eqb a "") && negb (String.eqb b "")) eqn:C;
      cbn [bind]; [|reflexivity].
    apply andb_true_iff in C as [Ca Cb]. apply negb_true_iff in Ca, Cb.
    rewrite find_ref_len_nonempty
      by (intros E; subst; rewrite String.eqb_refl in *; discriminate).
    reflexivity.
  - destruct (scaffold_sequences _ alignment) as [[[a b] l]|e1]; reflexivity.
Qed.

Lemma spades_worker_fails (fs : filesystem) (algn_dir locus priority best_only : string)
  (entries : list file) (e : exn) :
  fs algn_dir = Ok entries ->
  traverse (spades_candidate algn_dir) (filter (spades_retained priority) entries)
    = Raise e ->
  spades_worker fs algn_dir locus priority best_only = ([], Raise e).
Proof.
  intros Hfs T. unfold spades_worker, listdir. rewrite Hfs. cbn [bind].
  rewrite (spades_scan_raise _ _ _ _ T). reflexivity.
Qed.

Lemma scaffold_worker_fails (fs : filesystem) (algn_dir locus priority best_only : string)
  (entries : list file) (e : exn) :
  fs algn_dir = Ok entries ->
  traverse (scaffold_candidate algn_dir) (filter (scaffold_retained priority) entries)
    = Raise e ->
  scaffold_worker fs algn_dir locus priority best_only = ([], Raise e).
Proof.
  intros Hfs T. unfold scaffold_worker, listdir. rewrite Hfs. cbn [bind].
  rewrite (scaffold_scan_raise _ _ _ _ T). reflexivity.
Qed.

(** C2 (amended). A per-locus failure makes the worker of the locus end
    with an exception after it has put no record: when [os.listdir] raises
    on the alignment directory, as it does with FileNotFoundError on a
    missing one, the worker ends with that exception; when a file the
    worker keeps is no valid candidate, as is a report that [AlignIO.read]
    cannot read or [parse_alignment] cannot parse, it ends with the
    exception of the first such file. The failure is not isolated: [main]
    raises the exception of the first failed job again when it collects the
    jobs, so the run ends with that exception and without the stop message,
    and it ends normally only when every job did. *)
Theorem failure_ends_the_run :
  (forall (fs : filesystem) (algn_dir locus priority best_only : string) (e : exn),
      fs algn_dir = Raise e ->
      spades_worker fs algn_dir locus priority best_only = ([], Raise e) /\
      scaffold_worker fs algn_dir locus priority best_only = ([], Raise e)) /\
  (forall (algn_dir : string) (f : file) (e : exn),
      AlignIO_read (fdata f) = Raise e \/ parse_alignment (fdata f) = Raise e ->
      is_ok (spades_candidate algn_dir f) = false /\
      is_ok (scaffold_candidate algn_dir f) = false) /\
  (forall (fs : filesystem) (algn_dir locus priority best_only : string)
          (entries : list file) (f : file),
      fs algn_dir = Ok entries -> In f entries ->
      (spades_retained priority f = true ->
       is_ok (spades_candidate algn_dir f) = false ->
       exists (e : exn) (failed : file),
         traverse (spades_candidate algn_dir)
                  (filter (spades_retained priority) entries) = Raise e /\
         In failed entries /\ spades_retained priority failed = true /\
         spades_candidate algn_dir failed = Raise e /\
         spades_worker fs algn_dir locus priority best_only = ([], Raise e)) /\
      (scaffold_retained priority f = true ->
       is_ok (scaffold_candidate algn_dir f) = false ->
       exists (e : exn) (failed : file),
         traverse (scaffold_candidate algn_dir)
                  (filter (scaffold_retained priority) entries) = Raise e /\
         In failed entries /\ scaffold_retained priority failed = true /\
         scaffold_candidate algn_dir failed = Raise e /\
         scaffold_worker fs algn_dir locus priority best_only = ([], Raise e))) /\
  (forall (fs : filesystem) (algn_dir locus priority best_only : string) (e : exn),
      (snd (spades_worker fs algn_dir locus priority best_only) = Raise e ->
       fst (spades_worker fs algn_dir locus priority best_only) = []) /\
      (snd (scaffold_worker fs algn_dir locus priority best_only) = Raise e ->
       fst (scaffold_worker fs algn_dir locus priority best_only) = [])) /\
  (forall (fs : filesystem) (assmb_map align_path priority best_only assmb_type : string)
          (job : list string * result unit) (e : exn),
      In job (jobs fs assmb_map align_path priority best_only assmb_type) ->
      snd job = Raise e ->
      exists (e' : exn) (before after : list (list string * result unit))
             (failed : list string * result unit),
        jobs fs assmb_map align_path priority best_only assmb_type =
          (before ++ failed :: after)%list /\
        Forall (fun j => snd j = Ok tt) before /\
        snd failed = Raise e' /\
        main fs assmb_map align_path priority best_only assmb_type = Raise e') /\
  (forall (fs : filesystem) (assmb_map align_path priority best_only assmb_type : string)
          (queue : list string),
      main fs assmb_map align_path priority best_only assmb_type = Ok queue ->
      (forall job,
          In job (jobs fs assmb_map align_path priority best_only assmb_type) ->
          snd job = Ok tt) /\
      queue =
        (flat_map fst (jobs fs assmb_map align_path priority best_only assmb_type)
         ++ ["stop"])%list).
Proof.
  split; [|split; [|split; [|split; [|split]]]].
  - intros fs algn_dir locus priority best_only e Hfs.
    unfold spades_worker, scaffold_worker, listdir. rewrite Hfs. split; reflexivity.
  - apply unread_no_candidate.
  - intros fs algn_dir locus priority best_only entries f Hfs I. split; intros R C.
    + destruct (traverse_fails (spades_candidate algn_dir)
                  (filter (spades_retained priority) entries) f) as [e T];
        [apply filter_In; split; assumption | exact C |].
      destruct (traverse_raise _ _ _ T) as [failed [If Cf]].
      apply filter_In in If as [If Rf].
      exists e, failed. repeat (split; [assumption|]).
      eapply spades_worker_fails; eauto.
    + destruct (traverse_fails (scaffold_candidate algn_dir)
                  (filter (scaffold_retained priority) entries) f) as [e T];
        [apply filter_In; split; assumption | exact C |].
      destruct (traverse_raise _ _ _ T) as [failed [If Cf]].
      apply filter_In in If as [If Rf].
      exists e, failed. repeat (split; [assumption|]).
      eapply scaffold_worker_fails; eauto.
  - intros fs algn_dir locus priority best_only e. split.
    + unfold spades_worker, listdir.
      destruct (fs algn_dir) as [entries|e0]; [|reflexivity]. cbn [bind].
      pose proof (scan_spades algn_dir priority entries fresh_locals) as G.
      destruct (scan _ _ _) as [l|e']; [|reflexivity].
      destruct (traverse _ _) as [cs|e'] eqn:T; [|contradiction].
      pose proof (grown_lengths _ _ _ G) as L.
      apply select_raise. intros x B.
      apply (spades_record_ok l x (List.length cs) L).
      destruct L as (_ & _ & _ & Lf & _). lia.
    + unfold scaffold_worker, listdir.
      destruct (fs algn_dir) as [entries|e0]; [|reflexivity]. cbn [bind].
      pose proof (scan_scaffold algn_dir priority entries fresh_locals) as G.
      destruct (scan _ _ _) as [l|e']; [|reflexivity].
      destruct (traverse _ _) as [cs|e'] eqn:T; [|contradiction].
      pose proof (grown_lengths _ _ _ G) as L.
      apply select_raise. intros x B.
      apply (scaffold_record_ok l x (List.length cs) L).
      * destruct G as (_ & _ & _ & _ & _ & _ & _ & Hg & _). rewrite Hg.
        cbn [fresh_locals nogap_id app]. apply flat_map_longer.
        eapply any_candidates_nogap; eauto.
      * destruct L as (_ & _ & _ & Lf & _). lia.
  - intros fs assmb_map align_path priority best_only assmb_type job e I R.
    unfold main. cbv zeta.
    destruct (get_all_raise _ _ _ I R) as (e' & before & after & failed & J & F & Rf & G).
    exists e', before, after, failed. rewrite G. cbn [bind]. auto.
  - intros fs assmb_map align_path priority best_only assmb_type queue M.
    unfold main in M. cbv zeta in M.
    destruct (get_all _) as [[]|e] eqn:G; cbn [bind] in M; [|discriminate].
    injection M as <-. split; [|reflexivity].
    apply get_all_ok. exact G.
Qed.

End FailureClaims.

Lemma no_candidate_no_record_witness :
  (forall entries f,
      example_fs "out/L4" = Ok entries -> In f entries ->
      spades_retained "" f = true ->
      is_ok (spades_candidate (rt := example_runtime) "out/L4" f) = false) /\
  fst (spades_worker (rt := example_runtime) example_fs "out/L4" "L4" "" "no") = [] /\
  example_fs "out/L4" = Ok [mkFile "IsoA.Scaffold.trimmed_align.txt" ""] /\
  scaffold_named "" (mkFile "IsoA.Scaffold.trimmed_align.txt" "") = true /\
  st_size (mkFile "IsoA.Scaffold.trimmed_align.txt" "") = 0 /\
  fst (scaffold_worker (rt := example_runtime) example_fs "out/L4" "L4" "" "yes") = [].
Proof.
  assert (H : forall entries f,
             example_fs "out/L4" = Ok entries -> In f entries ->
             spades_retained "" f = true ->
             is_ok (spades_candidate (rt := example_runtime) "out/L4" f) = false).
  { intros entries f E I _. vm_compute in E. injection E as <-.
    destruct I as [<-|[]]. vm_compute. reflexivity. }
  split; [exact H|].
  split; [apply (proj1 (@no_candidate_no_record example_runtime)); exact H|].
  split; [reflexivity|]. split; [vm_compute; reflexivity|]. split; [reflexivity|].
  apply (proj2 (proj2 (@no_candidate_no_record example_runtime))
               example_fs "out/L4" "L4" "" "yes"
               (mkFile "IsoA.Scaffold.trimmed_align.txt" ""));
    [reflexivity | vm_compute; reflexivity | reflexivity].
Defined.

Lemma failure_ends_the_run_witness :
  example_fs "out/L9" = Raise FileNotFoundError /\
  spades_worker (rt := example_runtime) example_fs "out/L9" "L9" "" "yes" =
    ([], Raise FileNotFoundError) /\
  example_fs "out/L8" = Raise NotADirectoryError /\
  scaffold_worker (rt := example_runtime) example_fs "out/L8" "L8" "" "no" =
    ([], Raise NotADirectoryError) /\
  needle_read no_report = Raise ValueError /\
  (exists (e : exn) (failed : file),
      traverse (spades_candidate (rt := example_runtime) "out/L3")
               (filter (spades_retained "")
                  [mkFile "IsoA.1.trimmed_align.txt" report_75;
                   mkFile "IsoB.1.trimmed_align.txt" no_report]) = Raise e /\
      In failed [mkFile "IsoA.1.trimmed_align.txt" report_75;
                 mkFile "IsoB.1.trimmed_align.txt" no_report] /\
      spades_retained "" failed = true /\
      spades_candidate (rt := example_runtime) "out/L3" failed = Raise e /\
      spades_worker (rt := example_runtime) example_fs "out/L3" "L3" "" "no" =
        ([], Raise e)) /\
  In (([] : list string), (Raise FileNotFoundError : result unit))
     (jobs (rt := example_runtime) example_fs example_map "out" "" "yes" "SPAdes") /\
  (exists (e' : exn) (before after : list (list string * result unit))
          (failed : list string * result unit),
      jobs (rt := example_runtime) example_fs example_map "out" "" "yes" "SPAdes" =
        (before ++ failed :: after)%list /\
      Forall (fun j => snd j = Ok tt) before /\
      snd failed = Raise e' /\
      main (rt := example_runtime) example_fs example_map "out" "" "yes" "SPAdes"
      = Raise e').
Proof.
  split; [reflexivity|].
  split; [apply (proj1 (@failure_ends_the_run example_runtime)); reflexivity|].
  split; [reflexivity|].
  split; [apply (proj1 (@failure_ends_the_run example_runtime)); reflexivity|].
  split; [vm_compute; reflexivity|].
  split.
  - apply (proj1 (proj1 (proj2 (proj2 (@failure_ends_the_run example_runtime)))
                        example_fs "out/L3" "L3" "" "no" _
                        (mkFile "IsoB.1.trimmed_align.txt" no_report)
                        eq_refl (or_intror (or_introl eq_refl)))).
    + reflexivity.
    + apply (proj1 (proj2 (@failure_ends_the_run example_runtime)) "out/L3"
                   (mkFile "IsoB.1.trimmed_align.txt" no_report) ValueError).
      left. vm_compute. reflexivity.
  - assert (I : In (([] : list string), (Raise FileNotFoundError : result unit))
                   (jobs (rt := example_runtime) example_fs example_map "out" "" "yes"
                         "SPAdes")).
    { vm_compute. left. reflexivity. }
    split; [exact I|].
    apply (proj1 (proj2 (proj2 (proj2 (proj2 (@failure_ends_the_run example_runtime)))))
                 example_fs example_map "out" "" "yes" "SPAdes" _ FileNotFoundError I).
    reflexivity.
Defined.

(** C2 as stated fails on a map that names a locus without a directory
    next to a locus that has a record to give: the worker of the former
    raises, and [main] ends with that exception instead of the stop
    message. It fails likewise on a map that names, next to that locus, a
    locus one of whose reports cannot be read. *)
Lemma missing_directory_ends_the_run :
  (example_fs "out/L9" = Raise FileNotFoundError /\
   spades_worker (rt := example_runtime) example_fs "out/L1" "L1" "" "yes" =
     ([tab_line ["100.0"; "1.0"; "4"; "IsoB"; "4"; "out/L1/IsoB.1.trimmed_align.txt"]],
      Ok tt) /\
   main (rt := example_runtime) example_fs example_map "out" "" "yes" "SPAdes" =
     Raise FileNotFoundError) /\
  (needle_read no_report = Raise ValueError /\
   spades_worker (rt := example_runtime) example_fs "out/L3" "L3" "" "yes" =
     ([], Raise ValueError) /\
   main (rt := example_runtime) example_fs example_map_L3 "out" "" "yes" "SPAdes" =
     Raise ValueError).
Proof. repeat split; vm_compute; reflexivity. Qed.

(** ** Messages and the writer *)

Section MessageClaims.
Context {rt : Runtime}.

Lemma string_app_assoc (a b c : string) : (a ++ b) ++ c = a ++ (b ++ c).
Proof. induction a as [|x a IH]; cbn; [reflexivity|]. rewrite IH. reflexivity. Qed.

Lemma last_char_app (s : string) (c : ascii) : last_char (s ++ String c "") = Ok c.
Proof.
  induction s as [|x s IH]; [reflexivity|]. cbn [append last_char].
  destruct (s ++ String c "") eqn:E; [destruct s; discriminate|exact IH].
Qed.

Lemma tab_line_not_stop (fields : list string) : tab_line fields <> "stop".
Proof.
  unfold tab_line. intros H.
  pose proof (last_char_app (String.concat (String tab "") fields) newline) as L.
  rewrite H in L. discriminate L.
Qed.

Lemma spades_record_tab_line (l : locals) (x : nat) (m : string) :
  spades_record l x = Ok m ->
  exists fields, List.length fields = 6%nat /\ m = tab_line fields.
Proof.
  unfold spades_record. intros H.
  apply bind_ok in H as [i [_ H]]. apply bind_ok in H as [c [_ H]].
  apply bind_ok in H as [n [_ H]]. apply bind_ok in H as [iso [_ H]].
  apply bind_ok in H as [r [_ H]]. apply bind_ok in H as [f [_ H]].
  injection H as <-.
  exists [str_of_ident i; str_of_float c; str_of_int n; iso; str_of_int r; f].
  split; [reflexivity|]. unfold tab_line. cbn [String.concat].
  rewrite !string_app_assoc. reflexivity.
Qed.

Lemma scaffold_record_tab_line (l : locals) (x : nat) (m : string) :
  scaffold_record l x = Ok m ->
  exists fields, List.length fields = 7%nat /\ m = tab_line fields.
Proof.
  unfold scaffold_record. intros H.
  apply bind_ok in H as [i [_ H]]. apply bind_ok in H as [c [_ H]].
  apply bind_ok in H as [n [_ H]]. apply bind_ok in H as [iso [_ H]].
  apply bind_ok in H as [r [_ H]]. apply bind_ok in H as [f [_ H]].
  apply bind_ok in H as [g [_ H]].
  injection H as <-.
  exists [str_of_ident i; str_of_float c; str_of_int n; iso; str_of_int r; f; g].
  split; [reflexivity|]. unfold tab_line. cbn [String.concat].
  rewrite !string_app_assoc. reflexivity.
Qed.

Lemma spades_worker_in (fs : filesystem) (algn_dir locus priority best_only m : string) :
  In m (fst (spades_worker fs algn_dir locus priority best_only)) ->
  exists l x, spades_record l x = Ok m.
Proof.
  unfold spades_worker. destruct (_ <- _ ;; _) as [l|e]; [|intros []].
  intros I. apply select_in in I as [x R]. eauto.
Qed.

Lemma scaffold_worker_in (fs : filesystem) (algn_dir locus priority best_only m : string) :
  In m (fst (scaffold_worker fs algn_dir locus priority best_only)) ->
  exists l x, scaffold_record l x = Ok m.
Proof.
  unfold scaffold_worker. destruct (_ <- _ ;; _) as [l|e]; [|intros []].
  intros I. apply select_in in I as [x R]. eauto.
Qed.

Lemma listener_until_stop (records rest : list string) :
  (forall m, In m records -> m <> "stop") ->
  forall out, listener (records ++ "stop" :: rest) out = (out ++ joined records, true).
Proof.
  induction records as [|m records IH]; intros H out.
  - cbn. replace (out ++ "") with out; [reflexivity|].
    induction out as [|c out IHo]; cbn; congruence.
  - cbn [app listener].
    destruct (String.eqb m "stop") eqn:E.
    + apply String.eqb_eq in E. exfalso. apply (H m); [left; reflexivity|exact E].
    + rewrite IH by (intros m' I; apply H; right; exact I).
      cbn [joined fold_right]. rewrite string_app_assoc. reflexivity.
Qed.

Lemma listener_waits (records : list string) :
  (forall m, In m records -> m <> "stop") ->
  forall out, snd (listener records out) = false.
Proof.
  induction records as [|m records IH]; intros H out; [reflexivity|].
  cbn [listener]. destruct (String.eqb m "stop") eqn:E.
  - apply String.eqb_eq in E. exfalso. apply (H m); [left; reflexivity|exact E].
  - apply IH. intros m' I. apply H. right. exact I.
Qed.

(** C10. Every message a worker puts on the queue is a line of
    tab-separated fields, six for contigs and seven for scaffolds, that a
    newline ends, and is not the text ['stop']; the writer goes through
    such messages without ending and ends on the first ['stop'], which in a
    run that ends normally is the one [main] puts after the records. *)
Theorem records_are_not_the_sentinel :
  (forall (fs : filesystem) (algn_dir locus priority best_only m : string),
      In m (fst (spades_worker fs algn_dir locus priority best_only)) ->
      (exists fields, List.length fields = 6%nat /\ m = tab_line fields) /\
      m <> "stop") /\
  (forall (fs : filesystem) (algn_dir locus priority best_only m : string),
      In m (fst (scaffold_worker fs algn_dir locus priority best_only)) ->
      (exists fields, List.length fields = 7%nat /\ m = tab_line fields) /\
      m <> "stop") /\
  (forall (records : list string) (out : string),
      (forall m, In m records -> m <> "stop") ->
      snd (listener records out) = false /\
      forall rest, listener (records ++ "stop" :: rest) out = (out ++ joined records, true)) /\
  (forall (fs : filesystem) (assmb_map align_path priority best_only assmb_type : string)
          (queue : list string),
      main fs assmb_map align_path priority best_only assmb_type = Ok queue ->
      exists records,
        queue = (records ++ ["stop"])%list /\
        (forall m, In m records -> m <> "stop") /\
        listener queue "" = (joined records, true)).
Proof.
  assert (Sp : forall (fs : filesystem) (algn_dir locus priority best_only m : string),
      In m (fst (spades_worker fs algn_dir locus priority best_only)) ->
      (exists fields, List.length fields = 6%nat /\ m = tab_line fields) /\
      m <> "stop").
  { intros fs algn_dir locus priority best_only m I.
    apply spades_worker_in in I as (l & x & R).
    destruct (spades_record_tab_line _ _ _ R) as [fields [L ->]].
    split; [eauto|apply tab_line_not_stop]. }
  assert (Sc : forall (fs : filesystem) (algn_dir locus priority best_only m : string),
      In m (fst (scaffold_worker fs algn_dir locus priority best_only)) ->
      (exists fields, List.length fields = 7%nat /\ m = tab_line fields) /\
      m <> "stop").
  { intros fs algn_dir locus priority best_only m I.
    apply scaffold_worker_in in I as (l & x & R).
    destruct (scaffold_record_tab_line _ _ _ R) as [fields [L ->]].
    split; [eauto|apply tab_line_not_stop]. }
  split; [exact Sp|]. split; [exact Sc|]. split.
  - intros records out H. split; [apply listener_waits; exact H|].
    intros rest. apply listener_until_stop. exact H.
  - intros fs assmb_map align_path priority best_only assmb_type queue M.
    unfold main in M. cbv zeta in M.
    destruct (get_all _) as [[]|e]; cbn [bind] in M; [|discriminate].
    injection M as <-.
    exists (flat_map fst (jobs fs assmb_map align_path priority best_only assmb_type)).
    assert (H : forall m,
               In m (flat_map fst (jobs fs assmb_map align_path priority best_only assmb_type)) ->
               m <> "stop").
    { intros m I. apply in_flat_map in I as [job [J I]].
      unfold jobs in J. apply in_flat_map in J as [line [_ J]].
      unfold dispatch in J.
      destruct (String.eqb assmb_type "SPAdes").
      - destruct J as [<-|[]]. apply Sp in I. tauto.
      - destruct (String.eqb assmb_type "HGA"); [|destruct J].
        destruct J as [<-|[]]. apply Sc in I. tauto. }
    split; [reflexivity|]. split; [exact H|].
    apply (listener_until_stop _ [] H "").
Qed.

End MessageClaims.

(** ** The parser *)

Lemma star_then_run (p : ascii -> bool) (k : string -> option string)
  (run rest g : string) :
  all_chars p run = true -> starts_with p rest = false -> k rest = Some g ->
  star_then p k (run ++ rest) = Some g.
Proof.
  intros A S K. induction run as [|c run IH]; cbn [append].
  - destruct rest as [|c rest]; cbn [star_then]; [exact K|].
    cbn [starts_with] in S. rewrite S. exact K.
  - cbn [all_chars] in A. apply andb_true_iff in A as [Pc A].
    cbn [star_then]. rewrite Pc, (IH A). reflexivity.
Qed.

(** [p+] takes a whole run when what follows the run matches the rest of
    the pattern. *)
Lemma re_match_plus (p : ascii -> bool) (r : regex) (run rest opened grp res : string) :
  run_of p run -> starts_with p rest = false ->
  re_match r rest opened grp = Some res ->
  re_match (One p :: Star p :: r) (run ++ rest) opened grp = Some res.
Proof.
  intros [N A] S K. destruct run as [|c run]; [congruence|].
  cbn [all_chars] in A. apply andb_true_iff in A as [Pc A].
  cbn [append re_match]. rewrite Pc.
  apply star_then_run; assumption.
Qed.

Lemma length_append (a b : string) :
  String.length (a ++ b) = (String.length a + String.length b)%nat.
Proof. induction a as [|c a IH]; cbn; [reflexivity|]. rewrite IH. reflexivity. Qed.

Lemma take_app (a b : string) :
  take (String.length (a ++ b) - String.length b) (a ++ b) = a.
Proof.
  induction a as [|c a IH].
  - cbn [append]. rewrite Nat.sub_diag. destruct b; reflexivity.
  - cbn [append String.length].
    replace (S (String.length (a ++ b)) - String.length b)%nat
      with (S (String.length (a ++ b) - String.length b))
      by (rewrite length_append; lia).
    cbn [take]. rewrite IH. reflexivity.
Qed.

Lemma search_of_match (r : regex) (s g : string) :
  re_match r s "" "" = Some g -> re_search r s = Some g.
Proof. intros H. destruct s; cbn [re_search]; rewrite H; reflexivity. Qed.

(** The score pattern on a score line captures the score text. *)
Lemma score_line_group (s : string) :
  all_chars any_char s = true -> re_search score_re (score_line s) = Some s.
Proof.
  intros A. apply search_of_match. unfold score_line.
  cbn -[star_then any_char].
  apply star_then_run; [exact A | reflexivity |].
  cbn [re_match at_eol String.length].
  rewrite Ascii.eqb_refl. f_equal.
  exact (take_app s (String newline "")).
Qed.

Lemma digit_not_space (c : ascii) : is_digit c = true -> is_space c = false.
Proof.
  destruct c as [[] [] [] [] [] [] [] []]; vm_compute; intros H;
    first [reflexivity | discriminate H].
Qed.

Lemma run_starts (p q : ascii -> bool) (run rest : string) :
  (forall c, p c = true -> q c = false) -> run_of p run ->
  starts_with q (run ++ rest) = false.
Proof.
  intros H [N A]. destruct run as [|c run]; [congruence|].
  cbn [all_chars] in A. apply andb_true_iff in A as [Pc _].
  cbn. apply H. exact Pc.
Qed.

Lemma re_match_lit (c : ascii) (r : regex) (s opened grp : string) :
  re_match (lit c :: r) (String c s) opened grp = re_match r s opened grp.
Proof. cbn [re_match lit]. rewrite Ascii.eqb_refl. reflexivity. Qed.

Lemma re_match_one (p : ascii -> bool) (c : ascii) (r : regex) (s opened grp : string) :
  p c = true ->
  re_match (One p :: r) (String c s) opened grp = re_match r s opened grp.
Proof. intros H. cbn [re_match]. rewrite H. reflexivity. Qed.

Lemma re_match_opt_skip (p : ascii -> bool) (c : ascii) (r : regex) (s opened grp : string) :
  p c = false ->
  re_match (Opt p :: r) (String c s) opened grp = re_match r (String c s) opened grp.
Proof. intros H. cbn [re_match]. rewrite H. reflexivity. Qed.

Lemma re_match_opt_take (p : ascii -> bool) (c : ascii) (r : regex)
  (s opened grp res : string) :
  p c = true -> re_match r s opened grp = Some res ->
  re_match (Opt p :: r) (String c s) opened grp = Some res.
Proof. intros H K. cbn [re_match]. rewrite H, K. reflexivity. Qed.

Lemma re_match_open (r : regex) (s opened grp : string) :
  re_match (GroupOpen :: r) s opened grp = re_match r s s grp.
Proof. reflexivity. Qed.

Lemma re_match_close (r : regex) (s opened grp : string) :
  re_match (GroupClose :: r) s opened grp =
  re_match r s opened (take (String.length opened - String.length s) opened).
Proof. reflexivity. Qed.

Lemma re_match_end (grp opened : string) :
  re_match [Eol] (String newline "") opened grp = Some grp.
Proof. reflexivity. Qed.

(** The part of the identity pattern from the opening of the group on, on
    the percentage and what closes the line. *)
Lemma percentage_group (w f opened grp : string) :
  run_of is_digit w -> run_of is_digit f ->
  re_match
    ([GroupOpen] ++ plus is_digit ++ [lit "."] ++ plus is_digit ++
     [GroupClose; lit "%"; lit ")"; Eol])%list
    (w ++ "." ++ f ++ "%)" ++ String newline "") opened grp
  = Some (w ++ "." ++ f).
Proof.
  intros Hw Hf. cbn [app plus]. rewrite re_match_open.
  apply re_match_plus; [exact Hw | reflexivity |].
  cbn [append]. rewrite re_match_lit.
  apply re_match_plus; [exact Hf | reflexivity |].
  rewrite re_match_close. cbn [append]. rewrite !re_match_lit, re_match_end.
  f_equal.
  assert (E : forall tail : string,
             w ++ String "." (f ++ tail) = (w ++ String "." f) ++ tail).
  { intros tail. rewrite string_app_assoc. reflexivity. }
  rewrite E. apply take_app.
Qed.

(** The identity pattern on an identity line captures the percentage. *)
Lemma identity_line_group (pad n d sp w f : string) :
  run_of is_space pad -> run_of is_digit n -> run_of is_digit d ->
  (sp = "" \/ exists c, sp = String c "" /\ is_space c = true) ->
  run_of is_digit w -> run_of is_digit f ->
  re_search identity_re (identity_line pad n d sp w f) = Some (w ++ "." ++ f).
Proof.
  intros Hpad Hn Hd Hsp Hw Hf. apply search_of_match.
  unfold identity_line, identity_re.
  cbn [app lits plus append].
  rewrite re_match_lit, (re_match_one is_space) by reflexivity.
  rewrite !re_match_lit.
  apply re_match_plus; [exact Hpad | |].
  { apply (run_starts is_digit is_space); [exact digit_not_space | exact Hn]. }
  apply re_match_plus; [exact Hn | reflexivity |].
  rewrite re_match_lit.
  apply re_match_plus; [exact Hd | reflexivity |].
  rewrite (re_match_one is_space) by reflexivity. rewrite re_match_lit.
  pose proof (percentage_group w f) as T. cbn [app plus] in T.
  destruct Hsp as [->|[c [-> Sc]]].
  - cbn [append]. destruct Hw as [Nw Aw]. destruct w as [|c w]; [congruence|].
    cbn [all_chars] in Aw. apply andb_true_iff in Aw as [Dc Aw].
    cbn [append] in T |- *.
    rewrite (re_match_opt_skip is_space) by (apply digit_not_space; exact Dc).
    apply T; [|exact Hf].
    split; [exact Nw|]. cbn [all_chars]. rewrite Dc, Aw. reflexivity.
  - cbn [append] in T |- *. apply (re_match_opt_take is_space); [exact Sc|].
    apply T; assumption.
Qed.

Section ParserClaims.
Context {rt : Runtime}.

Lemma parse_lines_filler (pre rest : list string) (st : stats) :
  forallb header_filler pre = true ->
  parse_lines (pre ++ rest) st = parse_lines rest st.
Proof.
  induction pre as [|line pre IH]; intros H; [reflexivity|].
  cbn [forallb] in H. apply andb_true_iff in H as [F H].
  unfold header_filler, unmarked in F.
  apply andb_true_iff in F as [F Fa]. apply andb_true_iff in F as [Fs Fi].
  apply negb_true_iff in Fa, Fs, Fi.
  cbn [app parse_lines]. rewrite Fs, Fi, Fa. apply IH. exact H.
Qed.

Lemma parse_lines_unmarked (lines : list string) (st : stats) :
  forallb unmarked lines = true -> parse_lines lines st = Ok st.
Proof.
  induction lines as [|line lines IH]; intros H; [reflexivity|].
  cbn [forallb] in H. apply andb_true_iff in H as [F H].
  unfold unmarked in F. apply andb_true_iff in F as [Fs Fi].
  apply negb_true_iff in Fs, Fi.
  cbn [parse_lines]. rewrite Fs, Fi.
  destruct (startswith line "a.trimmed"); [reflexivity|]. apply IH. exact H.
Qed.

Lemma parse_lines_no_score (lines : list string) :
  (forall line, In line lines -> startswith line "# Score:" = false) ->
  forall st st', parse_lines lines st = Ok st' -> stats_score st' = stats_score st.
Proof.
  induction lines as [|line lines IH]; intros H st st' P; cbn [parse_lines] in P.
  - injection P as <-. reflexivity.
  - rewrite (H line (or_introl eq_refl)) in P.
    assert (H' : forall l, In l lines -> startswith l "# Score:" = false)
      by (intros l I; apply H; right; exact I).
    destruct (startswith line "# Identity:").
    + destruct (re_search identity_re line) as [g|]; [|discriminate].
      apply bind_ok in P as [x [_ P]]. apply (IH H') in P. exact P.
    + destruct (startswith line "a.trimmed").
      * injection P as <-. reflexivity.
      * apply (IH H') in P. exact P.
Qed.

Lemma parse_lines_no_identity (lines : list string) :
  (forall line, In line lines -> startswith line "# Identity:" = false) ->
  forall st st', parse_lines lines st = Ok st' -> stats_id st' = stats_id st.
Proof.
  induction lines as [|line lines IH]; intros H st st' P; cbn [parse_lines] in P.
  - injection P as <-. reflexivity.
  - rewrite (H line (or_introl eq_refl)) in P.
    assert (H' : forall l, In l lines -> startswith l "# Identity:" = false)
      by (intros l I; apply H; right; exact I).
    destruct (startswith line "# Score:").
    + destruct (re_search score_re line) as [g|]; [|discriminate].
      apply (IH H') in P. exact P.
    + destruct (startswith line "a.trimmed").
      * injection P as <-. reflexivity.
      * apply (IH H') in P. exact P.
Qed.

Lemma startswith_app (p x : string) : startswith (p ++ x) p = true.
Proof.
  unfold startswith. induction p as [|c p IH]; cbn.
  - destruct x; reflexivity.
  - destruct (ascii_dec c c); [exact IH|congruence].
Qed.

Lemma parse_score_line (s : string) (rest : list string) (st : stats) :
  all_chars any_char s = true ->
  parse_lines (score_line s :: rest) st =
  parse_lines rest (mkStats (ScoreText s) (stats_id st)).
Proof.
  intros A. cbn [parse_lines].
  change (startswith (score_line s) "# Score:") with true. cbn match.
  rewrite (score_line_group s A). reflexivity.
Qed.

Lemma parse_identity_line (pad n d sp w f : string) (x : spec_float)
  (rest : list string) (st : stats) :
  run_of is_space pad -> run_of is_digit n -> run_of is_digit d ->
  (sp = "" \/ exists c, sp = String c "" /\ is_space c = true) ->
  run_of is_digit w -> run_of is_digit f ->
  float_of_str (w ++ "." ++ f) = Ok x ->
  parse_lines (identity_line pad n d sp w f :: rest) st =
  parse_lines rest (mkStats (stats_score st) (IdPct x)).
Proof.
  intros Hpad Hn Hd Hsp Hw Hf Hx. cbn [parse_lines].
  change (startswith (identity_line pad n d sp w f) "# Score:") with false.
  cbn match. unfold identity_line at 1. rewrite startswith_app.
  rewrite (identity_line_group pad n d sp w f Hpad Hn Hd Hsp Hw Hf), Hx.
  reflexivity.
Qed.

(** The parser fails on a marker line only: one that does not fit its
    pattern, or an identity line whose percentage [float] refuses. *)
Lemma parse_lines_fails (lines : list string) (e : exn) :
  forall st : stats,
    parse_lines lines st = Raise e ->
    exists line : string,
      In line lines /\
      ((startswith line "# Score:" = true /\ re_search score_re line = None /\
        e = AttributeError) \/
       (startswith line "# Score:" = false /\ startswith line "# Identity:" = true /\
        ((re_search identity_re line = None /\ e = AttributeError) \/
         exists g, re_search identity_re line = Some g /\ float_of_str g = Raise e))).
Proof.
  induction lines as [|line lines IH]; intros st H; cbn [parse_lines] in H;
    [discriminate|].
  assert (Later : forall st', parse_lines lines st' = Raise e ->
            exists line', In line' (line :: lines) /\
              ((startswith line' "# Score:" = true /\ re_search score_re line' = None /\
                e = AttributeError) \/
               (startswith line' "# Score:" = false /\
                startswith line' "# Identity:" = true /\
                ((re_search identity_re line' = None /\ e = AttributeError) \/
                 exists g, re_search identity_re line' = Some g /\
                           float_of_str g = Raise e)))).
  { intros st' H'. destruct (IH st' H') as [line' [I D]].
    exists line'. split; [right; exact I|exact D]. }
  destruct (startswith line "# Score:") eqn:S.
  - destruct (re_search score_re line) as [g|] eqn:R; [eauto|].
    injection H as <-. exists line. split; [left; reflexivity|]. left. auto.
  - destruct (startswith line "# Identity:") eqn:I.
    + destruct (re_search identity_re line) as [g|] eqn:R.
      * destruct (float_of_str g) as [x|e'] eqn:F; cbn [bind] in H; [eauto|].
        injection H as <-. exists line. split; [left; reflexivity|].
        right. split; [exact S|]. split; [exact I|]. right. eauto.
      * injection H as <-. exists line. split; [left; reflexivity|].
        right. split; [exact S|]. split; [exact I|]. left. auto.
    + destruct (startswith line "a.trimmed"); [discriminate|eauto].
Qed.

(** C3 (amended). [parse_alignment] does not fail when a marker is absent.
    A report with neither marker gives score 0 and identity 0; a report
    whose only marker line is a score line gives the text of the score and
    identity 0; one whose only marker line is an identity line gives score
    0 and, as a float, the percentage in parentheses. When the parser
    fails, it fails on a marker line that is present: a line that does not
    fit its pattern, or an identity line whose percentage [float] refuses.
    When it returns, the entry of an absent marker is the 0 it started
    with. When the header holds a score line and an identity line, in
    either order, the parser returns the text of the score and, as a float,
    the percentage in parentheses on the identity line. *)
Theorem parse_alignment_markers :
  (forall text : string,
      forallb unmarked (file_lines text) = true ->
      parse_alignment text = Ok (mkStats ScoreUnset IdUnset)) /\
  (forall (text : string) (pre post : list string) (s : string),
      all_chars any_char s = true ->
      forallb header_filler pre = true -> forallb unmarked post = true ->
      file_lines text = (pre ++ score_line s :: post)%list ->
      parse_alignment text = Ok (mkStats (ScoreText s) IdUnset)) /\
  (forall (text : string) (pre post : list string)
          (pad n d sp w f : string) (x : spec_float),
      run_of is_space pad -> run_of is_digit n -> run_of is_digit d ->
      (sp = "" \/ exists c, sp = String c "" /\ is_space c = true) ->
      run_of is_digit w -> run_of is_digit f ->
      float_of_str (w ++ "." ++ f) = Ok x ->
      forallb header_filler pre = true -> forallb unmarked post = true ->
      file_lines text = (pre ++ identity_line pad n d sp w f :: post)%list ->
      parse_alignment text = Ok (mkStats ScoreUnset (IdPct x))) /\
  (forall (text : string) (e : exn),
      parse_alignment text = Raise e ->
      exists line : string,
        In line (file_lines text) /\
        ((startswith line "# Score:" = true /\ re_search score_re line = None /\
          e = AttributeError) \/
         (startswith line "# Score:" = false /\ startswith line "# Identity:" = true /\
          ((re_search identity_re line = None /\ e = AttributeError) \/
           exists g, re_search identity_re line = Some g /\
                     float_of_str g = Raise e)))) /\
  (forall (text : string) (st : stats),
      parse_alignment text = Ok st ->
      ((forall line, In line (file_lines text) -> startswith line "# Score:" = false) ->
       stats_score st = ScoreUnset) /\
      ((forall line, In line (file_lines text) -> startswith line "# Identity:" = false) ->
       stats_id st = IdUnset)) /\
  (forall (text : string) (pre mid post : list string)
          (s pad n d sp w f : string) (x : spec_float),
      all_chars any_char s = true ->
      run_of is_space pad -> run_of is_digit n -> run_of is_digit d ->
      (sp = "" \/ exists c, sp = String c "" /\ is_space c = true) ->
      run_of is_digit w -> run_of is_digit f ->
      float_of_str (w ++ "." ++ f) = Ok x ->
      forallb header_filler pre = true -> forallb header_filler mid = true ->
      forallb unmarked post = true ->
      file_lines text =
        (pre ++ identity_line pad n d sp w f :: mid ++ score_line s :: post)%list \/
      file_lines text =
        (pre ++ score_line s :: mid ++ identity_line pad n d sp w f :: post)%list ->
      parse_alignment text = Ok (mkStats (ScoreText s) (IdPct x))).
Proof.
  split; [|split; [|split; [|split; [|split]]]].
  - intros text H. apply parse_lines_unmarked. exact H.
  - intros text pre post s A Fp Fq L. unfold parse_alignment. rewrite L.
    rewrite (parse_lines_filler _ _ _ Fp).
    rewrite (parse_score_line s) by assumption.
    apply parse_lines_unmarked. exact Fq.
  - intros text pre post pad n d sp w f x Hpad Hn Hd Hsp Hw Hf Hx Fp Fq L.
    unfold parse_alignment. rewrite L.
    rewrite (parse_lines_filler _ _ _ Fp).
    rewrite (parse_identity_line pad n d sp w f x) by assumption.
    apply parse_lines_unmarked. exact Fq.
  - intros text e H. eapply parse_lines_fails. exact H.
  - intros text st P. split; intros H.
    + apply (parse_lines_no_score _ H) in P. exact P.
    + apply (parse_lines_no_identity _ H) in P. exact P.
  - intros text pre mid post s pad n d sp w f x A Hpad Hn Hd Hsp Hw Hf Hx Fp Fm Fq [L|L];
      unfold parse_alignment; rewrite L.
    + rewrite (parse_lines_filler _ _ _ Fp).
      rewrite (parse_identity_line pad n d sp w f x) by assumption.
      rewrite (parse_lines_filler _ _ _ Fm).
      rewrite (parse_score_line s) by assumption.
      apply parse_lines_unmarked. exact Fq.
    + rewrite (parse_lines_filler _ _ _ Fp).
      rewrite (parse_score_line s) by assumption.
      rewrite (parse_lines_filler _ _ _ Fm).
      rewrite (parse_identity_line pad n d sp w f x) by assumption.
      apply parse_lines_unmarked. exact Fq.
Qed.

End ParserClaims.

Lemma parse_alignment_markers_witness :
  (exists x : spec_float,
      decimal_float "75.0" = Ok x /\
      file_lines report_75 =
        (firstn 14 (file_lines report_75)
         ++ identity_line "     " "3" "4" "" "75" "0"
         :: [] ++ score_line "11.0" :: skipn 16 (file_lines report_75))%list /\
      parse_alignment (rt := example_runtime) report_75 =
        Ok (mkStats (ScoreText "11.0") (IdPct x))) /\
  (file_lines report_without_identity =
     (firstn 14 (file_lines report_without_identity)
      ++ score_line "11.0" :: skipn 15 (file_lines report_without_identity))%list /\
   parse_alignment (rt := example_runtime) report_without_identity =
     Ok (mkStats (ScoreText "11.0") IdUnset)).
Proof.
  split.
  - eexists. split; [vm_compute; reflexivity|]. split; [vm_compute; reflexivity|].
    apply (proj2 (proj2 (proj2 (proj2 (proj2 (@parse_alignment_markers example_runtime)))))
                 report_75 (firstn 14 (file_lines report_75)) []
                 (skipn 16 (file_lines report_75))
                 "11.0" "     " "3" "4" "" "75" "0").
    + reflexivity.
    + split; [discriminate|reflexivity].
    + split; [discriminate|reflexivity].
    + split; [discriminate|reflexivity].
    + left. reflexivity.
    + split; [discriminate|reflexivity].
    + split; [discriminate|reflexivity].
    + vm_compute. reflexivity.
    + vm_compute. reflexivity.
    + reflexivity.
    + vm_compute. reflexivity.
    + left. vm_compute. reflexivity.
  - split; [vm_compute; reflexivity|].
    apply (proj1 (proj2 (@parse_alignment_markers example_runtime))
                 report_without_identity
                 (firstn 14 (file_lines report_without_identity))
                 (skipn 15 (file_lines report_without_identity)) "11.0").
    + reflexivity.
    + vm_compute. reflexivity.
    + vm_compute. reflexivity.
    + vm_compute. reflexivity.
Defined.

(** C3 as stated fails on a report with no identity line and on one with
    neither marker: the parser returns, the entries of the absent markers
    being the 0 they start with. *)
Lemma parse_alignment_absent_markers :
  (forall line, In line (file_lines report_without_identity) ->
                startswith line "# Identity:" = false) /\
  parse_alignment (rt := example_runtime) report_without_identity =
    Ok (mkStats (ScoreText "11.0") IdUnset) /\
  forallb unmarked (file_lines report_without_markers) = true /\
  parse_alignment (rt := example_runtime) report_without_markers =
    Ok (mkStats ScoreUnset IdUnset).
Proof.
  split.
  - intros line I. vm_compute in I.
    repeat (destruct I as [<-|I]; [reflexivity|]). destruct I.
  - repeat split; vm_compute; reflexivity.
Qed.

Lemma records_are_not_the_sentinel_witness :
  exists queue : list string,
    main (rt := example_runtime) example_fs example_map_L1 "out" "" "no" "SPAdes"
    = Ok queue /\
    queue =
      [tab_line ["75.0"; "1.0"; "4"; "IsoA"; "4"; "out/L1/IsoA.1.trimmed_align.txt"];
       tab_line ["100.0"; "1.0"; "4"; "IsoB"; "4"; "out/L1/IsoB.1.trimmed_align.txt"];
       tab_line ["100.0"; "1.0"; "4"; "IsoC"; "4"; "out/L1/IsoC.1.trimmed_align.txt"];
       "stop"] /\
    exists records,
      queue = (records ++ ["stop"])%list /\
      (forall m, In m records -> m <> "stop") /\
      listener queue "" = (joined records, true).
Proof.
  eexists. split; [vm_compute; reflexivity|]. split; [vm_compute; reflexivity|].
  apply (proj2 (proj2 (proj2 (@records_are_not_the_sentinel example_runtime)))
               example_fs example_map_L1 "out" "" "no" "SPAdes").
  vm_compute. reflexivity.
Defined.

(** ** The identities the parser returns are numbers *)

Lemma star_then_some (p : ascii -> bool) (k : string -> option string) (s g : string) :
  star_then p k s = Some g ->
  exists run rest, s = run ++ rest /\ all_chars p run = true /\ k rest = Some g.
Proof.
  induction s as [|c s IH]; cbn [star_then]; intros H.
  - exists "", "". auto.
  - destruct (p c) eqn:Pc.
    + destruct (star_then p k s) as [g'|] eqn:E.
      * injection H as ->. destruct (IH eq_refl) as (run & rest & -> & A & K).
        exists (String c run), rest. cbn [all_chars append]. rewrite Pc. auto.
      * exists "", (String c s). auto.
    + exists "", (String c s). auto.
Qed.

(** Atoms outside the group leave the group as it is. *)
Lemma re_match_groupless (r : regex) :
  forallb groupless r = true ->
  forall s opened grp res, re_match r s opened grp = Some res -> res = grp.
Proof.
  induction r as [|a r IH]; intros G s opened grp res H.
  - injection H as <-. reflexivity.
  - cbn [forallb] in G. apply andb_true_iff in G as [Ga G].
    destruct a; try discriminate Ga; cbn [re_match] in H.
    + destruct s as [|c s]; [discriminate|]. destruct (p c); [|discriminate].
      eapply IH; eauto.
    + apply star_then_some in H as (run & rest & _ & _ & K). eapply IH; eauto.
    + destruct s as [|c s]; [eapply IH; eauto|].
      destruct (p c); [|eapply IH; eauto].
      destruct (re_match r s opened grp) as [g|] eqn:E.
      * injection H as <-. eapply IH; eauto.
      * eapply IH; eauto.
    + destruct (at_eol s); [|discriminate]. eapply IH; eauto.
Qed.

(** A match of a pattern that starts with atoms outside the group goes on,
    somewhere in the input, with a match of the rest of the pattern. *)
Lemma re_match_skip (r1 r2 : regex) :
  forallb groupless r1 = true ->
  forall s opened grp res,
    re_match (r1 ++ r2)%list s opened grp = Some res ->
    exists s', re_match r2 s' opened grp = Some res.
Proof.
  induction r1 as [|a r1 IH]; intros G s opened grp res H.
  - eauto.
  - cbn [forallb] in G. apply andb_true_iff in G as [Ga G].
    destruct a; try discriminate Ga; cbn [app re_match] in H.
    + destruct s as [|c s]; [discriminate|]. destruct (p c); [|discriminate].
      eapply IH; eauto.
    + apply star_then_some in H as (run & rest & _ & _ & K). eapply IH; eauto.
    + destruct s as [|c s]; [eapply IH; eauto|].
      destruct (p c); [|eapply IH; eauto].
      destruct (re_match (r1 ++ r2)%list s opened grp) as [g|] eqn:E.
      * injection H as <-. eapply IH; eauto.
      * eapply IH; eauto.
    + destruct (at_eol s); [|discriminate]. eapply IH; eauto.
Qed.

Lemma re_search_some (r : regex) (s g : string) :
  re_search r s = Some g -> exists s', re_match r s' "" "" = Some g.
Proof.
  induction s as [|c s IH]; cbn [re_search]; intros H.
  - destruct (re_match r "" "" "") as [g'|] eqn:E; [|discriminate].
    injection H as <-. eauto.
  - destruct (re_match r (String c s) "" "") as [g'|] eqn:E.
    + injection H as <-. eauto.
    + apply IH. exact H.
Qed.

(** [p+] matches a run. *)
Lemma re_match_plus_some (p : ascii -> bool) (r : regex) (s opened grp res : string) :
  re_match (One p :: Star p :: r) s opened grp = Some res ->
  exists run rest, s = run ++ rest /\ run_of p run /\
                   re_match r rest opened grp = Some res.
Proof.
  cbn [re_match]. destruct s as [|c s]; [discriminate|].
  destruct (p c) eqn:Pc; [|discriminate]. intros H.
  apply star_then_some in H as (run & rest & -> & A & K).
  exists (String c run), rest. split; [reflexivity|]. split; [|exact K].
  split; [discriminate|]. cbn [all_chars]. rewrite Pc, A. reflexivity.
Qed.

Lemma re_match_lit_some (c : ascii) (r : regex) (s opened grp res : string) :
  re_match (lit c :: r) s opened grp = Some res ->
  exists rest, s = String c rest /\ re_match r rest opened grp = Some res.
Proof.
  cbn [re_match lit]. destruct s as [|d s]; [discriminate|].
  destruct (Ascii.eqb c d) eqn:E; [|discriminate].
  apply Ascii.eqb_eq in E. subst d. eauto.
Qed.

(** The identity pattern captures a decimal: digits, a dot, digits. *)
Lemma identity_group_decimal (line g : string) :
  re_search identity_re line = Some g ->
  exists w f, run_of is_digit w /\ run_of is_digit f /\ g = w ++ "." ++ f.
Proof.
  intros H. apply re_search_some in H as [s H].
  change identity_re with
    (([lit "#"; One is_space] ++ lits "Identity:" ++ plus is_space ++
      plus is_digit ++ [lit "/"] ++ plus is_digit ++
      [One is_space; lit "("; Opt is_space]) ++
     GroupOpen :: One is_digit :: Star is_digit :: lit "." ::
     One is_digit :: Star is_digit ::
     GroupClose :: [lit "%"; lit ")"; Eol])%list in H.
  apply re_match_skip in H as [s' H]; [|reflexivity].
  rewrite re_match_open in H.
  apply re_match_plus_some in H as (w & rest & -> & Hw & H).
  apply re_match_lit_some in H as (rest' & -> & H).
  apply re_match_plus_some in H as (f & tail & -> & Hf & H).
  rewrite re_match_close in H.
  apply re_match_groupless in H; [|reflexivity].
  exists w, f. split; [exact Hw|]. split; [exact Hf|]. subst g.
  assert (E : w ++ String "." (f ++ tail) = (w ++ "." ++ f) ++ tail).
  { rewrite !string_app_assoc. reflexivity. }
  rewrite E. apply take_app.
Qed.

Section NumberFacts.
Context {rt : Runtime}.
Hypothesis decimals : decimal_is_number.

Lemma parse_lines_number (lines : list string) :
  forall st st' : stats,
    number (ident_float (stats_id st)) ->
    parse_lines lines st = Ok st' ->
    number (ident_float (stats_id st')).
Proof.
  induction lines as [|line lines IH]; intros st st' N P; cbn [parse_lines] in P.
  - injection P as <-. exact N.
  - destruct (startswith line "# Score:").
    + destruct (re_search score_re line) as [g|]; [|discriminate].
      apply IH in P; [exact P | exact N].
    + destruct (startswith line "# Identity:").
      * destruct (re_search identity_re line) as [g|] eqn:R; [|discriminate].
        apply bind_ok in P as [x [X P]].
        apply identity_group_decimal in R as (w & f & Hw & Hf & ->).
        assert (Nx : number x) by (exact (decimals w f x Hw Hf X)).
        apply IH in P; [exact P | exact Nx].
      * destruct (startswith line "a.trimmed").
        -- injection P as <-. exact N.
        -- apply IH in P; [exact P | exact N].
Qed.

(** The reported identity of a candidate of [spades_worker] is a number. *)
Lemma spades_candidate_number (algn_dir : string) (f : file) (c : candidate) :
  spades_candidate algn_dir f = Ok c -> number (ident_float (c_id c)).
Proof.
  intros H. apply spades_candidate_identity in H as [st [P ->]].
  unfold parse_alignment in P. eapply parse_lines_number; [|exact P]. reflexivity.
Qed.

Lemma spades_candidates_number (algn_dir : string) (fs : list file) (cs : list candidate) :
  traverse (spades_candidate algn_dir) fs = Ok cs ->
  Forall (fun c => number (ident_float (c_id c))) cs.
Proof.
  intros T. apply traverse_Forall2 in T.
  induction T as [|f c fs' cs' Hc _ IH]; constructor; auto.
  eapply spades_candidate_number; eauto.
Qed.

End NumberFacts.

(** ** The runtime of the examples reads decimals as numbers *)

Lemma shr_1_nonneg (mrs : shr_record) : 0 <= shr_m mrs -> 0 <= shr_m (shr_1 mrs).
Proof.
  destruct mrs as [m r s]. cbn [shr_m]. intros H.
  destruct m as [|[p|p|]|p]; cbn; lia.
Qed.

Lemma iter_shr_1_nonneg (p : positive) :
  forall mrs : shr_record, 0 <= shr_m mrs -> 0 <= shr_m (iter_pos shr_1 p mrs).
Proof.
  induction p as [p IH|p IH|]; intros mrs H; cbn [iter_pos].
  - apply IH, IH, shr_1_nonneg, H.
  - apply IH, IH, H.
  - apply shr_1_nonneg, H.
Qed.

Lemma shr_fexp_nonneg (m e : Z) (l : location) :
  0 <= m -> 0 <= shr_m (fst (shr_fexp prec emax m e l)).
Proof.
  intros H. unfold shr_fexp, shr.
  assert (R : 0 <= shr_m (shr_record_of_loc m l)).
  { destruct l as [|[]]; exact H. }
  destruct (fexp prec emax (Zdigits2 m + e) - e) as [|p|p]; cbn [fst];
    [exact R | apply iter_shr_1_nonneg; exact R | exact R].
Qed.

Lemma round_nearest_even_nonneg (m : Z) (l : location) :
  0 <= m -> 0 <= round_nearest_even m l.
Proof.
  intros H. destruct l as [|[]]; cbn [round_nearest_even]; try lia.
  destruct (Z.even m); lia.
Qed.

Lemma binary_round_aux_number (s : bool) (m e : Z) (l : location) :
  0 <= m -> number (binary_round_aux prec emax s m e l).
Proof.
  intros H. unfold binary_round_aux.
  pose proof (shr_fexp_nonneg m e l H) as H1.
  destruct (shr_fexp prec emax m e l) as [mrs' e']. cbn [fst] in H1.
  pose proof (shr_fexp_nonneg _ e' loc_Exact
                (round_nearest_even_nonneg _ (loc_of_shr_record mrs') H1)) as H2.
  destruct (shr_fexp prec emax _ e' loc_Exact) as [mrs'' e'']. cbn [fst] in H2.
  destruct (shr_m mrs'') as [|p|p]; [reflexivity | | lia].
  destruct (e'' <=? emax - prec); reflexivity.
Qed.

Lemma true_div_number (n m : Z) :
  0 < m -> number (SFdiv prec emax (sf_of_int n) (sf_of_int m)).
Proof.
  intros Hm. destruct m as [|q|q]; try lia.
  assert (F : forall (s : bool) (p : positive),
             number (SFdiv prec emax (S754_finite s p 0) (S754_finite false q 0))).
  { intros s p. cbn [SFdiv]. unfold SFdiv_core_binary.
    set (m' := match _ - _ - _ with Z0 => Zpos p | Zpos _ => _ | Zneg _ => 0 end).
    assert (Hm' : 0 <= m').
    { subst m'. destruct (_ - _ - _); [lia | apply Z.shiftl_nonneg; lia | lia]. }
    pose proof (Z.div_pos m' (Zpos q) Hm' ltac:(lia)) as D.
    unfold Z.div in D. destruct (Z.div_eucl m' (Zpos q)) as [quo r].
    apply binary_round_aux_number. exact D. }
  destruct n as [|p|p]; [reflexivity | apply F | apply F].
Qed.

Lemma unsigned_float_number (s : string) (x : spec_float) :
  unsigned_float s = Ok x -> number x.
Proof.
  unfold unsigned_float.
  destruct (String.eqb _ ""); [discriminate|].
  destruct (digits_value _ 0) as [n|]; [|discriminate].
  intros H. injection H as <-. apply true_div_number.
  apply Z.pow_pos_nonneg; lia.
Qed.

Lemma decimal_float_number (s : string) (x : spec_float) :
  decimal_float s = Ok x -> number x.
Proof.
  unfold decimal_float. cbv zeta.
  destruct (startswith (trimmed s) "-").
  - destruct (unsigned_float _) as [y|] eqn:U; cbn [bind]; [|discriminate].
    intros H. injection H as <-. apply unsigned_float_number in U.
    destruct y; [reflexivity | reflexivity | discriminate | reflexivity].
  - destruct (startswith (trimmed s) "+"); apply unsigned_float_number.
Qed.

Lemma example_decimals : decimal_is_number (rt := example_runtime).
Proof. intros w f x _ _ H. exact (decimal_float_number _ _ H). Qed.

(** ** Selection of the best candidate *)

Section BestClaims.
Context {rt : Runtime}.

Lemma nth_error_map_some {A B : Type} (f : A -> B) (l : list A) (i : nat) (y : B) :
  nth_error (map f l) i = Some y -> exists x, nth_error l i = Some x /\ f x = y.
Proof.
  rewrite nth_error_map. destruct (nth_error l i) as [x|]; [|discriminate].
  intros H. injection H as <-. eauto.
Qed.

Lemma ident_gtb_rank (x y : ident) :
  number (ident_float x) -> number (ident_float y) ->
  (ident_gtb x y = true <-> key_lt (key (ident_float y)) (key (ident_float x))).
Proof. apply float_gtb_key. Qed.

(** C1 (amended). Under the BestOnly policy ([best_only] is ["yes"]), a
    locus all of whose retained files are valid candidates, at least one,
    yields exactly one record, the record of one of them. For contigs it is
    the candidate whose reported percent identity is the greatest, the first
    in scan order among those that reach it ([float] reading a decimal as a
    number). For scaffolds, whose files are reports of two sequences, the
    record ends with the gap-free identity of its candidate. *)
Theorem best_only_one_record :
  (forall (fs : filesystem) (algn_dir locus priority : string)
          (entries : list file) (cs : list candidate),
      fs algn_dir = Ok entries ->
      traverse (spades_candidate algn_dir)
               (filter (spades_retained priority) entries) = Ok cs ->
      cs <> [] ->
      decimal_is_number ->
      exists (best : nat) (c : candidate),
        nth_error cs best = Some c /\
        spades_worker fs algn_dir locus priority "yes" = ([contig_line c], Ok tt) /\
        Forall (fun c' => SFleb (ident_float (c_id c')) (ident_float (c_id c)) = true) cs /\
        (forall j c', (j < best)%nat -> nth_error cs j = Some c' ->
                      SFltb (ident_float (c_id c')) (ident_float (c_id c)) = true)) /\
  (forall (fs : filesystem) (algn_dir locus priority : string)
          (entries : list file) (cs : list candidate),
      fs algn_dir = Ok entries ->
      (forall f, In f entries -> scaffold_retained priority f = true ->
                 pairwise f = true) ->
      traverse (scaffold_candidate algn_dir)
               (filter (scaffold_retained priority) entries) = Ok cs ->
      cs <> [] ->
      exists (best : nat) (c : candidate),
        nth_error cs best = Some c /\
        scaffold_worker fs algn_dir locus priority "yes" =
          ([scaffold_line c (c_nogap c)], Ok tt)).
Proof.
  split.
  - intros fs algn_dir locus priority entries cs Hfs T Ne Decimals.
    pose proof (spades_candidates_number Decimals _ _ _ T) as Good.
    destruct (spades_scan_ok _ _ _ _ T) as [l [S G]].
    assert (Hd : ids l = map c_id cs).
    { destruct G as (_ & _ & Hd & _). exact Hd. }
    assert (Ha : aligned l = true).
    { destruct G as (_ & _ & _ & _ & _ & _ & _ & _ & Ha). rewrite Ha.
      cbn [fresh_locals aligned orb]. apply existsb_filter.
      intros F. rewrite F in T. cbn in T. congruence. }
    destruct (index_of_max_first ident_gtb ident_eqb (map c_id cs))
      as (best & k & m & I & M & B & Nk & Eq & First).
    { destruct cs; [congruence|discriminate]. }
    rewrite length_map in B.
    destruct (nth_error cs best) as [c|] eqn:Nc;
      [|apply nth_error_None in Nc; lia].
    exists best, c. split; [exact Nc|].
    assert (GoodIds : Forall (fun v => number (ident_float v)) (map c_id cs)).
    { apply Forall_map. exact Good. }
    pose proof (max_pos_greatest ident_gtb (fun v => key (ident_float v))
                  (fun v => number (ident_float v)) ident_gtb_rank
                  _ _ _ GoodIds M) as Top.
    assert (Gm : number (ident_float m)).
    { rewrite Forall_forall in GoodIds. apply GoodIds.
      eapply nth_error_In; eauto. }
    assert (Gc : number (ident_float (c_id c))).
    { rewrite Forall_forall in Good. apply Good. eapply nth_error_In; eauto. }
    assert (K : key (ident_float (c_id c)) = key (ident_float m)).
    { destruct Eq as [->|[x [Nx Ex]]].
      - apply nth_error_map_some in Nk as [c0 [N0 <-]]. congruence.
      - apply nth_error_map_some in Nx as [c0 [N0 <-]].
        assert (c0 = c) by congruence. subst c0.
        apply float_eqb_key; assumption. }
    split; [|split].
    + unfold spades_worker, listdir. rewrite Hfs. cbn [bind]. rewrite S.
      unfold select. rewrite Ha. cbn [negb String.eqb Ascii.eqb Bool.eqb].
      unfold spades_best. rewrite Hd, I. cbn [bind].
      rewrite (spades_record_candidate _ _ _ _ _ G Nc). reflexivity.
    + rewrite Forall_forall in *. intros c' Ic'.
      apply SFleb_key; [apply Good; exact Ic' | exact Gc |].
      rewrite K. apply (Top (c_id c')). apply in_map. exact Ic'.
    + intros j c' Lt Nj.
      assert (Gc' : number (ident_float (c_id c'))).
      { rewrite Forall_forall in Good. apply Good. eapply nth_error_In; eauto. }
      apply SFltb_key; [exact Gc' | exact Gc |]. rewrite K.
      apply key_total.
      * rewrite Forall_forall in Top. apply (Top (c_id c')). apply in_map.
        eapply nth_error_In; eauto.
      * intros E. symmetry in E.
        apply (float_eqb_key _ _ Gc' Gm) in E.
        assert (F : ident_eqb (c_id c') m = false).
        { apply (First j); [exact Lt|]. rewrite nth_error_map, Nj. reflexivity. }
        unfold ident_eqb in F. congruence.
  - intros fs algn_dir locus priority entries cs Hfs P T Ne.
    destruct (scaffold_scan_ok _ _ _ _ T) as [l [S G]].
    pose proof (pairwise_candidates _ _ _ _ P T) as Single.
    assert (Hg : nogap_id l = map c_nogap cs).
    { destruct G as (_ & _ & _ & _ & _ & _ & _ & Hg & _).
      rewrite Hg. cbn [fresh_locals nogap_id app]. apply flat_map_single. exact Single. }
    assert (Ha : aligned l = true).
    { destruct G as (_ & _ & _ & _ & _ & _ & _ & _ & Ha). rewrite Ha.
      cbn [fresh_locals aligned orb].
      destruct (filter (scaffold_retained priority) entries) as [|f fs'] eqn:F.
      - cbn in T. congruence.
      - assert (If : In f (filter (scaffold_retained priority) entries))
          by (rewrite F; left; reflexivity).
        apply filter_In in If as [If Rf]. apply existsb_exists. exists f.
        split; [exact If|]. unfold scaffold_retained in Rf.
        apply andb_true_iff in Rf. tauto. }
    destruct (index_of_max_first str_gtb String.eqb (map c_nogap cs))
      as (best & k & m & I & M & B & _).
    { destruct cs; [congruence|discriminate]. }
    rewrite length_map in B.
    destruct (nth_error cs best) as [c|] eqn:Nc;
      [|apply nth_error_None in Nc; lia].
    exists best, c. split; [exact Nc|].
    unfold scaffold_worker, listdir. rewrite Hfs. cbn [bind]. rewrite S.
    unfold select. rewrite Ha. cbn [negb String.eqb Ascii.eqb Bool.eqb].
    unfold scaffold_best. rewrite Hg, I. cbn [bind].
    rewrite (scaffold_record_candidate _ _ _ _ _ G Hg Nc). reflexivity.
Qed.

End BestClaims.

Lemma best_only_one_record_witness :
  exists cs : list candidate,
    example_fs "out/L1" =
      Ok [mkFile "IsoA.1.trimmed_align.txt" report_75;
            mkFile "IsoB.1.trimmed_align.txt" report_100;
            mkFile "IsoC.1.trimmed_align.txt" report_100;
            mkFile "IsoA.1.align.txt" report_75] /\
    traverse (spades_candidate (rt := example_runtime) "out/L1")
      (filter (spades_retained "")
         [mkFile "IsoA.1.trimmed_align.txt" report_75;
          mkFile "IsoB.1.trimmed_align.txt" report_100;
          mkFile "IsoC.1.trimmed_align.txt" report_100;
          mkFile "IsoA.1.align.txt" report_75]) = Ok cs /\
    cs <> [] /\
    decimal_is_number (rt := example_runtime) /\
    spades_worker (rt := example_runtime) example_fs "out/L1" "L1" "" "yes" =
      ([tab_line ["100.0"; "1.0"; "4"; "IsoB"; "4"; "out/L1/IsoB.1.trimmed_align.txt"]],
       Ok tt) /\
    exists (best : nat) (c : candidate),
      nth_error cs best = Some c /\
      spades_worker (rt := example_runtime) example_fs "out/L1" "L1" "" "yes" =
        ([contig_line (rt := example_runtime) c], Ok tt) /\
      Forall (fun c' => SFleb (ident_float (c_id c')) (ident_float (c_id c)) = true) cs /\
      (forall j c', (j < best)%nat -> nth_error cs j = Some c' ->
                    SFltb (ident_float (c_id c')) (ident_float (c_id c)) = true).
Proof.
  eexists. split; [reflexivity|]. split; [vm_compute; reflexivity|].
  split; [discriminate|].
  split; [exact example_decimals|]. split; [vm_compute; reflexivity|].
  apply (proj1 (@best_only_one_record example_runtime)
               example_fs "out/L1" "L1" "" _ _ eq_refl).
  - vm_compute. reflexivity.
  - discriminate.
  - exact example_decimals.
Defined.

(** C1 as stated fails twice. On the locus [L3], where a valid candidate
    stands next to a file that is no report, the worker ends with the
    exception of [AlignIO.read] and puts no record. On the locus of
    scaffolds [L2], whose candidates have the gap-free identities
    ["100.00"] and ["75.00"], the record put is the one of ["75.00"]: [max]
    compares the two texts, and ["75.00"] is the greater text. *)
Lemma best_only_not_the_maximum :
  (needle_read report_75 = Ok ["ACGT"; "ACGA"] /\
   needle_read report_100 = Ok ["ACGT"; "ACGT"] /\
   needle_read no_report = Raise ValueError) /\
  (example_fs "out/L3" =
     Ok [mkFile "IsoA.1.trimmed_align.txt" report_75;
         mkFile "IsoB.1.trimmed_align.txt" no_report] /\
   is_ok (spades_candidate (rt := example_runtime) "out/L3"
            (mkFile "IsoA.1.trimmed_align.txt" report_75)) = true /\
   spades_worker (rt := example_runtime) example_fs "out/L3" "L3" "" "yes" =
     ([], Raise ValueError)) /\
  (example_fs "out/L2" =
     Ok [mkFile "IsoA.Scaffold.trimmed_align.txt" report_100;
         mkFile "IsoB.Scaffold.trimmed_align.txt" report_75] /\
   (exists cs,
       traverse (scaffold_candidate (rt := example_runtime) "out/L2")
         [mkFile "IsoA.Scaffold.trimmed_align.txt" report_100;
          mkFile "IsoB.Scaffold.trimmed_align.txt" report_75] = Ok cs /\
       map c_nogap cs = ["100.00"; "75.00"]) /\
   str_gtb "75.00" "100.00" = true /\
   scaffold_worker (rt := example_runtime) example_fs "out/L2" "L2" "" "yes" =
     ([tab_line ["75.0"; "1.0"; "4"; "IsoB"; "4";
                 "out/L2/IsoB.Scaffold.trimmed_align.txt"; "75.00"]], Ok tt)).
Proof.
  split; [repeat split; vm_compute; reflexivity|].
  split; [repeat split; vm_compute; reflexivity|].
  split; [reflexivity|]. split.
  - eexists. split; [vm_compute; reflexivity|vm_compute; reflexivity].
  - split; vm_compute; reflexivity.
Qed.

(** * Further properties of the metric functions *)

Lemma find_ref_len_empty_b (a : string) :
  a <> "" ->
  find_ref_len a "" =
  if starts_with is_base a || ends_with is_base a
  then Raise IndexError
  else Ok (Z.of_nat (count_bases a)).
Proof.
  intros Ha.
  destruct (first_char_starts is_base a Ha) as [a0 [Ea0 Sa]].
  destruct (last_char_ends is_base a Ha) as [an [Ean Ta]].
  unfold find_ref_len. rewrite Ea0, Ean, Sa, Ta. cbn [bind].
  unfold is_base.
  destruct (negb (is_gap a0)); cbn [bind first_char orb]; [reflexivity|].
  destruct (negb (is_gap an)); cbn [bind last_char]; [reflexivity|].
  unfold len. rewrite remove_gaps_length. reflexivity.
Qed.

(** X1. [find_ref_len] raises nothing but IndexError, and raises it exactly
    when [a] is empty, or [b] is empty while [a] starts or ends with a
    base; on every other pair, of equal lengths or not, it returns. *)
Theorem find_ref_len_index_error :
  forall a b : string,
    (find_ref_len a b = Raise IndexError <->
     a = "" \/ (b = "" /\ (starts_with is_base a || ends_with is_base a) = true)) /\
    (forall e : exn, find_ref_len a b = Raise e -> e = IndexError) /\
    (a <> "" -> b <> "" -> exists n : Z, find_ref_len a b = Ok n).
Proof.
  intros a b.
  destruct a as [|x a'].
  { split; [|split].
    - split; [auto | reflexivity].
    - cbn. intros e H. injection H as <-. reflexivity.
    - intros H. congruence. }
  destruct b as [|y b'].
  { rewrite find_ref_len_empty_b by discriminate.
    destruct (starts_with is_base (String x a') || ends_with is_base (String x a')).
    - split; [|split].
      + split; [auto | reflexivity].
      + intros e H. injection H as <-. reflexivity.
      + intros _ H. congruence.
    - split; [|split].
      + split; [discriminate|]. intros [H|[_ H]]; discriminate.
      + discriminate.
      + intros _ H. congruence. }
  rewrite find_ref_len_nonempty by discriminate.
  split; [|split].
  - split; [discriminate|]. intros [H|[H _]]; discriminate.
  - discriminate.
  - eauto.
Qed.

(** ** Reversal *)

Lemma list_of_append (s t : string) :
  list_ascii_of_string (s ++ t) = (list_ascii_of_string s ++ list_ascii_of_string t)%list.
Proof. induction s as [|c s IH]; cbn; congruence. Qed.

Lemma list_of_reverse (s : string) :
  list_ascii_of_string (reverse s) = rev (list_ascii_of_string s).
Proof.
  induction s as [|c s IH]; [reflexivity|].
  cbn [reverse list_ascii_of_string rev]. rewrite list_of_append, IH. reflexivity.
Qed.

Lemma list_of_drop (n : nat) (s : string) :
  list_ascii_of_string (drop n s) = skipn n (list_ascii_of_string s).
Proof. revert s; induction n as [|n IH]; intros [|c s]; cbn; auto. Qed.

Lemma list_of_take (n : nat) (s : string) :
  list_ascii_of_string (take n s) = firstn n (list_ascii_of_string s).
Proof. revert s; induction n as [|n IH]; intros [|c s]; cbn; auto. f_equal. auto. Qed.

Lemma length_list_of (s : string) :
  List.length (list_ascii_of_string s) = String.length s.
Proof. induction s as [|c s IH]; cbn; congruence. Qed.

Lemma count_bases_filter (s : string) :
  count_bases s = List.length (filter is_base (list_ascii_of_string s)).
Proof.
  induction s as [|c s IH]; [reflexivity|].
  cbn [count_bases list_ascii_of_string filter]. unfold is_base at 1.
  destruct (is_gap c); cbn [negb List.length]; congruence.
Qed.

Lemma length_reverse (s : string) : String.length (reverse s) = String.length s.
Proof. rewrite <- !length_list_of, list_of_reverse. apply length_rev. Qed.

Lemma leading_run_snoc (p : ascii -> bool) (s : string) (c : ascii) :
  leading_run p (s ++ String c "") =
  if (leading_run p s =? String.length s)%nat && p c
  then S (String.length s) else leading_run p s.
Proof.
  induction s as [|d s IH]; cbn [append leading_run String.length].
  - cbn. destruct (p c); reflexivity.
  - destruct (p d); [|reflexivity]. rewrite IH.
    change (S (leading_run p s) =? S (String.length s))%nat
      with (leading_run p s =? String.length s)%nat.
    destruct ((leading_run p s =? String.length s)%nat && p c); reflexivity.
Qed.

Lemma leading_run_reverse (p : ascii -> bool) (s : string) :
  leading_run p (reverse s) = trailing_run p s.
Proof.
  induction s as [|c s IH]; [reflexivity|].
  cbn [reverse trailing_run]. rewrite leading_run_snoc, IH, length_reverse.
  rewrite andb_comm. reflexivity.
Qed.

Lemma reverse_snoc (s : string) (c : ascii) :
  reverse (s ++ String c "") = String c (reverse s).
Proof. induction s as [|d s IH]; cbn; [reflexivity|]. rewrite IH. reflexivity. Qed.

Lemma reverse_involutive (s : string) : reverse (reverse s) = s.
Proof.
  induction s as [|c s IH]; [reflexivity|]. cbn [reverse].
  rewrite reverse_snoc, IH. reflexivity.
Qed.

Lemma trailing_run_reverse (p : ascii -> bool) (s : string) :
  trailing_run p (reverse s) = leading_run p s.
Proof. rewrite <- (reverse_involutive s) at 2. symmetry. apply leading_run_reverse. Qed.

Lemma ends_with_snoc (p : ascii -> bool) (s : string) (c : ascii) :
  ends_with p (s ++ String c "") = p c.
Proof.
  induction s as [|d s IH]; [reflexivity|].
  cbn [append ends_with]. destruct (s ++ String c "") eqn:E; [|exact IH].
  destruct s; discriminate.
Qed.

Lemma ends_with_reverse (p : ascii -> bool) (s : string) :
  ends_with p (reverse s) = starts_with p s.
Proof. destruct s as [|c s]; [reflexivity|]. cbn [reverse]. apply ends_with_snoc. Qed.

Lemma starts_with_reverse (p : ascii -> bool) (s : string) :
  starts_with p (reverse s) = ends_with p s.
Proof. rewrite <- (reverse_involutive s) at 2. symmetry. apply ends_with_reverse. Qed.

(** The part of a list between [l] elements dropped at its start and [r]
    at its end, read backwards, is that of the reversed list between [r]
    and [l]. *)
Lemma middle_rev {A : Type} (xs : list A) (l r : nat) :
  firstn (List.length (skipn r (rev xs)) - l) (skipn r (rev xs)) =
  rev (firstn (List.length (skipn l xs) - r) (skipn l xs)).
Proof.
  rewrite !length_skipn, length_rev.
  rewrite skipn_rev, firstn_rev, length_firstn.
  f_equal.
  destruct (Nat.le_gt_cases l (List.length xs - r)) as [H|H].
  - replace (Nat.min (List.length xs - r) (List.length xs) -
             (List.length xs - r - l))%nat with l by lia.
    rewrite skipn_firstn_comm. f_equal. lia.
  - replace (List.length xs - l - r)%nat with 0%nat by lia.
    replace (Nat.min (List.length xs - r) (List.length xs) -
             (List.length xs - r - l))%nat with (List.length xs - r)%nat by lia.
    cbn [firstn]. apply skipn_all2. rewrite length_firstn. lia.
Qed.

Lemma reference_covered_reverse (a b : string) :
  reference_covered (reverse a) (reverse b) = reference_covered a b.
Proof.
  unfold reference_covered.
  rewrite !starts_with_reverse, !ends_with_reverse,
          leading_run_reverse, trailing_run_reverse.
  set (l := if starts_with is_base a && starts_with is_gap b
            then leading_run is_gap b else 0%nat).
  set (r := if ends_with is_base a && ends_with is_gap b
            then trailing_run is_gap b else 0%nat).
  rewrite !count_bases_filter, !list_of_take, !list_of_drop, list_of_reverse.
  rewrite <- !length_list_of, !list_of_drop, list_of_reverse.
  rewrite middle_rev, filter_rev, length_rev. reflexivity.
Qed.

Lemma reverse_empty (s : string) : reverse s = "" <-> s = "".
Proof.
  split; [|intros ->; reflexivity].
  intros H. apply (f_equal String.length) in H. rewrite length_reverse in H.
  destruct s; [reflexivity|discriminate].
Qed.

(** X2. [find_ref_len] treats the two ends alike: on the two sequences read
    backwards it gives what it gives on the sequences, value or exception. *)
Theorem find_ref_len_reverse :
  forall a b : string,
    find_ref_len (reverse a) (reverse b) = find_ref_len a b.
Proof.
  intros a b.
  destruct a as [|x a']; [reflexivity|].
  assert (Ha : reverse (String x a') <> "")
    by (intros H; apply (proj1 (reverse_empty _)) in H; discriminate H).
  destruct b as [|y b'].
  - cbn [reverse]. change (reverse a' ++ String x "") with (reverse (String x a')).
    rewrite !find_ref_len_empty_b by (exact Ha || discriminate).
    rewrite starts_with_reverse, ends_with_reverse, orb_comm.
    rewrite !count_bases_filter, list_of_reverse, filter_rev, length_rev.
    reflexivity.
  - assert (Hb : reverse (String y b') <> "")
      by (intros H; apply (proj1 (reverse_empty _)) in H; discriminate H).
    rewrite !find_ref_len_nonempty by (assumption || discriminate).
    rewrite reference_covered_reverse. reflexivity.
Qed.

(** ** The gap-free identity at its edges *)

Lemma exact_loop_zip (a b : string) :
  forall total perfect_match : Z,
    exact_loop a b total perfect_match =
    exact_loop (take (Nat.min (String.length a) (String.length b)) a)
               (take (Nat.min (String.length a) (String.length b)) b)
               total perfect_match.
Proof.
  revert b. induction a as [|x a IH]; intros [|y b] total perfect_match;
    try reflexivity.
  cbn [String.length Nat.min take exact_loop].
  destruct (negb (is_gap x)); [destruct (Ascii.eqb x y)|]; apply IH.
Qed.

(** X3. Of two sequences of unequal length [calculate_exact_alignment]
    reads the positions both have, as [zip] does: what either holds past
    the length of the shorter one changes nothing. *)
Theorem calculate_exact_alignment_zip :
  forall a b : string,
    calculate_exact_alignment a b =
    calculate_exact_alignment
      (take (Nat.min (String.length a) (String.length b)) a)
      (take (Nat.min (String.length a) (String.length b)) b).
Proof.
  intros a b. unfold calculate_exact_alignment.
  rewrite (exact_loop_zip a b). reflexivity.
Qed.

Lemma count_bases_all_gaps (s : string) :
  all_chars is_gap s = true -> count_bases s = 0%nat.
Proof.
  induction s as [|c s IH]; [reflexivity|]. cbn [all_chars count_bases].
  destruct (is_gap c); [exact IH|discriminate].
Qed.

Lemma all_gaps_take (n : nat) (s : string) :
  all_chars is_gap s = true -> all_chars is_gap (take n s) = true.
Proof.
  revert s; induction n as [|n IH]; intros [|c s]; cbn [take all_chars]; auto.
  destruct (is_gap c); cbn [andb]; [apply IH|discriminate].
Qed.

Lemma calculate_exact_alignment_total (a b : string) :
  calculate_exact_alignment a b =
  if (count_bases (take (String.length b) a) =? 0)%nat
  then Raise ZeroDivisionError
  else Ok (format_2f
             (SFmul prec emax
                (SFdiv prec emax (sf_of_int (Z.of_nat (exact_matches a b)))
                   (sf_of_int (Z.of_nat (count_bases (take (String.length b) a)))))
                (float_of_int 100))).
Proof.
  unfold calculate_exact_alignment. rewrite exact_loop_counts. cbn [Z.add].
  unfold true_div.
  destruct (Nat.eqb_spec (count_bases (take (String.length b) a)) 0) as [E|E].
  - rewrite E. reflexivity.
  - destruct (Z.eqb_spec (Z.of_nat (count_bases (take (String.length b) a))) 0);
      [lia|reflexivity].
Qed.

(** X4. [calculate_exact_alignment] raises nothing but ZeroDivisionError,
    and raises it exactly when the reference [a] has no base among the
    positions it shares with [b]: when either sequence is empty, and when
    [a] is made of gaps only. Otherwise it returns a text. *)
Theorem calculate_exact_alignment_zero_division :
  forall a b : string,
    (calculate_exact_alignment a b = Raise ZeroDivisionError <->
     count_bases (take (String.length b) a) = 0%nat) /\
    (forall e : exn, calculate_exact_alignment a b = Raise e -> e = ZeroDivisionError) /\
    calculate_exact_alignment "" b = Raise ZeroDivisionError /\
    calculate_exact_alignment a "" = Raise ZeroDivisionError /\
    (all_chars is_gap a = true ->
     calculate_exact_alignment a b = Raise ZeroDivisionError).
Proof.
  intros a b.
  assert (Z : count_bases (take (String.length b) a) = 0%nat ->
              calculate_exact_alignment a b = Raise ZeroDivisionError).
  { intros E. rewrite calculate_exact_alignment_total, E. reflexivity. }
  split; [|split; [|split; [|split]]].
  - split; [|exact Z]. rewrite calculate_exact_alignment_total.
    destruct (Nat.eqb_spec (count_bases (take (String.length b) a)) 0);
      [auto|discriminate].
  - rewrite calculate_exact_alignment_total.
    destruct (count_bases (take (String.length b) a) =? 0)%nat; [|discriminate].
    intros e H. injection H as <-. reflexivity.
  - reflexivity.
  - destruct a; reflexivity.
  - intros G. apply Z. apply count_bases_all_gaps, all_gaps_take, G.
Qed.

(** A positive int divided by itself is the float 1. *)
Lemma SFdiv_same (p : positive) :
  SFdiv prec emax (S754_finite false p 0) (S754_finite false p 0) =
  S754_finite false 4503599627370496 (-52).
Proof.
  unfold SFdiv, SFdiv_core_binary.
  replace (Zdigits2 (Zpos p) + 0 - (Zdigits2 (Zpos p) + 0)) with 0 by lia.
  change (Z.min (fexp prec emax 0) (0 - 0)) with (-53).
  change (0 - 0 - -53) with 53. cbv iota beta.
  rewrite Z.shiftl_mul_pow2 by lia.
  assert (D : Z.div_eucl (Zpos p * 2 ^ 53) (Zpos p) = (2 ^ 53, 0)).
  { pose proof (Z_div_mult (2 ^ 53) (Zpos p) eq_refl) as Q.
    pose proof (Z_mod_mult (2 ^ 53) (Zpos p)) as R.
    rewrite (Z.mul_comm (Zpos p)).
    unfold Z.div, Z.modulo in Q, R.
    destruct (Z.div_eucl (2 ^ 53 * Zpos p) (Zpos p)) as [q r].
    congruence. }
  rewrite D.
  assert (L : new_location (Zpos p) 0 = loc_Exact).
  { unfold new_location, new_location_even, new_location_odd.
    destruct (Z.even (Zpos p)); reflexivity. }
  rewrite L. vm_compute. reflexivity.
Qed.

Lemma exact_matches_same (a : string) : exact_matches a a = count_bases a.
Proof.
  unfold exact_matches. induction a as [|x a IH]; [reflexivity|].
  rewrite columns_cons. cbn [filter fst snd count_bases].
  rewrite Ascii.eqb_refl, andb_true_r.
  change (is_base x) with (negb (is_gap x)).
  destruct (is_gap x); cbn [negb List.length]; congruence.
Qed.

(** X5. The two ends of the scale: when every base of the reference [a]
    (among the positions it shares with [b]) is matched, the gap-free
    identity is ["100.00"], so a sequence that has a base scores
    ["100.00"] against itself; when none is matched it is ["0.00"]. *)
Theorem calculate_exact_alignment_extremes :
  (forall a b : string,
      (0 < count_bases (take (String.length b) a))%nat ->
      exact_matches a b = count_bases (take (String.length b) a) ->
      calculate_exact_alignment a b = Ok "100.00") /\
  (forall a : string,
      (0 < count_bases a)%nat -> calculate_exact_alignment a a = Ok "100.00") /\
  (forall a b : string,
      (0 < count_bases (take (String.length b) a))%nat ->
      exact_matches a b = 0%nat ->
      calculate_exact_alignment a b = Ok "0.00").
Proof.
  assert (Full : forall a b : string,
      (0 < count_bases (take (String.length b) a))%nat ->
      exact_matches a b = count_bases (take (String.length b) a) ->
      calculate_exact_alignment a b = Ok "100.00").
  { intros a b P M. rewrite calculate_exact_alignment_total, M.
    destruct (Nat.eqb_spec (count_bases (take (String.length b) a)) 0) as [E|E]; [lia|].
    destruct (Z.of_nat (count_bases (take (String.length b) a))) as [|p|p] eqn:N; try lia.
    cbn [sf_of_int]. rewrite SFdiv_same. vm_compute. reflexivity. }
  split; [exact Full|]. split.
  - intros a P. apply Full; rewrite take_all; [exact P|apply exact_matches_same].
  - intros a b P M. rewrite calculate_exact_alignment_total, M.
    destruct (Nat.eqb_spec (count_bases (take (String.length b) a)) 0) as [E|E]; [lia|].
    destruct (Z.of_nat (count_bases (take (String.length b) a))) as [|p|p] eqn:N; try lia.
    vm_compute. reflexivity.
Qed.

Lemma calculate_exact_alignment_extremes_witness :
  calculate_exact_alignment "ACGT-" "ACGT-" = Ok "100.00" /\
  calculate_exact_alignment "A-CGT" "TC-ACGG" = Ok "0.00".
Proof.
  split.
  - apply (proj1 (proj2 calculate_exact_alignment_extremes) "ACGT-"). cbn. lia.
  - apply (proj2 (proj2 calculate_exact_alignment_extremes) "A-CGT" "TC-ACGG").
    + cbn. lia.
    + reflexivity.
Defined.

(** * Further properties of the report parser *)

Lemma mentions_app_r (c : ascii) (s t : string) :
  mentions c t = true -> mentions c (s ++ t) = true.
Proof.
  intros H. induction s as [|d s IH]; cbn [append mentions]; [exact H|].
  rewrite IH. apply orb_true_r.
Qed.

Lemma mentions_app (c : ascii) (s t : string) :
  mentions c (s ++ t) = mentions c s || mentions c t.
Proof.
  induction s as [|d s IH]; cbn [append mentions]; [reflexivity|].
  rewrite IH. apply orb_assoc.
Qed.

(** A match of a pattern that holds the literal [c] is a match on an input
    that holds [c]. *)
Lemma re_match_needs (c : ascii) (r1 r2 : regex) :
  forall s opened grp res,
    re_match (r1 ++ lit c :: r2)%list s opened grp = Some res ->
    mentions c s = true.
Proof.
  induction r1 as [|a r1 IH]; intros s opened grp res H.
  - apply re_match_lit_some in H as (rest & -> & _).
    cbn [mentions]. rewrite Ascii.eqb_refl. reflexivity.
  - destruct a; cbn [app re_match] in H.
    + destruct s as [|d s]; [discriminate|]. destruct (p d); [|discriminate].
      cbn [mentions]. rewrite (IH _ _ _ _ H). apply orb_true_r.
    + apply star_then_some in H as (run & rest & -> & _ & K).
      apply mentions_app_r. eapply IH; eauto.
    + destruct s as [|d s]; [eapply IH; eauto|].
      destruct (p d); [|eapply IH; eauto].
      destruct (re_match (r1 ++ lit c :: r2)%list s opened grp) as [g|] eqn:E.
      * cbn [mentions]. rewrite (IH _ _ _ _ E). apply orb_true_r.
      * eapply IH; eauto.
    + eapply IH; eauto.
    + eapply IH; eauto.
    + destruct (at_eol s); [|discriminate]. eapply IH; eauto.
Qed.

Lemma re_search_needs (c : ascii) (r1 r2 : regex) (s g : string) :
  re_search (r1 ++ lit c :: r2)%list s = Some g -> mentions c s = true.
Proof.
  induction s as [|d s IH]; cbn [re_search]; intros H.
  - destruct (re_match _ "" "" "") as [g'|] eqn:E; [|discriminate].
    eapply re_match_needs; eauto.
  - destruct (re_match _ (String d s) "" "") as [g'|] eqn:E.
    + eapply re_match_needs; eauto.
    + cbn [mentions]. rewrite (IH H). apply orb_true_r.
Qed.

Lemma identity_needs_dot (line : string) :
  mentions "." line = false -> re_search identity_re line = None.
Proof.
  intros M. destruct (re_search identity_re line) as [g|] eqn:E; [|reflexivity].
  change identity_re with
    (([lit "#"; One is_space] ++ lits "Identity:" ++ plus is_space ++
      plus is_digit ++ [lit "/"] ++ plus is_digit ++
      [One is_space; lit "("; Opt is_space; GroupOpen] ++ plus is_digit) ++
     lit "." :: (plus is_digit ++ [GroupClose; lit "%"; lit ")"; Eol]))%list in E.
  apply re_search_needs in E. congruence.
Qed.

Lemma score_needs_blank (x : string) :
  starts_with is_space x = false -> mentions "#" x = false ->
  re_search score_re ("# Score:" ++ x) = None.
Proof.
  intros S M.
  change ("# Score:" ++ x) with (String "#" (String " " ("Score:" ++ x))).
  assert (F : re_match score_re (String "#" (String " " ("Score:" ++ x))) "" "" = None).
  { unfold score_re. cbn [app lits].
    rewrite re_match_lit.
    rewrite (re_match_one is_space " ") by reflexivity.
    cbn [append]. rewrite !re_match_lit.
    destruct x as [|c x]; [reflexivity|]. cbn [starts_with] in S.
    cbn [re_match]. rewrite S. reflexivity. }
  assert (R : forall r c s,
             re_search r (String c s) =
             match re_match r (String c s) "" "" with
             | Some g => Some g
             | None => re_search r s
             end) by reflexivity.
  rewrite R, F.
  destruct (re_search score_re (String " " ("Score:" ++ x))) as [g|] eqn:E; [|reflexivity].
  change score_re with
    ([] ++ lit "#" :: ([One is_space] ++ lits "Score:" ++
       [One is_space; GroupOpen; Star any_char; GroupClose; Eol]))%list in E.
  apply re_search_needs in E. cbn in E. congruence.
Qed.

Section ParserFacts.
Context {rt : Runtime}.

Lemma body_is_unmarked (line : string) :
  startswith line "a.trimmed" = true -> unmarked line = true.
Proof.
  unfold startswith, unmarked. destruct line as [|c l]; [discriminate|].
  cbn [String.prefix]. destruct (ascii_dec "a" c) as [<-|]; [|discriminate].
  reflexivity.
Qed.

Lemma parse_lines_body (pre : list string) (line : string) (rest : list string) :
  startswith line "a.trimmed" = true ->
  forall st, parse_lines (pre ++ line :: rest) st = parse_lines pre st.
Proof.
  intros B. pose proof (body_is_unmarked line B) as U.
  unfold unmarked in U. apply andb_true_iff in U as [Us Ui].
  apply negb_true_iff in Us, Ui.
  induction pre as [|l pre IH]; intros st.
  - cbn [app parse_lines]. rewrite Us, Ui, B. reflexivity.
  - cbn [app parse_lines].
    destruct (startswith l "# Score:").
    + destruct (re_search score_re l); [apply IH|reflexivity].
    + destruct (startswith l "# Identity:").
      * destruct (re_search identity_re l); [|reflexivity].
        destruct (float_of_str s) as [x|e]; cbn [bind]; [apply IH|reflexivity].
      * destruct (startswith l "a.trimmed"); [reflexivity|apply IH].
Qed.

(** X6. [parse_alignment] reads a report up to the first line that starts
    with [a.trimmed] and nothing after it: its result, value or exception,
    is that of the lines before, so two reports that agree up to that line
    parse alike, whatever markers follow. *)
Theorem parse_alignment_stops_at_alignment :
  forall (text text' : string) (pre : list string) (line : string)
         (rest rest' : list string),
    startswith line "a.trimmed" = true ->
    file_lines text = (pre ++ line :: rest)%list ->
    file_lines text' = (pre ++ line :: rest')%list ->
    parse_alignment text = parse_lines pre (mkStats ScoreUnset IdUnset) /\
    parse_alignment text' = parse_alignment text.
Proof.
  intros text text' pre line rest rest' B L L'. unfold parse_alignment.
  rewrite L, L', !parse_lines_body by exact B. split; reflexivity.
Qed.

(** X7. A marker line that does not fit its pattern makes the parser raise
    AttributeError, the failure of [.group(1)] on no match: an identity
    line that holds no decimal point, and a score line whose colon is not
    followed by a blank (and that holds no second hash). *)
Theorem parse_alignment_malformed_marker :
  (forall (text : string) (pre : list string) (line : string) (rest : list string),
      forallb header_filler pre = true ->
      file_lines text = (pre ++ line :: rest)%list ->
      startswith line "# Identity:" = true -> mentions "." line = false ->
      parse_alignment text = Raise AttributeError) /\
  (forall (text : string) (pre : list string) (x : string) (rest : list string),
      forallb header_filler pre = true ->
      file_lines text = (pre ++ ("# Score:" ++ x)%string :: rest)%list ->
      starts_with is_space x = false -> mentions "#" x = false ->
      parse_alignment text = Raise AttributeError).
Proof.
  split.
  - intros text pre line rest F L I M. unfold parse_alignment.
    rewrite L, (parse_lines_filler _ _ _ F). cbn [parse_lines].
    rewrite I, (identity_needs_dot line M).
    destruct (startswith line "# Score:") eqn:S; [|reflexivity].
    exfalso. revert S I. clear. unfold startswith.
    destruct line as [|c l]; cbn [String.prefix]; [intros H; discriminate H|].
    destruct (ascii_dec "#" c) as [E|E]; [clear E|intros H; discriminate H].
    destruct l as [|d l]; cbn [String.prefix]; [intros H; discriminate H|].
    destruct (ascii_dec " " d) as [E|E]; [clear E|intros H; discriminate H].
    destruct l as [|e l]; cbn [String.prefix]; [intros H; discriminate H|].
    destruct (ascii_dec "S" e) as [E|E]; [subst e|intros H; discriminate H].
    intros _. cbn. intros H. discriminate H.
  - intros text pre x rest F L S M. unfold parse_alignment.
    rewrite L, (parse_lines_filler _ _ _ F). cbn [parse_lines].
    rewrite startswith_app, (score_needs_blank x S M). reflexivity.
Qed.

End ParserFacts.

Lemma parse_alignment_stops_at_alignment_witness :
  parse_alignment (rt := example_runtime) (report_75 ++ score_line "99.0") =
  parse_alignment (rt := example_runtime) report_75.
Proof.
  apply (@parse_alignment_stops_at_alignment example_runtime
           report_75 (report_75 ++ score_line "99.0")
           (firstn 20 (file_lines report_75))
           (nth 20 (file_lines report_75) "")
           (skipn 21 (file_lines report_75))
           (skipn 21 (file_lines report_75) ++ [score_line "99.0"])%list).
  - vm_compute. reflexivity.
  - vm_compute. reflexivity.
  - vm_compute. reflexivity.
Defined.

Lemma parse_alignment_malformed_marker_witness :
  parse_alignment (rt := example_runtime) "# Length: 4
# Identity:      4/4 (100%)
" = Raise AttributeError /\
  parse_alignment (rt := example_runtime) "# Score:11.0
" = Raise AttributeError.
Proof.
  split.
  - apply (proj1 (@parse_alignment_malformed_marker example_runtime)
             _ [("# Length: 4
")%string] ("# Identity:      4/4 (100%)
")%string []).
    + reflexivity.
    + vm_compute. reflexivity.
    + reflexivity.
    + reflexivity.
  - apply (proj2 (@parse_alignment_malformed_marker example_runtime)
             _ [] ("11.0
")%string []).
    + reflexivity.
    + vm_compute. reflexivity.
    + reflexivity.
    + reflexivity.
Defined.

(** * Further properties of the workers and of [main] *)

Section WorkerFurther.
Context {rt : Runtime}.

Lemma traverse_nth {A B : Type} (f : A -> result B) (xs : list A) (ys : list B) :
  traverse f xs = Ok ys ->
  forall i y, nth_error ys i = Some y ->
              exists x, nth_error xs i = Some x /\ f x = Ok y.
Proof.
  intros T. apply traverse_Forall2 in T.
  induction T as [|x y xs ys H _ IH]; intros i z N.
  - destruct i; discriminate.
  - destruct i as [|i]; cbn in N.
    + injection N as <-. exists x. auto.
    + apply IH in N as [x' [N F]]. exists x'. auto.
Qed.

Lemma item_ok_nth {A : Type} (l : list A) (x : nat) (y : A) :
  item l x = Ok y -> nth_error l x = Some y.
Proof. unfold item. destruct (nth_error l x); [congruence|discriminate]. Qed.

(** A line of [spades_worker] is the line of the candidate at its
    position. *)
Lemma spades_record_position (l : locals) (cs : list candidate) (seen : bool)
  (x : nat) (m : string) :
  grown fresh_locals l cs seen -> spades_record l x = Ok m ->
  exists c, nth_error cs x = Some c /\ m = contig_line c.
Proof.
  intros G R. pose proof G as (_ & _ & Hd & _).
  pose proof R as R'. unfold spades_record in R'.
  apply bind_ok in R' as [i [I _]]. apply item_ok_nth in I.
  rewrite Hd in I. cbn [fresh_locals ids app] in I.
  rewrite nth_error_map in I.
  destruct (nth_error cs x) as [c|] eqn:N; [|discriminate].
  exists c. split; [reflexivity|].
  rewrite (spades_record_candidate l cs seen x c G N) in R. congruence.
Qed.

(** A line of [scaffold_worker] is the line of the candidate at its
    position, with the gap-free identity [nogap_id] holds there. *)
Lemma scaffold_record_position (l : locals) (cs : list candidate) (seen : bool)
  (x : nat) (m : string) :
  grown fresh_locals l cs seen -> scaffold_record l x = Ok m ->
  exists c g, nth_error cs x = Some c /\ item (nogap_id l) x = Ok g /\
              m = scaffold_line c g.
Proof.
  intros (Hi & _ & Hd & Hf & Hc & Hn & Hr & _) R. unfold scaffold_record in R.
  rewrite Hi, Hd, Hf, Hc, Hn, Hr in R.
  cbn [fresh_locals isos ids files cov length_ ref_len app] in R.
  destruct (nth_error cs x) as [c|] eqn:N.
  - rewrite !(item_map _ _ _ _ N) in R. cbn [bind] in R.
    destruct (item (nogap_id l) x) as [g|e]; [|discriminate].
    cbn [bind] in R. injection R as <-. exists c, g. auto.
  - unfold item at 1 in R. rewrite nth_error_map, N in R. discriminate.
Qed.

Lemma spades_candidate_names (algn_dir : string) (f : file) (c : candidate) :
  spades_candidate algn_dir f = Ok c ->
  c_isolate c = split_head "." (fname f) /\ c_file c = path_join algn_dir (fname f).
Proof.
  unfold spades_candidate. intros H.
  apply bind_ok in H as [alignment [_ H]].
  destruct (negb _ && negb _).
  - apply bind_ok in H as [r [_ H]]. apply bind_ok in H as [st [P H]].
    apply bind_ok in H as [sc [_ H]]. apply bind_ok in H as [q [_ H]].
    injection H as <-. auto.
  - apply bind_ok in H as [st [_ H]]. apply bind_ok in H as [sc [_ H]].
    apply bind_ok in H as [q [_ H]]. discriminate.
Qed.

Lemma scaffold_candidate_names (algn_dir : string) (f : file) (c : candidate) :
  scaffold_candidate algn_dir f = Ok c ->
  c_isolate c = split_head "." (fname f) /\ c_file c = path_join algn_dir (fname f).
Proof.
  unfold scaffold_candidate. intros H.
  apply bind_ok in H as [alignment [_ H]].
  apply bind_ok in H as [[[a b] l] [_ H]].
  apply bind_ok in H as [st [_ H]]. apply bind_ok in H as [sc [_ H]].
  apply bind_ok in H as [q [_ H]]. apply bind_ok in H as [r [_ H]].
  injection H as <-. auto.
Qed.

Lemma other_priority_false (priority file : string) :
  other_priority priority file = false <->
  priority = "" \/ startswith file priority = true.
Proof.
  unfold other_priority. destruct (String.eqb_spec priority "") as [->|N];
    cbn [negb andb].
  - split; auto.
  - destruct (startswith file priority); cbn [negb]; split; auto.
    intros [H|H]; congruence.
Qed.

(** X8. Every record a worker puts comes from a file of the directory that
    the worker keeps: the name ends with [.trimmed_align.txt] (and holds
    [Scaffold], the file not being empty, for scaffolds) and starts with
    the priority when one is given; the record is the line of that file's
    candidate, whose isolate is the name up to its first dot and whose
    path is the directory, a slash and the name. *)
Theorem records_come_from_kept_files :
  (forall (fs : filesystem) (algn_dir locus priority best_only m : string),
      In m (fst (spades_worker fs algn_dir locus priority best_only)) ->
      exists (entries : list file) (f : file) (c : candidate),
        fs algn_dir = Ok entries /\ In f entries /\
        endswith (fname f) suffix = true /\
        (priority = "" \/ startswith (fname f) priority = true) /\
        spades_candidate algn_dir f = Ok c /\
        c_isolate c = split_head "." (fname f) /\
        c_file c = path_join algn_dir (fname f) /\
        m = contig_line c) /\
  (forall (fs : filesystem) (algn_dir locus priority best_only m : string),
      In m (fst (scaffold_worker fs algn_dir locus priority best_only)) ->
      exists (entries : list file) (f : file) (c : candidate) (g : string),
        fs algn_dir = Ok entries /\ In f entries /\
        contains "Scaffold" (fname f) = true /\
        endswith (fname f) suffix = true /\
        (priority = "" \/ startswith (fname f) priority = true) /\
        st_size f <> 0 /\
        scaffold_candidate algn_dir f = Ok c /\
        c_isolate c = split_head "." (fname f) /\
        c_file c = path_join algn_dir (fname f) /\
        m = scaffold_line c g).
Proof.
  split.
  - intros fs algn_dir locus priority best_only m I.
    unfold spades_worker, listdir in I.
    destruct (fs algn_dir) as [entries|] eqn:D; [|destruct I]. cbn [bind] in I.
    pose proof (scan_spades algn_dir priority entries fresh_locals) as S.
    destruct (scan _ _ entries) as [l|e]; [|destruct I].
    destruct (traverse _ _) as [cs|e] eqn:T; [|contradiction].
    apply select_in in I as [x R].
    destruct (spades_record_position _ _ _ _ _ S R) as (c & N & ->).
    destruct (traverse_nth _ _ _ T _ _ N) as (f & Nf & C).
    apply nth_error_In, filter_In in Nf as [If K].
    unfold spades_retained in K. apply andb_true_iff in K as [K1 K2].
    apply negb_true_iff, other_priority_false in K2.
    destruct (spades_candidate_names _ _ _ C) as [Ci Cf].
    exists entries, f, c. repeat (split; [assumption || reflexivity|]). reflexivity.
  - intros fs algn_dir locus priority best_only m I.
    unfold scaffold_worker, listdir in I.
    destruct (fs algn_dir) as [entries|] eqn:D; [|destruct I]. cbn [bind] in I.
    pose proof (scan_scaffold algn_dir priority entries fresh_locals) as S.
    destruct (scan _ _ entries) as [l|e]; [|destruct I].
    destruct (traverse _ _) as [cs|e] eqn:T; [|contradiction].
    apply select_in in I as [x R].
    destruct (scaffold_record_position _ _ _ _ _ S R) as (c & g & N & _ & ->).
    destruct (traverse_nth _ _ _ T _ _ N) as (f & Nf & C).
    apply nth_error_In, filter_In in Nf as [If K].
    unfold scaffold_retained, scaffold_named in K.
    apply andb_true_iff in K as [K K4]. apply andb_true_iff in K as [K K3].
    apply andb_true_iff in K as [K1 K2].
    apply negb_true_iff, other_priority_false in K3.
    apply negb_true_iff, Z.eqb_neq in K4.
    destruct (scaffold_candidate_names _ _ _ C) as [Ci Cf].
    exists entries, f, c, g. repeat (split; [assumption || reflexivity|]). reflexivity.
Qed.




Lemma startswith_empty (s : string) : startswith s "" = true.
Proof. destruct s; reflexivity. Qed.

Lemma scan_priority (step step' : locals -> file -> result locals)
  (priority : string) (entries : list file) :
  (forall l f, startswith (fname f) priority = true -> step l f = step' l f) ->
  (forall l f, startswith (fname f) priority = false -> step l f = Ok l) ->
  forall l,
    scan step l entries =
    scan step' l (filter (fun f => startswith (fname f) priority) entries).
Proof.
  intros K S. induction entries as [|f rest IH]; intros l; [reflexivity|].
  cbn [scan filter]. destruct (startswith (fname f) priority) eqn:P.
  - cbn [scan]. rewrite (K l f P). destruct (step' l f); cbn [bind]; auto.
  - rewrite (S l f P). cbn [bind]. apply IH.
Qed.

(** X10. The priority is a filter on the names of the directory: a worker
    given a priority does what it does, given none, on the directory that
    holds only the files whose names start with the priority. *)
Theorem priority_filters_the_directory :
  forall (fs : filesystem) (algn_dir locus priority best_only : string),
    spades_worker fs algn_dir locus priority best_only =
    spades_worker (only (fun f => startswith (fname f) priority) fs)
                  algn_dir locus "" best_only /\
    scaffold_worker fs algn_dir locus priority best_only =
    scaffold_worker (only (fun f => startswith (fname f) priority) fs)
                    algn_dir locus "" best_only.
Proof.
  intros fs algn_dir locus priority best_only.
  unfold spades_worker, scaffold_worker, listdir, only.
  destruct (fs algn_dir) as [entries|]; [|split; reflexivity]. cbn [bind].
  split.
  - rewrite (scan_priority (spades_file algn_dir priority) (spades_file algn_dir "")
               priority entries); [reflexivity| |].
    + intros l f P. unfold spades_file, other_priority. rewrite P.
      cbn [negb andb String.eqb]. rewrite andb_false_r. reflexivity.
    + intros l f P. unfold spades_file, other_priority. rewrite P.
      destruct (String.eqb_spec priority "") as [->|_].
      * rewrite startswith_empty in P. discriminate.
      * cbn [negb andb]. destruct (endswith (fname f) suffix); reflexivity.
  - rewrite (scan_priority (scaffold_file algn_dir priority) (scaffold_file algn_dir "")
               priority entries); [reflexivity| |].
    + intros l f P. unfold scaffold_file, other_priority. rewrite P.
      cbn [negb andb String.eqb]. rewrite andb_false_r. reflexivity.
    + intros l f P. unfold scaffold_file, other_priority. rewrite P.
      destruct (String.eqb_spec priority "") as [->|_].
      * rewrite startswith_empty in P. discriminate.
      * cbn [negb andb].
        destruct (contains "Scaffold" (fname f) && endswith (fname f) suffix);
          reflexivity.
Qed.

(** X11. A value of [assmb_type] that is neither ['SPAdes'] nor ['HGA'] is
    not refused either: [main] submits no job, reads no directory, and
    puts ['stop'], so the run ends normally and the writer leaves the
    output as it was. *)
Theorem unknown_assembler_runs_no_job :
  forall (fs : filesystem) (assmb_map align_path priority best_only assmb_type : string),
    assmb_type <> "SPAdes" -> assmb_type <> "HGA" ->
    jobs fs assmb_map align_path priority best_only assmb_type = [] /\
    main fs assmb_map align_path priority best_only assmb_type = Ok ["stop"] /\
    forall out : string, listener ["stop"] out = (out, true).
Proof.
  intros fs assmb_map align_path priority best_only assmb_type S H.
  assert (J : jobs fs assmb_map align_path priority best_only assmb_type = []).
  { unfold jobs. induction (file_lines assmb_map) as [|line lines IH]; [reflexivity|].
    cbn [flat_map]. rewrite IH. unfold dispatch.
    destruct (String.eqb_spec assmb_type "SPAdes"); [contradiction|].
    destruct (String.eqb_spec assmb_type "HGA"); [contradiction|]. reflexivity. }
  split; [exact J|]. split; [|reflexivity].
  unfold main. rewrite J. reflexivity.
Qed.

Lemma select_unaligned (crit : locals -> result nat)
  (record : locals -> nat -> result string) (best_only : string) (l : locals) :
  aligned l = false -> select crit record best_only l = ([], Ok tt).
Proof. intros A. unfold select. rewrite A. reflexivity. Qed.

(** X12. How a worker ends on a locus without alignment. When the
    directory holds no file the worker takes, it returns normally without a
    record, whatever [best_only] is. When [scaffold_worker] takes files
    but all of them are empty, it has set [aligned]: under ['yes'] it then
    raises ValueError, [max] of the empty list, and under ['no'] it returns
    normally; without a record in both cases. *)
Theorem locus_without_alignment :
  (forall (fs : filesystem) (algn_dir locus priority best_only : string)
          (entries : list file),
      fs algn_dir = Ok entries ->
      existsb (spades_retained priority) entries = false ->
      spades_worker fs algn_dir locus priority best_only = ([], Ok tt)) /\
  (forall (fs : filesystem) (algn_dir locus priority best_only : string)
          (entries : list file),
      fs algn_dir = Ok entries ->
      existsb (scaffold_named priority) entries = false ->
      scaffold_worker fs algn_dir locus priority best_only = ([], Ok tt)) /\
  (forall (fs : filesystem) (algn_dir locus priority : string) (entries : list file),
      fs algn_dir = Ok entries ->
      existsb (scaffold_named priority) entries = true ->
      (forall f, In f entries -> scaffold_named priority f = true -> st_size f = 0) ->
      scaffold_worker fs algn_dir locus priority "yes" = ([], Raise ValueError) /\
      scaffold_worker fs algn_dir locus priority "no" = ([], Ok tt)).
Proof.
  split; [|split].
  - intros fs algn_dir locus priority best_only entries D E.
    unfold spades_worker, listdir. rewrite D. cbn [bind].
    pose proof (scan_spades algn_dir priority entries fresh_locals) as S.
    rewrite (filter_nil_existsb _ _ E), E in S. cbn [traverse] in S.
    destruct (scan _ _ entries) as [l|e]; [|contradiction].
    apply select_unaligned. destruct S as (_ & _ & _ & _ & _ & _ & _ & _ & A).
    exact A.
  - intros fs algn_dir locus priority best_only entries D E.
    unfold scaffold_worker, listdir. rewrite D. cbn [bind].
    pose proof (scan_scaffold algn_dir priority entries fresh_locals) as S.
    assert (F : filter (scaffold_retained priority) entries = []).
    { apply filter_nil_existsb. destruct (existsb (scaffold_retained priority) entries) eqn:X;
        [|reflexivity].
      apply existsb_exists in X as [f [I R]]. unfold scaffold_retained in R.
      apply andb_true_iff in R as [R _].
      assert (Y : existsb (scaffold_named priority) entries = true)
        by (apply existsb_exists; eauto).
      congruence. }
    rewrite F, E in S. cbn [traverse] in S.
    destruct (scan _ _ entries) as [l|e]; [|contradiction].
    apply select_unaligned. destruct S as (_ & _ & _ & _ & _ & _ & _ & _ & A).
    exact A.
  - intros fs algn_dir locus priority entries D E Z.
    unfold scaffold_worker, listdir. rewrite D. cbn [bind].
    pose proof (scan_scaffold algn_dir priority entries fresh_locals) as S.
    assert (F : filter (scaffold_retained priority) entries = []).
    { apply filter_nil_existsb. destruct (existsb (scaffold_retained priority) entries) eqn:X;
        [|reflexivity].
      apply existsb_exists in X as [f [I R]]. unfold scaffold_retained in R.
      apply andb_true_iff in R as [R1 R2]. rewrite (Z f I R1) in R2. discriminate. }
    rewrite F, E in S. cbn [traverse] in S.
    destruct (scan _ _ entries) as [l|e]; [|contradiction].
    destruct S as (_ & _ & _ & Hf & _ & _ & _ & Hg & A).
    cbn [fresh_locals files nogap_id aligned map flat_map app orb] in Hf, Hg, A.
    unfold select, scaffold_best. rewrite A, Hf, Hg. split; reflexivity.
Qed.

End WorkerFurther.


Lemma unknown_assembler_runs_no_job_witness :
  main (rt := example_runtime) example_fs example_map "out" "" "yes" "spades"
  = Ok ["stop"].
Proof.
  apply (@unknown_assembler_runs_no_job example_runtime example_fs example_map
           "out" "" "yes" "spades"); discriminate.
Defined.

Lemma locus_without_alignment_witness :
  scaffold_worker (rt := example_runtime) example_fs "out/L4" "L4" "" "yes"
  = ([], Raise ValueError) /\
  scaffold_worker (rt := example_runtime) example_fs "out/L4" "L4" "" "no"
  = ([], Ok tt) /\
  scaffold_worker (rt := example_runtime) example_fs "out/L1" "L1" "" "yes"
  = ([], Ok tt).
Proof.
  split; [|split].
  - eapply (proj2 (proj2 (@locus_without_alignment example_runtime))).
    + reflexivity.
    + reflexivity.
    + intros f [<-|[]] _. reflexivity.
  - eapply (proj2 (proj2 (@locus_without_alignment example_runtime))).
    + reflexivity.
    + reflexivity.
    + intros f [<-|[]] _. reflexivity.
  - eapply (proj1 (proj2 (@locus_without_alignment example_runtime))).
    + reflexivity.
    + reflexivity.
Defined.

Lemma records_come_from_kept_files_witness :
  In (tab_line ["75.0"; "1.0"; "4"; "IsoA"; "4"; "out/L1/IsoA.1.trimmed_align.txt"])
     (fst (spades_worker (rt := example_runtime) example_fs "out/L1" "L1" "Iso" "no")) /\
  exists (entries : list file) (f : file) (c : candidate),
    example_fs "out/L1" = Ok entries /\ In f entries /\
    endswith (fname f) suffix = true /\
    ("Iso" = "" \/ startswith (fname f) "Iso" = true) /\
    spades_candidate (rt := example_runtime) "out/L1" f = Ok c /\
    c_isolate c = split_head "." (fname f) /\
    c_file c = path_join "out/L1" (fname f) /\
    tab_line ["75.0"; "1.0"; "4"; "IsoA"; "4"; "out/L1/IsoA.1.trimmed_align.txt"] =
      contig_line (rt := example_runtime) c.
Proof.
  assert (I : In (tab_line ["75.0"; "1.0"; "4"; "IsoA"; "4";
                            "out/L1/IsoA.1.trimmed_align.txt"])
                 (fst (spades_worker (rt := example_runtime) example_fs "out/L1" "L1"
                                     "Iso" "no"))).
  { vm_compute. left. reflexivity. }
  split; [exact I|].
  exact (proj1 (@records_come_from_kept_files example_runtime)
               example_fs "out/L1" "L1" "Iso" "no" _ I).
Defined.

(** ** The ways a worker fails *)

Section WorkerFailures.
Context {rt : Runtime}.












Lemma item_raise {A : Type} (l : list A) (x : nat) (e : exn) :
  item l x = Raise e -> e = IndexError.
Proof.
  unfold item. destruct (nth_error l x); [discriminate|].
  intros H. injection H as <-. reflexivity.
Qed.




End WorkerFailures.


(** * Properties of [get_exon_parent] *)

Lemma contains_char (c : ascii) (s : string) :
  contains (String c "") s = mentions c s.
Proof.
  induction s as [|d s IH]; [reflexivity|].
  cbn [contains mentions String.prefix]. rewrite IH.
  destruct (ascii_dec c d) as [<-|N].
  - rewrite Ascii.eqb_refl. destruct s; reflexivity.
  - destruct (Ascii.eqb_spec d c) as [E|_]; [congruence|reflexivity].
Qed.

Lemma split_head_app (c : ascii) (p x : string) :
  mentions c p = false -> split_head c (p ++ String c x) = p.
Proof.
  induction p as [|d p IH]; cbn [append split_head mentions].
  - rewrite Ascii.eqb_refl. reflexivity.
  - intros M. apply orb_false_iff in M as [D M]. rewrite D, (IH M). reflexivity.
Qed.

Lemma split_head_absent (c : ascii) (s : string) :
  mentions c s = false -> split_head c s = s.
Proof.
  induction s as [|d s IH]; cbn [split_head mentions]; [reflexivity|].
  intros M. apply orb_false_iff in M as [D M]. rewrite D, (IH M). reflexivity.
Qed.

Lemma rsplit_head_app (c : ascii) (p x : string) :
  mentions c x = false -> rsplit_head c (p ++ String c x) = p.
Proof.
  intros M. induction p as [|d p IH]; cbn [append rsplit_head].
  - rewrite M, Ascii.eqb_refl. reflexivity.
  - rewrite mentions_app. cbn [mentions]. rewrite Ascii.eqb_refl, orb_true_r.
    rewrite IH. reflexivity.
Qed.

Lemma rsplit_head_absent (c : ascii) (s : string) :
  mentions c s = false -> rsplit_head c s = s.
Proof.
  destruct s as [|d s]; cbn [rsplit_head mentions]; [reflexivity|].
  intros M. apply orb_false_iff in M as [D M]. rewrite M, D. reflexivity.
Qed.

Lemma prefix_refl (s : string) : String.prefix s s = true.
Proof.
  induction s as [|c s IH]; [reflexivity|]. cbn.
  destruct (ascii_dec c c); [exact IH|congruence].
Qed.

Lemma split_head_prefix (c : ascii) (s : string) :
  String.prefix (split_head c s) s = true.
Proof.
  induction s as [|d s IH]; [reflexivity|]. cbn [split_head].
  destruct (Ascii.eqb d c); [reflexivity|]. cbn.
  destruct (ascii_dec d d); [exact IH|congruence].
Qed.

Lemma rsplit_head_prefix (c : ascii) (s : string) :
  String.prefix (rsplit_head c s) s = true.
Proof.
  induction s as [|d s IH]; [reflexivity|]. cbn [rsplit_head].
  destruct (mentions c s).
  - cbn. destruct (ascii_dec d d); [exact IH|congruence].
  - destruct (Ascii.eqb d c); [reflexivity|apply prefix_refl].
Qed.

Lemma split_head_clean (c : ascii) (s : string) :
  mentions c (split_head c s) = false.
Proof.
  induction s as [|d s IH]; [reflexivity|]. cbn [split_head].
  destruct (Ascii.eqb d c) eqn:E; [reflexivity|]. cbn [mentions].
  rewrite E, IH. reflexivity.
Qed.

Lemma mentions_prefix (c : ascii) (p s : string) :
  String.prefix p s = true -> mentions c s = false -> mentions c p = false.
Proof.
  revert s. induction p as [|d p IH]; intros s P M; [reflexivity|].
  destruct s as [|e s]; [discriminate|]. cbn in P.
  destruct (ascii_dec d e) as [<-|]; [|discriminate].
  cbn [mentions] in *. apply orb_false_iff in M as [D M].
  rewrite D, (IH s P M). reflexivity.
Qed.

(** X14. The parent [get_exon_parent] gives an exon. An exon named by its
    parent, a hyphen and anything has that parent, when the parent holds
    no hyphen. A name without hyphen that holds [exon_] is its own parent,
    dots or not. Any other name has for parent what stands before its last
    dot, and is its own parent when it holds no dot. *)
Theorem get_exon_parent_cases :
  (forall parent rest : string,
      mentions "-" parent = false ->
      get_exon_parent (parent ++ "-" ++ rest) = parent) /\
  (forall exon : string,
      mentions "-" exon = false -> contains "exon_" exon = true ->
      get_exon_parent exon = exon) /\
  (forall parent rest : string,
      mentions "-" (parent ++ "." ++ rest) = false ->
      contains "exon_" (parent ++ "." ++ rest) = false ->
      mentions "." rest = false ->
      get_exon_parent (parent ++ "." ++ rest) = parent) /\
  (forall exon : string,
      mentions "-" exon = false -> contains "exon_" exon = false ->
      mentions "." exon = false ->
      get_exon_parent exon = exon).
Proof.
  unfold get_exon_parent. split; [|split; [|split]].
  - intros parent rest M. rewrite contains_char, mentions_app.
    cbn [append mentions]. rewrite Ascii.eqb_refl, orb_true_r. cbn [orb].
    apply split_head_app. exact M.
  - intros exon M E. rewrite E, orb_true_r. apply split_head_absent. exact M.
  - intros parent rest M E D. rewrite contains_char, M, E. cbn [orb].
    apply rsplit_head_app. exact D.
  - intros exon M E D. rewrite contains_char, M, E. cbn [orb].
    apply rsplit_head_absent. exact D.
Qed.

Lemma get_exon_parent_cases_witness :
  get_exon_parent "PF3D7_0100100-2" = "PF3D7_0100100" /\
  get_exon_parent "gene.exon_1" = "gene.exon_1" /\
  get_exon_parent "PF3D7_0100100.1" = "PF3D7_0100100".
Proof.
  split; [|split].
  - apply (proj1 get_exon_parent_cases "PF3D7_0100100" "2"). reflexivity.
  - apply (proj1 (proj2 get_exon_parent_cases) "gene.exon_1"); reflexivity.
  - apply (proj1 (proj2 (proj2 get_exon_parent_cases)) "PF3D7_0100100" "1");
      reflexivity.
Defined.

(** X15. Whatever the name, the parent [get_exon_parent] returns starts
    the name and holds no hyphen. *)
Theorem get_exon_parent_prefix :
  forall exon : string,
    startswith exon (get_exon_parent exon) = true /\
    mentions "-" (get_exon_parent exon) = false.
Proof.
  intros exon. unfold get_exon_parent, startswith.
  destruct (contains "-" exon || contains "exon_" exon) eqn:C.
  - split; [apply split_head_prefix|apply split_head_clean].
  - split; [apply rsplit_head_prefix|].
    apply orb_false_iff in C as [C _]. rewrite contains_char in C.
    eapply mentions_prefix; [apply rsplit_head_prefix|exact C].
Qed.

(** * Properties of [verify_alignment] *)

Lemma set_in_In (x : string) (s : list string) : set_in x s = true <-> In x s.
Proof.
  unfold set_in. rewrite existsb_exists. split.
  - intros [y [I E]]. apply String.eqb_eq in E. subst. exact I.
  - intros I. exists x. split; [exact I|apply String.eqb_refl].
Qed.

Lemma set_add_In (s : list string) (x y : string) :
  In y (set_add s x) <-> In y s \/ y = x.
Proof.
  unfold set_add. destruct (set_in x s) eqn:E.
  - apply set_in_In in E. split; [auto|]. intros [I| ->]; assumption.
  - rewrite in_app_iff. cbn. split; intros [I|I]; auto.
    + destruct I as [<-|[]]. auto.
Qed.

Lemma set_add_NoDup (s : list string) (x : string) :
  NoDup s -> NoDup (set_add s x).
Proof.
  intros N. unfold set_add. destruct (set_in x s) eqn:E; [exact N|].
  apply NoDup_app; [exact N|constructor; [intros []|constructor]|].
  intros y I [<-|[]].
  apply set_in_In in I. congruence.
Qed.

Lemma set_of_In (l s : list string) (y : string) :
  In y (fold_left set_add l s) <-> In y s \/ In y l.
Proof.
  revert s. induction l as [|x l IH]; intros s; cbn [fold_left].
  - split; [auto|]. intros [I|[]]. exact I.
  - rewrite IH, set_add_In. cbn [In]. split; intros H; intuition auto.
Qed.

Lemma set_of_NoDup (l s : list string) :
  NoDup s -> NoDup (fold_left set_add l s).
Proof.
  revert s. induction l as [|x l IH]; intros s N; cbn [fold_left]; [exact N|].
  apply IH, set_add_NoDup, N.
Qed.

(** The verdict, by the shapes of the two sets. *)
Lemma verify_alignment_shape (list1 list2 : list string) :
  verify_alignment list1 list2 =
  match fold_left set_add list1 [], fold_left set_add list2 [] with
  | [], [] => None
  | [x], [y] => if String.eqb x y then Some "single_map" else Some "discrepancy"
  | [], [_] | [_], [] => Some "discrepancy"
  | _, _ => Some "multi_map"
  end.
Proof.
  unfold verify_alignment, set_eqb, set_len, is_None.
  destruct (fold_left set_add list1 []) as [|x [|x' s1]],
           (fold_left set_add list2 []) as [|y [|y' s2]];
    cbn [List.length forallb set_in existsb andb orb negb];
    rewrite ?andb_false_r, ?orb_false_r;
    repeat match goal with
      | |- context [Z.of_nat ?n =? ?m] =>
          destruct (Z.eqb_spec (Z.of_nat n) m); try lia
      | |- context [?m <? Z.of_nat ?n] =>
          destruct (Z.ltb_spec m (Z.of_nat n)); try lia
      end;
    cbn [andb orb negb]; try reflexivity.
  destruct (String.eqb x y); reflexivity.
Qed.

Lemma set_of_nil (l : list string) : fold_left set_add l [] = [] <-> l = [].
Proof.
  split; [|intros ->; reflexivity].
  intros E. destruct l as [|x l]; [reflexivity|].
  assert (I : In x (fold_left set_add (x :: l) [])) by (apply set_of_In; cbn; auto).
  rewrite E in I. destruct I.
Qed.

Lemma set_of_single (l : list string) (x : string) :
  fold_left set_add l [] = [x] <-> l <> [] /\ Forall (eq x) l.
Proof.
  split.
  - intros E. split.
    + intros ->. discriminate.
    + apply Forall_forall. intros y I.
      assert (J : In y (fold_left set_add l [])) by (apply set_of_In; auto).
      rewrite E in J. destruct J as [J|[]]. exact J.
  - intros [N F]. pose proof (set_of_NoDup l [] (NoDup_nil _)) as D.
    assert (A : forall y, In y (fold_left set_add l []) -> y = x).
    { intros y I. apply set_of_In in I as [[]|I].
      rewrite Forall_forall in F. symmetry. apply F. exact I. }
    destruct (fold_left set_add l []) as [|a [|b s]] eqn:E.
    + apply (proj1 (set_of_nil l)) in E. contradiction.
    + f_equal. apply A. left. reflexivity.
    + exfalso. inversion D as [|? ? Na _]; subst. apply Na. left.
      rewrite (A a), (A b); cbn; auto.
Qed.

(** X16. The verdict of [verify_alignment]. It is ['single_map'] exactly
    when both mates mapped and all their alignments are to one and the
    same locus. When one mate did not map, the verdict is never
    ['single_map']: with the other mate on one locus it is ['discrepancy'].
    The function returns [None], none of its three texts, exactly when
    both lists are empty. *)
Theorem verify_alignment_verdict :
  (forall list1 list2 : list string,
      verify_alignment list1 list2 = Some "single_map" <->
      exists locus : string,
        list1 <> [] /\ list2 <> [] /\
        Forall (eq locus) list1 /\ Forall (eq locus) list2) /\
  (forall (list1 : list string) (locus : string),
      list1 <> [] -> Forall (eq locus) list1 ->
      verify_alignment list1 [] = Some "discrepancy" /\
      verify_alignment [] list1 = Some "discrepancy") /\
  (forall list1 list2 : list string,
      verify_alignment list1 list2 = None <-> list1 = [] /\ list2 = []) /\
  (forall list1 list2 : list string,
      verify_alignment list1 list2 = Some "single_map" \/
      verify_alignment list1 list2 = Some "multi_map" \/
      verify_alignment list1 list2 = Some "discrepancy" \/
      verify_alignment list1 list2 = None).
Proof.
  split; [|split; [|split]].
  - intros list1 list2. rewrite verify_alignment_shape. split.
    + destruct (fold_left set_add list1 []) as [|x [|x' s1]] eqn:E1,
               (fold_left set_add list2 []) as [|y [|y' s2]] eqn:E2;
        try discriminate.
      destruct (String.eqb_spec x y) as [<-|]; [|discriminate]. intros _.
      apply (proj1 (set_of_single _ _)) in E1 as [N1 F1].
      apply (proj1 (set_of_single _ _)) in E2 as [N2 F2].
      exists x. auto.
    + intros (locus & N1 & N2 & F1 & F2).
      rewrite (proj2 (set_of_single list1 locus) (conj N1 F1)).
      rewrite (proj2 (set_of_single list2 locus) (conj N2 F2)).
      rewrite String.eqb_refl. reflexivity.
  - intros list1 locus N F. rewrite !verify_alignment_shape.
    rewrite (proj2 (set_of_single list1 locus) (conj N F)). split; reflexivity.
  - intros list1 list2. rewrite verify_alignment_shape. split.
    + destruct (fold_left set_add list1 []) as [|x [|x' s1]] eqn:E1,
               (fold_left set_add list2 []) as [|y [|y' s2]] eqn:E2;
        try discriminate.
      * intros _. apply (proj1 (set_of_nil _)) in E1.
        apply (proj1 (set_of_nil _)) in E2. auto.
      * destruct (String.eqb x y); discriminate.
    + intros [-> ->]. reflexivity.
  - intros list1 list2. rewrite verify_alignment_shape.
    destruct (fold_left set_add list1 []) as [|x [|x' s1]],
             (fold_left set_add list2 []) as [|y [|y' s2]]; auto.
    destruct (String.eqb x y); auto.
Qed.

Lemma verify_alignment_verdict_witness :
  verify_alignment ["locusA"; "locusA"] ["locusA"] = Some "single_map" /\
  verify_alignment ["locusA"] [] = Some "discrepancy".
Proof.
  split.
  - apply (proj1 verify_alignment_verdict). exists "locusA".
    repeat split; try discriminate; repeat constructor.
  - apply (proj1 (proj2 verify_alignment_verdict) ["locusA"] "locusA");
      [discriminate|repeat constructor].
Defined.

(** Two sets with the same elements have the same shape. *)
Lemma same_elements_shape (s t : list string) :
  NoDup s -> NoDup t -> (forall x, In x s <-> In x t) ->
  List.length s = List.length t /\
  (forall x, s = [x] -> t = [x]).
Proof.
  intros Ns Nt E.
  assert (L : List.length s = List.length t).
  { apply Nat.le_antisymm; apply NoDup_incl_length; try assumption;
      intros x I; apply E; exact I. }
  split; [exact L|].
  intros x ->. destruct t as [|y [|z t]]; try discriminate.
  f_equal. symmetry. destruct (proj2 (E y) (or_introl eq_refl)) as [H|[]]. exact H.
Qed.

(** X17. The verdict of [verify_alignment] does not tell the mates apart,
    and depends on the loci each list holds only: not on their order, nor
    on how often one is repeated. *)
Theorem verify_alignment_symmetric :
  (forall list1 list2 : list string,
      verify_alignment list1 list2 = verify_alignment list2 list1) /\
  (forall list1 list2 list1' list2' : list string,
      (forall x, In x list1 <-> In x list1') ->
      (forall x, In x list2 <-> In x list2') ->
      verify_alignment list1 list2 = verify_alignment list1' list2').
Proof.
  split.
  - intros list1 list2. rewrite !verify_alignment_shape.
    destruct (fold_left set_add list1 []) as [|x [|x' s1]],
             (fold_left set_add list2 []) as [|y [|y' s2]]; try reflexivity.
    rewrite (String.eqb_sym x y). reflexivity.
  - intros list1 list2 list1' list2' E1 E2. rewrite !verify_alignment_shape.
    assert (S : forall l l', (forall x, In x l <-> In x l') ->
              List.length (fold_left set_add l []) =
              List.length (fold_left set_add l' []) /\
              (forall x, fold_left set_add l [] = [x] ->
                         fold_left set_add l' [] = [x])).
    { intros l l' E. apply same_elements_shape; try (apply set_of_NoDup; constructor).
      intros x. rewrite !set_of_In. cbn [In]. rewrite E. reflexivity. }
    destruct (S _ _ E1) as [L1 X1]. destruct (S _ _ E2) as [L2 X2].
    destruct (fold_left set_add list1 []) as [|x [|x' s1]];
      destruct (fold_left set_add list2 []) as [|y [|y' s2]];
      try rewrite (X1 _ eq_refl); try rewrite (X2 _ eq_refl);
      destruct (fold_left set_add list1' []) as [|a [|a' t1]];
      destruct (fold_left set_add list2' []) as [|b [|b' t2]];
      try discriminate; reflexivity.
Qed.

(** * Properties of [filter_fastq] *)

(** The loop over the lines is the loop over the entries. *)
Lemma filter_lines_entries (dirs : string -> bool) (ids : dict) (outdir : string)
  (total : Z) (n : nat) :
  forall (lines : list (string * string)) (k : Z),
    (List.length lines <= n)%nat ->
    filter_lines dirs ids outdir total lines (mkReader [] [] 0 k) =
    filter_entries dirs ids outdir total (quads lines) k.
Proof.
  induction n as [|n IH]; intros lines k L.
  - destruct lines; [reflexivity|cbn in L; lia].
  - destruct lines as [|[a1 a2] [|[b1 b2] [|[c1 c2] [|[d1 d2] rest]]]];
      cbn [quads filter_lines filter_entries entry1 entry2 lineno seen app
           Z.add Z.eqb Pos.add Pos.succ Pos.eqb bind];
      try reflexivity;
      destruct (k =? total) eqn:T; try reflexivity.
    cbn [map fst snd].
    destruct (check_entry dirs ids outdir [a1; b1; c1; d1] [a2; b2; c2; d2])
      as [ws [found|e]]; cbn [bind seen]; [|reflexivity].
    destruct ((if found then k + 1 else k) =? total); [reflexivity|].
    rewrite IH by (cbn in L; lia).
    destruct (filter_entries dirs ids outdir total (quads rest) _) as [ws' r'].
    reflexivity.
Qed.

Lemma filter_fastq_entries (dirs : string -> bool) (ids : dict)
  (file1 file2 outdir : string) :
  filter_fastq dirs ids file1 file2 outdir =
  filter_entries dirs ids outdir (dict_len ids)
                 (quads (combine (file_lines file1) (file_lines file2))) 0.
Proof. unfold filter_fastq. eapply filter_lines_entries. reflexivity. Qed.

Lemma filter_entries_prefix (dirs : string -> bool) (ids : dict) (outdir : string)
  (total : Z) (entries : list (list (string * string))) :
  forall seen : Z,
    exists later : list (string * string),
      all_appends dirs ids outdir entries =
      (fst (filter_entries dirs ids outdir total entries seen) ++ later)%list.
Proof.
  induction entries as [|q rest IH]; intros seen.
  - exists []. reflexivity.
  - cbn [filter_entries]. unfold all_appends. cbn [flat_map].
    fold (all_appends dirs ids outdir rest).
    destruct (seen =? total); [eexists; reflexivity|].
    destruct (check_entry dirs ids outdir (map fst q) (map snd q)) as [ws [found|e]];
      cbn [fst]; [|eexists; reflexivity].
    destruct ((if found then seen + 1 else seen) =? total);
      [eexists; reflexivity|].
    destruct (IH (if found then seen + 1 else seen)) as [later E].
    destruct (filter_entries dirs ids outdir total rest _) as [ws' r'].
    cbn [fst] in *. exists later. rewrite E, app_assoc. reflexivity.
Qed.

(** X18. [filter_fastq] takes the two files four lines at a time, the
    entry of the second file beside the entry at the same place of the
    first: what it appends, to the end or up to the point where it stops or
    fails, is an initial part of the appends of the successive entries.
    Lines that do not fill an entry at the end, and lines one file has
    beyond the other, are never written. *)
Theorem filter_fastq_by_entries :
  forall (dirs : string -> bool) (ids : dict) (file1 file2 outdir : string),
    exists later : list (string * string),
      all_appends dirs ids outdir
        (quads (combine (file_lines file1) (file_lines file2))) =
      (fst (filter_fastq dirs ids file1 file2 outdir) ++ later)%list.
Proof.
  intros dirs ids file1 file2 outdir. rewrite filter_fastq_entries.
  apply filter_entries_prefix.
Qed.

Lemma dict_get_In (d : dict) (k : string) (v : list string) :
  dict_get d k = Some v -> In (k, v) d.
Proof.
  induction d as [|[k' v'] d IH]; cbn [dict_get]; [discriminate|].
  destruct (String.eqb_spec k' k) as [->|_].
  - intros H. injection H as <-. left. reflexivity.
  - intros H. right. auto.
Qed.

Lemma dict_get_key (d : dict) (k : string) :
  dict_get d k <> None -> In k (map fst d).
Proof.
  destruct (dict_get d k) as [v|] eqn:E; [|congruence]. intros _.
  apply dict_get_In in E. apply (in_map fst) in E. exact E.
Qed.

Lemma write_entries_made (dirs : string -> bool) (outdir : string)
  (e1 e2 : list string) (refs : list string) :
  (forall ref, In ref refs -> dirs (path_join outdir ref) = true) ->
  snd (write_entries dirs outdir e1 e2 refs) = Ok tt.
Proof.
  induction refs as [|ref refs IH]; intros H; [reflexivity|].
  cbn [write_entries]. rewrite (H ref (or_introl eq_refl)).
  destruct (write_entries dirs outdir e1 e2 refs) as [ws r].
  cbn [snd] in *. apply IH. intros r' I. apply H. right. exact I.
Qed.

(** What the check of a whole entry gives when the directories of its loci
    exist. *)
Lemma check_entry_made (dirs : string -> bool) (ids : dict) (outdir : string)
  (q : list (string * string)) :
  List.length q = 4%nat ->
  (forall k refs ref, In (k, refs) ids -> In ref refs ->
                      dirs (path_join outdir ref) = true) ->
  match dict_get ids (entry_id q) with
  | None => check_entry dirs ids outdir (map fst q) (map snd q) = ([], Ok false)
  | Some _ =>
      snd (check_entry dirs ids outdir (map fst q) (map snd q)) = Ok true
  end.
Proof.
  intros L D.
  destruct q as [|[a1 a2] [|[b1 b2] [|[c1 c2] [|[d1 d2] [|x q]]]]]; try discriminate.
  unfold check_entry, entry_id. cbn [map fst snd hd item nth_error].
  destruct (dict_get ids (read_id a1)) as [refs|] eqn:G; [|reflexivity].
  assert (W : forall e1 e2,
             snd (let '(ws, r) := write_entries dirs outdir e1 e2 refs in
                  (ws, _ <- r ;; Ok true)) = Ok true).
  { intros e1 e2.
    pose proof (write_entries_made dirs outdir e1 e2 refs) as M.
    destruct (write_entries dirs outdir e1 e2 refs) as [ws r]. cbn [snd] in *.
    rewrite M; [reflexivity|].
    intros ref I. eapply D; [apply dict_get_In; exact G|exact I]. }
  destruct (endswith (split_head " " a1) ".1"); [|apply W].
  cbn. apply W.
Qed.

(** Once as many ids were found as there are keys, no entry that is left
    has an id of [ids]. *)
Lemma all_found (dirs : string -> bool) (ids : dict) (outdir : string)
  (entries : list (list (string * string))) (found : list string) :
  NoDup found -> incl found (map fst ids) ->
  List.length found = List.length ids ->
  (forall q, In q entries -> ~ In (entry_id q) found) ->
  Forall (fun q => List.length q = 4%nat) entries ->
  all_appends dirs ids outdir entries = [].
Proof.
  intros N I L F Q.
  assert (C : incl (map fst ids) found).
  { apply NoDup_length_incl; [exact N| |exact I]. rewrite length_map. lia. }
  unfold all_appends. induction Q as [|q entries Hq _ IH]; [reflexivity|].
  cbn [flat_map]. rewrite IH by (intros q' J; apply F; right; exact J).
  rewrite app_nil_r.
  destruct (dict_get ids (entry_id q)) as [refs|] eqn:G.
  - exfalso. apply (F q (or_introl eq_refl)). apply C.
    apply dict_get_key. congruence.
  - destruct q as [|[a1 a2] [|[b1 b2] [|[c1 c2] [|[d1 d2] [|x q]]]]];
      try discriminate.
    unfold check_entry, entry_id in *. cbn [map fst snd hd item nth_error] in *.
    rewrite G. reflexivity.
Qed.

Lemma filter_entries_all (dirs : string -> bool) (ids : dict) (outdir : string)
  (entries : list (list (string * string))) :
  (forall k refs ref, In (k, refs) ids -> In ref refs ->
                      dirs (path_join outdir ref) = true) ->
  Forall (fun q => List.length q = 4%nat) entries ->
  NoDup (map entry_id entries) ->
  forall found : list string,
    NoDup found -> incl found (map fst ids) ->
    (forall q, In q entries -> ~ In (entry_id q) found) ->
    filter_entries dirs ids outdir (dict_len ids) entries
                   (Z.of_nat (List.length found)) =
    (all_appends dirs ids outdir entries, Ok tt).
Proof.
  intros D Q. induction Q as [|q entries Hq Q IH]; intros U found N I F;
    [reflexivity|].
  cbn [map] in U. inversion U as [|? ? Uq Ue]; subst.
  cbn [filter_entries]. unfold dict_len.
  destruct (Z.eqb_spec (Z.of_nat (List.length found)) (Z.of_nat (List.length ids)))
    as [E|E].
  - rewrite (all_found dirs ids outdir (q :: entries) found); auto.
    lia.
  - unfold all_appends. cbn [flat_map]. fold (all_appends dirs ids outdir entries).
    pose proof (check_entry_made dirs ids outdir q Hq D) as C.
    destruct (dict_get ids (entry_id q)) as [refs|] eqn:G.
    + destruct (check_entry dirs ids outdir (map fst q) (map snd q)) as [ws r].
      cbn [snd fst] in *. subst r.
      assert (F' : forall q', In q' entries -> ~ In (entry_id q') (entry_id q :: found)).
      { intros q' J [K|K].
        - apply Uq. rewrite K. apply in_map. exact J.
        - apply (F q'); [right; exact J|exact K]. }
      assert (N' : NoDup (entry_id q :: found)).
      { constructor; [apply F; left; reflexivity|exact N]. }
      assert (I' : incl (entry_id q :: found) (map fst ids)).
      { intros x [<-|J]; [apply dict_get_key; congruence|apply I; exact J]. }
      replace (Z.of_nat (List.length found) + 1)
        with (Z.of_nat (List.length (entry_id q :: found))) by (cbn [List.length]; lia).
      destruct (Z.eqb_spec (Z.of_nat (List.length (entry_id q :: found)))
                           (Z.of_nat (List.length ids))) as [E'|E'].
      * rewrite (all_found dirs ids outdir entries (entry_id q :: found)); auto;
          [rewrite app_nil_r; reflexivity|lia].
      * unfold dict_len in IH. rewrite (IH Ue (entry_id q :: found) N' I' F').
        reflexivity.
    + rewrite C. cbn [fst app].
      destruct (Z.eqb_spec (Z.of_nat (List.length found)) (Z.of_nat (List.length ids)));
        [contradiction|].
      unfold dict_len in IH.
      rewrite (IH Ue found N I (fun q' J => F q' (or_intror J))). reflexivity.
Qed.

Lemma quads_length {A : Type} (n : nat) :
  forall l : list A, (List.length l <= n)%nat ->
                     Forall (fun q => List.length q = 4%nat) (quads l).
Proof.
  induction n as [|n IH]; intros l L.
  - destruct l; [constructor|cbn in L; lia].
  - destruct l as [|a [|b [|c [|d rest]]]]; try constructor; [reflexivity|].
    apply IH. cbn in L. lia.
Qed.

(** X19. Leaving the files early, once as many ids were found as [ids]
    has keys, loses nothing when each read stands in the files once: if no
    two entries have the same id, and the directory of every locus exists,
    [filter_fastq] appends what all the entries call for, in their order,
    and returns. *)
Theorem filter_fastq_complete :
  forall (dirs : string -> bool) (ids : dict) (file1 file2 outdir : string),
    (forall k refs ref, In (k, refs) ids -> In ref refs ->
                        dirs (path_join outdir ref) = true) ->
    NoDup (map entry_id (quads (combine (file_lines file1) (file_lines file2)))) ->
    filter_fastq dirs ids file1 file2 outdir =
    (all_appends dirs ids outdir
       (quads (combine (file_lines file1) (file_lines file2))), Ok tt).
Proof.
  intros dirs ids file1 file2 outdir D U. rewrite filter_fastq_entries.
  apply (filter_entries_all dirs ids outdir _ D
           (quads_length _ _ (Nat.le_refl _)) U []).
  - constructor.
  - intros x [].
  - intros q _ [].
Qed.

Lemma filter_fastq_complete_witness :
  filter_fastq (fun _ => true) [("r1", ["L1"; "L2"])]
    "@r1.1 x
ACGT
+r1.1 x
IIII
@r2.1 x
AAAA
+
IIII
"
    "@r1.2 x
TTTT
+r1.2 x
IIII
@r2.2 x
CCCC
+
IIII
" "out" =
  ([("out/L1/reads.fastq.gz", "@r1 x
ACGT
+r1 x
IIII
@r1 x
TTTT
+r1 x
IIII
");
    ("out/L2/reads.fastq.gz", "@r1 x
ACGT
+r1 x
IIII
@r1 x
TTTT
+r1 x
IIII
")], Ok tt).
Proof.
  rewrite filter_fastq_complete.
  - vm_compute. reflexivity.
  - reflexivity.
  - vm_compute. repeat constructor; cbn; intuition discriminate.
Defined.

(** * Properties of [main] of fastq_reads_to_fastq_alleles.py *)

(** ** Dictionaries *)

Lemma dict_get_touch_same (d : dict) (k : string) :
  dict_get (dd_touch d k) k = Some (dd_get d k).
Proof.
  unfold dd_get. induction d as [|[k' v] d IH]; cbn [dd_touch dict_get].
  - rewrite String.eqb_refl. reflexivity.
  - destruct (String.eqb k' k) eqn:E; cbn [dict_get]; rewrite E; [reflexivity|exact IH].
Qed.

Lemma dict_get_touch_other (d : dict) (k k' : string) :
  k' <> k -> dict_get (dd_touch d k) k' = dict_get d k'.
Proof.
  intros N. induction d as [|[k0 v] d IH]; cbn [dd_touch dict_get].
  - destruct (String.eqb_spec k k'); [congruence|reflexivity].
  - destruct (String.eqb k0 k) eqn:E; cbn [dict_get]; [reflexivity|].
    rewrite IH. reflexivity.
Qed.

Lemma dict_get_append_same (d : dict) (k x : string) :
  dict_get (dd_append d k x) k = Some (dd_get d k ++ [x])%list.
Proof.
  unfold dd_get. induction d as [|[k' v] d IH]; cbn [dd_append dict_get].
  - rewrite String.eqb_refl. reflexivity.
  - destruct (String.eqb k' k) eqn:E; cbn [dict_get]; rewrite E; [reflexivity|exact IH].
Qed.

Lemma dict_get_append_other (d : dict) (k k' x : string) :
  k' <> k -> dict_get (dd_append d k x) k' = dict_get d k'.
Proof.
  intros N. induction d as [|[k0 v] d IH]; cbn [dd_append dict_get].
  - destruct (String.eqb_spec k k'); [congruence|reflexivity].
  - destruct (String.eqb_spec k0 k) as [->|E]; cbn [dict_get].
    + destruct (String.eqb_spec k k'); [congruence|reflexivity].
    + rewrite IH. reflexivity.
Qed.

Lemma dd_get_touch (d : dict) (k k' : string) :
  dd_get (dd_touch d k) k' = dd_get d k'.
Proof.
  unfold dd_get. destruct (String.eqb_spec k' k) as [->|N].
  - rewrite dict_get_touch_same. unfold dd_get. destruct (dict_get d k); reflexivity.
  - rewrite dict_get_touch_other by exact N. reflexivity.
Qed.

Lemma dd_get_append_same (d : dict) (k x : string) :
  dd_get (dd_append d k x) k = (dd_get d k ++ [x])%list.
Proof. unfold dd_get at 1. rewrite dict_get_append_same. reflexivity. Qed.

Lemma dd_get_append_other (d : dict) (k k' x : string) :
  k' <> k -> dd_get (dd_append d k x) k' = dd_get d k'.
Proof. intros N. unfold dd_get. rewrite dict_get_append_other by exact N. reflexivity. Qed.

Lemma dd_touch_present (d : dict) (k : string) :
  dict_get d k <> None -> dd_touch d k = d.
Proof.
  induction d as [|[k' v] d IH]; cbn [dd_touch dict_get]; [congruence|].
  destruct (String.eqb k' k); [reflexivity|]. intros H. rewrite IH by exact H.
  reflexivity.
Qed.

Lemma keys_touch (d : dict) (k : string) :
  map fst (dd_touch d k) =
  match dict_get d k with
  | Some _ => map fst d
  | None => (map fst d ++ [k])%list
  end.
Proof.
  induction d as [|[k' v] d IH]; cbn [dd_touch dict_get map fst app]; [reflexivity|].
  destruct (String.eqb k' k); [reflexivity|]. cbn [map fst]. rewrite IH.
  destruct (dict_get d k); reflexivity.
Qed.

Lemma keys_append (d : dict) (k x : string) :
  map fst (dd_append d k x) = map fst (dd_touch d k).
Proof.
  induction d as [|[k' v] d IH]; cbn [dd_append dd_touch map fst]; [reflexivity|].
  destruct (String.eqb k' k); cbn [map fst]; [reflexivity|]. rewrite IH. reflexivity.
Qed.

Lemma dict_get_None_keys (d : dict) (k : string) :
  dict_get d k = None <-> ~ In k (map fst d).
Proof.
  induction d as [|[k' v] d IH]; cbn [dict_get map fst In]; [tauto|].
  destruct (String.eqb_spec k' k) as [->|N].
  - split; [discriminate|]. intros H. exfalso. auto.
  - rewrite IH. tauto.
Qed.

Lemma keys_touch_NoDup (d : dict) (k : string) :
  NoDup (map fst d) -> NoDup (map fst (dd_touch d k)).
Proof.
  intros N. rewrite keys_touch. destruct (dict_get d k) eqn:G; [exact N|].
  apply dict_get_None_keys in G.
  apply NoDup_app; [exact N|constructor; [intros []|constructor]|].
  intros x I [<-|[]]. contradiction.
Qed.

Lemma In_dict_get (d : dict) (k : string) (v : list string) :
  NoDup (map fst d) -> In (k, v) d -> dict_get d k = Some v.
Proof.
  induction d as [|[k' v'] d IH]; intros N I; [destruct I|].
  cbn [map fst] in N. inversion N as [|? ? N1 N2]; subst.
  cbn [dict_get]. destruct I as [E|I].
  - injection E as -> ->. rewrite String.eqb_refl. reflexivity.
  - destruct (String.eqb_spec k' k) as [->|_]; [|auto].
    exfalso. apply N1. apply (in_map fst) in I. exact I.
Qed.

(** ** The branch without suffixes *)

Lemma dd_append_touch (d : dict) (k x : string) :
  dd_append (dd_touch d k) k x = dd_append d k x.
Proof.
  induction d as [|[k' v] d IH]; cbn [dd_touch dd_append].
  - rewrite String.eqb_refl. reflexivity.
  - destruct (String.eqb k' k) eqn:E; cbn [dd_append]; rewrite E; [reflexivity|].
    rewrite IH. reflexivity.
Qed.

Lemma neat_add (d : dict) (k x : string) :
  neat d -> set_in x (dd_get d k) = false -> neat (dd_append d k x).
Proof.
  intros [K V] X. split.
  - rewrite keys_append. apply keys_touch_NoDup. exact K.
  - intros k' v G. destruct (String.eqb_spec k' k) as [->|N].
    + rewrite dict_get_append_same in G. injection G as <-. split.
      * destruct (dd_get d k); discriminate.
      * apply NoDup_app; [|constructor; [intros []|constructor]|].
        -- unfold dd_get. destruct (dict_get d k) as [v|] eqn:G; [|constructor].
           apply (V _ _ G).
        -- intros y I [<-|[]]. apply set_in_In in I. congruence.
    + rewrite dict_get_append_other in G by exact N. eapply V; eauto.
Qed.

Lemma neat_empty : neat [].
Proof. split; [constructor|discriminate]. Qed.

Lemma set_in_present (d : dict) (k x : string) :
  set_in x (dd_get d k) = true -> dict_get d k <> None.
Proof.
  unfold dd_get. destruct (dict_get d k); [discriminate|discriminate 1].
Qed.

(** ** The branch without suffixes *)

Lemma tidy_add (ids : dict) (refs : list string) (k x : string) :
  tidy ids refs -> set_in x (dd_get ids k) = false ->
  tidy (dd_append ids k x) (set_add refs x).
Proof.
  intros (N & R & S) X. split; [apply neat_add; assumption|]. split.
  - apply set_add_NoDup. exact R.
  - intros y. rewrite set_add_In, S. split.
    + intros [(k' & v & G & I)| ->].
      * destruct (String.eqb_spec k' k) as [->|D].
        -- exists k, (dd_get ids k ++ [x])%list. rewrite dict_get_append_same.
           split; [reflexivity|]. apply in_app_iff. left.
           unfold dd_get. rewrite G. exact I.
        -- exists k', v. rewrite dict_get_append_other by exact D. auto.
      * exists k, (dd_get ids k ++ [x])%list. rewrite dict_get_append_same.
        split; [reflexivity|]. apply in_app_iff. right. left. reflexivity.
    + intros (k' & v & G & I). destruct (String.eqb_spec k' k) as [->|D].
      * rewrite dict_get_append_same in G. injection G as <-.
        apply in_app_iff in I as [I|[<-|[]]]; [|auto].
        left. unfold dd_get in I. destruct (dict_get ids k) as [v|] eqn:G; [|destruct I].
        eauto.
      * rewrite dict_get_append_other in G by exact D. eauto.
Qed.

Lemma add_refs_tidy (k : string) (fields : list string) :
  forall (ids : dict) (refs : list string) (st : dict * list string),
    tidy ids refs -> add_refs ids refs k fields = Ok st -> tidy (fst st) (snd st).
Proof.
  induction fields as [|field rest IH]; intros ids refs st T H; cbn [add_refs] in H.
  - injection H as <-. exact T.
  - apply bind_ok in H as [x [_ H]]. rewrite dd_get_touch in H.
    destruct (set_in x (dd_get ids k)) eqn:X.
    + rewrite (dd_touch_present ids k (set_in_present _ _ _ X)) in H.
      eapply IH; eauto.
    + rewrite dd_append_touch in H. eapply IH; [|exact H].
      apply tidy_add; assumption.
Qed.

Lemma read_loci_tidy (lines : list string) :
  forall st st' : dict * list string,
    tidy (fst st) (snd st) -> read_loci st lines = Ok st' -> tidy (fst st') (snd st').
Proof.
  induction lines as [|line lines IH]; intros st st' T H; cbn [read_loci] in H.
  - injection H as <-. exact T.
  - apply bind_ok in H as [st1 [H1 H]]. eapply IH; [|exact H].
    unfold read_locus in H1. apply bind_ok in H1 as [ele0 [_ H1]].
    eapply add_refs_tidy; eauto.
Qed.

Lemma tidy_empty : tidy [] [].
Proof.
  split; [apply neat_empty|]. split; [constructor|].
  intros x. split; [intros []|]. intros (k & v & G & _). discriminate.
Qed.

Lemma lift_done {A : Type} (r : result A) (a : A) : lift r = Done a -> r = Ok a.
Proof. destruct r; cbn; congruence. Qed.

Lemma and_then_done {A B : Type} (r : outcome A) (k : A -> outcome B) (b : B) :
  and_then r k = Done b -> exists a, r = Done a /\ k a = Done b.
Proof. destruct r as [a|e]; cbn; [eauto|discriminate]. Qed.

(** X20. What the branch without suffixes leaves, when the map reads: in
    [ids_to_keep] no read twice, and under every read at least one locus
    and none twice; in [unique_refs] the loci that stand under some read
    and no other; and no statistics file. *)
Theorem main_ids_without_suffixes :
  forall (ab_read_map filter : string) (ids : dict) (refs : list string)
         (stats : option string),
    main_ids ab_read_map filter "no" = Done (ids, refs, stats) ->
    stats = None /\
    NoDup (map fst ids) /\
    (forall k v, In (k, v) ids -> v <> [] /\ NoDup v) /\
    NoDup refs /\
    (forall x, In x refs <-> exists k v, In (k, v) ids /\ In x v).
Proof.
  intros ab_read_map filter ids refs stats H. unfold main_ids in H.
  cbn [String.eqb Ascii.eqb Bool.eqb] in H.
  apply and_then_done in H as [st [H E]]. injection E as <- <- <-.
  apply lift_done in H.
  destruct (read_loci_tidy _ ([], []) _ tidy_empty H) as ((K & V) & R & S).
  split; [reflexivity|]. split; [exact K|]. split; [|split; [exact R|]].
  - intros k v I. apply (V k v). apply In_dict_get; assumption.
  - intros x. rewrite S. split; intros (k & v & G & I); exists k, v; split; auto.
    + apply dict_get_In. exact G.
    + apply In_dict_get; assumption.
Qed.

Lemma main_ids_without_suffixes_witness :
  main_ids example_read_map "yes" "no" =
    Done ([("readA", ["locus1"; "locus2"]); ("readB", ["locus2"])],
          ["locus1"; "locus2"], None) /\
  NoDup ["locus1"; "locus2"].
Proof.
  split; [vm_compute; reflexivity|].
  apply (proj1 (proj2 (proj2 (proj2
           (main_ids_without_suffixes example_read_map "yes"
              [("readA", ["locus1"; "locus2"]); ("readB", ["locus2"])]
              ["locus1"; "locus2"] None ltac:(vm_compute; reflexivity)))))).
Defined.

(** ** The branch for suffixes: reading the map *)

Lemma add_loci_neat (k : string) (fields : list string) :
  forall d d' : dict, neat d -> add_loci d k fields = Ok d' -> neat d'.
Proof.
  induction fields as [|field rest IH]; intros d d' N H; cbn [add_loci] in H.
  - injection H as <-. exact N.
  - apply bind_ok in H as [x [_ H]]. rewrite dd_get_touch in H.
    destruct (set_in x (dd_get d k)) eqn:X.
    + rewrite (dd_touch_present d k (set_in_present _ _ _ X)) in H. eauto.
    + rewrite dd_append_touch in H. eapply IH; [|exact H].
      apply neat_add; assumption.
Qed.

Lemma read_mates_neat (lines : list string) :
  forall r r' : dict * dict,
    neat (fst r) -> neat (snd r) -> read_mates r lines = Ok r' ->
    neat (fst r') /\ neat (snd r').
Proof.
  induction lines as [|line lines IH]; intros r r' N1 N2 H; cbn [read_mates] in H.
  - injection H as <-. auto.
  - apply bind_ok in H as [r0 [H0 H]].
    unfold read_mate in H0.
    apply bind_ok in H0 as [ele0 [_ H0]]. apply bind_ok in H0 as [c [_ H0]].
    destruct (Ascii.eqb c "1").
    + apply bind_ok in H0 as [d [A H0]]. injection H0 as <-.
      apply add_loci_neat in A; [|exact N1].
      eapply IH; [| |exact H]; cbn [fst snd]; assumption.
    + apply bind_ok in H0 as [d [A H0]]. injection H0 as <-.
      apply add_loci_neat in A; [|exact N2].
      eapply IH; [| |exact H]; cbn [fst snd]; assumption.
Qed.







(** ** The branch for suffixes: pairing the mates *)

Lemma pair_id_mate (s t : string) :
  String.length t = 2%nat -> pair_id (s ++ t) = s.
Proof.
  intros L. unfold pair_id, slice_to, slice_index, len.
  rewrite length_append, L. cbn [Z.ltb Z.compare].
  replace (Z.to_nat (Z.max 0 (-2 + Z.of_nat (String.length s + 2))))
    with (String.length (s ++ t) - String.length t)%nat
    by (rewrite length_append, L; lia).
  apply take_app.
Qed.

Lemma count_verdict (c : tally) (list1 list2 : list string) :
  list1 <> [] \/ list2 <> [] ->
  exists c', count c (verify_alignment list1 list2) = Done c'.
Proof.
  intros N. rewrite verify_alignment_shape.
  destruct (fold_left set_add list1 []) as [|x [|x' s1]] eqn:E1,
           (fold_left set_add list2 []) as [|y [|y' s2]] eqn:E2;
    try (eexists; reflexivity).
  - apply (proj1 (set_of_nil _)) in E1. apply (proj1 (set_of_nil _)) in E2.
    destruct N; contradiction.
  - destruct (String.eqb x y); eexists; reflexivity.
Qed.

Lemma single_map_lists (list1 list2 : list string) :
  is_single_map (verify_alignment list1 list2) = true ->
  exists x, list1 <> [] /\ list2 <> [] /\ Forall (eq x) list1 /\ Forall (eq x) list2.
Proof.
  rewrite verify_alignment_shape.
  destruct (fold_left set_add list1 []) as [|x [|x' s1]] eqn:E1,
           (fold_left set_add list2 []) as [|y [|y' s2]] eqn:E2;
    try discriminate.
  destruct (String.eqb_spec x y) as [<-|]; [|discriminate]. intros _.
  apply (proj1 (set_of_single _ _)) in E1 as [N1 F1].
  apply (proj1 (set_of_single _ _)) in E2 as [N2 F2].
  exists x. auto.
Qed.

Lemma single_map_needs_mate1 (list2 : list string) :
  is_single_map (verify_alignment [] list2) = false.
Proof.
  destruct (is_single_map (verify_alignment [] list2)) eqn:E; [|reflexivity].
  apply single_map_lists in E as (x & N & _). congruence.
Qed.

Lemma keep_all_other (k k' : string) (l : list string) :
  k' <> k ->
  forall ids refs,
    dict_get (fst (keep_all ids refs k l)) k' = dict_get ids k'.
Proof.
  intros N. unfold keep_all.
  induction l as [|x l IH]; intros ids refs; [reflexivity|].
  cbn [fold_left fst snd]. rewrite IH. apply dict_get_append_other. exact N.
Qed.

Lemma keep_new_other (k k' : string) (l : list string) :
  k' <> k ->
  forall ids refs,
    dict_get (fst (keep_new ids refs k l)) k' = dict_get ids k'.
Proof.
  intros N. unfold keep_new.
  induction l as [|x l IH]; intros ids refs; [reflexivity|].
  cbn [fold_left fst snd].
  destruct (set_in x (dd_get (dd_touch ids k) k)); rewrite IH.
  - apply dict_get_touch_other. exact N.
  - rewrite dict_get_append_other by exact N. apply dict_get_touch_other. exact N.
Qed.

Lemma keep_new_known (k : string) (l : list string) (ids : dict) (refs : list string) :
  (forall y, In y l -> set_in y (dd_get ids k) = true) -> l <> [] \/ dict_get ids k <> None ->
  dict_get ids k <> None ->
  keep_new ids refs k l = (ids, refs).
Proof.
  intros H _ P. unfold keep_new. induction l as [|x l IH]; [reflexivity|].
  cbn [fold_left fst snd]. rewrite (dd_touch_present ids k P).
  rewrite (H x (or_introl eq_refl)). apply IH. intros y I. apply H. right. exact I.
Qed.

Lemma keep_first_ok (ids : dict) (refs : list string) (k x : string) :
  exists y, keep_first ids refs k x = Done (dd_append ids k x, set_add refs y) /\
            (dict_get ids k = None -> y = x).
Proof.
  unfold keep_first. rewrite dd_get_append_same.
  unfold dd_get. destruct (dict_get ids k) as [[|a v]|]; cbn; eauto.
  exists a. split; [reflexivity|discriminate].
Qed.

(** A turn of the first loop, on a read of [r1] that has loci. *)
Lemma pair_mate1_ok (filter : string) (p : pairing) (read : string)
  (list1 : list string) :
  dict_get (r1 p) read = Some list1 -> list1 <> [] ->
  exists p',
    pair_mate1 filter p read = Done p' /\
    r1 p' = r1 p /\
    r2 p' = dd_touch (r2 p) (pair_id read ++ ".2") /\
    checked_ids p' = set_add (checked_ids p) (pair_id read) /\
    (forall k, k <> pair_id read ->
               dict_get (ids_to_keep p') k = dict_get (ids_to_keep p) k).
Proof.
  intros G N. unfold pair_mate1. fold (pair_id read).
  rewrite (dd_touch_present (r1 p) read) by congruence.
  assert (L : dd_get (r1 p) read = list1) by (unfold dd_get; rewrite G; reflexivity).
  rewrite L.
  set (list2 := dd_get (dd_touch (r2 p) (pair_id read ++ ".2")) (pair_id read ++ ".2")).
  destruct (count_verdict (counts p) list1 list2 (or_introl N)) as [c' ->].
  cbn [and_then].
  destruct (String.eqb filter "yes" && is_single_map (verify_alignment list1 list2)).
  - destruct list1 as [|a l1]; [congruence|]. cbn [item nth_error lift and_then].
    destruct (keep_first_ok (ids_to_keep p) (unique_refs p) (pair_id read) a)
      as (y & -> & _).
    cbn [and_then fst snd]. eexists. split; [reflexivity|].
    cbn [r1 r2 checked_ids ids_to_keep]. repeat split.
    intros k D. apply dict_get_append_other. exact D.
  - destruct (keep_all (ids_to_keep p) (unique_refs p) (pair_id read) list1)
      as [ids refs] eqn:A.
    cbn [and_then]. eexists. split; [reflexivity|].
    cbn [r1 r2 checked_ids ids_to_keep]. repeat split.
    intros k D. rewrite keep_new_other by exact D.
    change ids with (fst (ids, refs)). rewrite <- A.
    apply keep_all_other. exact D.
Qed.

(** With or without the filter, a turn of the first loop does the same on
    a read whose loci are listed once each and whose id has no entry
    yet. *)
Lemma pair_mate1_filter (filter : string) (p : pairing) (read : string)
  (list1 : list string) :
  dict_get (r1 p) read = Some list1 -> NoDup list1 ->
  dict_get (ids_to_keep p) (pair_id read) = None ->
  pair_mate1 "yes" p read = pair_mate1 filter p read.
Proof.
  intros G U F. unfold pair_mate1. fold (pair_id read).
  rewrite (dd_touch_present (r1 p) read) by congruence.
  assert (L : dd_get (r1 p) read = list1) by (unfold dd_get; rewrite G; reflexivity).
  rewrite L.
  set (list2 := dd_get (dd_touch (r2 p) (pair_id read ++ ".2")) (pair_id read ++ ".2")).
  destruct (count (counts p) (verify_alignment list1 list2)) as [c'|e];
    cbn [and_then]; [|reflexivity].
  destruct (String.eqb filter "yes"); [reflexivity|].
  cbn [String.eqb Ascii.eqb Bool.eqb andb].
  destruct (is_single_map (verify_alignment list1 list2)) eqn:S; [|reflexivity].
  apply single_map_lists in S as (x & N1 & N2 & F1 & F2). clear L.
  assert (E1 : list1 = [x]).
  { destruct list1 as [|a [|b l]]; [congruence| |].
    - inversion F1; subst. reflexivity.
    - exfalso. inversion F1 as [|? ? Ha F1']; subst. inversion F1'; subst.
      inversion U as [|? ? Na _]; subst. apply Na. left. reflexivity. }
  subst list1. cbn [item nth_error lift and_then].
  destruct (keep_first_ok (ids_to_keep p) (unique_refs p) (pair_id read) x)
    as (y & -> & Y).
  rewrite (Y F). cbn [and_then fst snd].
  change (keep_all (ids_to_keep p) (unique_refs p) (pair_id read) [x])
    with (dd_append (ids_to_keep p) (pair_id read) x, set_add (unique_refs p) x).
  cbn iota. rewrite keep_new_known; [reflexivity| | |].
  - intros z I. rewrite dd_get_append_same. apply set_in_In.
    rewrite Forall_forall in F2. rewrite <- (F2 z I).
    apply in_app_iff. right. left. reflexivity.
  - right. rewrite dict_get_append_same. discriminate.
  - rewrite dict_get_append_same. discriminate.
Qed.

(** A turn of the second loop. *)
Lemma pair_mate2_ok (filter : string) (p : pairing) (read : string)
  (list2 : list string) :
  dict_get (r2 p) read = Some list2 ->
  (set_in (pair_id read) (checked_ids p) = false -> list2 <> []) ->
  exists p',
    pair_mate2 filter p read = Done p' /\
    r2 p' = r2 p /\
    checked_ids p' = checked_ids p /\
    (r1 p' = r1 p \/ r1 p' = dd_touch (r1 p) (pair_id read ++ ".1")).
Proof.
  intros G N. unfold pair_mate2. fold (pair_id read).
  destruct (set_in (pair_id read) (checked_ids p)) eqn:C; [eauto 6|].
  specialize (N eq_refl).
  rewrite (dd_touch_present (r2 p) read) by congruence.
  assert (L : dd_get (r2 p) read = list2) by (unfold dd_get; rewrite G; reflexivity).
  rewrite L.
  set (list1 := dd_get (dd_touch (r1 p) (pair_id read ++ ".1")) (pair_id read ++ ".1")).
  destruct (count_verdict (counts p) list1 list2 (or_intror N)) as [c' ->].
  cbn [and_then].
  destruct (String.eqb filter "yes" && is_single_map (verify_alignment list1 list2)).
  - destruct list2 as [|a l2]; [congruence|]. cbn [item nth_error lift and_then].
    destruct (keep_first_ok (ids_to_keep p) (unique_refs p) (pair_id read) a)
      as (y & -> & _).
    cbn [and_then]. eexists. split; [reflexivity|].
    cbn [r1 r2 checked_ids]. auto.
  - cbn [and_then]. eexists. split; [reflexivity|]. cbn [r1 r2 checked_ids]. auto.
Qed.

Lemma pair_mate2_filter (filter : string) (p : pairing) (read : string) :
  (set_in (pair_id read) (checked_ids p) = false ->
   dd_get (r1 p) (pair_id read ++ ".1") = []) ->
  pair_mate2 "yes" p read = pair_mate2 filter p read.
Proof.
  intros E. unfold pair_mate2. fold (pair_id read).
  destruct (set_in (pair_id read) (checked_ids p)); [reflexivity|].
  rewrite dd_get_touch, (E eq_refl), single_map_needs_mate1, !andb_false_r.
  reflexivity.
Qed.

Lemma for_each_invariant (step : pairing -> string -> outcome pairing)
  (Inv : list string -> pairing -> Prop) :
  (forall p k rest, Inv (k :: rest) p ->
                    exists p', step p k = Done p' /\ Inv rest p') ->
  forall keys p, Inv keys p ->
                 exists p', for_each step p keys = Done p' /\ Inv [] p'.
Proof.
  intros H. induction keys as [|k rest IH]; intros p I.
  - exists p. split; [reflexivity|exact I].
  - destruct (H p k rest I) as (p' & E & I'). cbn [for_each]. rewrite E.
    cbn [and_then]. apply IH. exact I'.
Qed.

Lemma for_each_agree (step step' : pairing -> string -> outcome pairing)
  (Inv : list string -> pairing -> Prop) :
  (forall p k rest, Inv (k :: rest) p ->
                    step p k = step' p k /\
                    exists p', step' p k = Done p' /\ Inv rest p') ->
  forall keys p, Inv keys p -> for_each step p keys = for_each step' p keys.
Proof.
  intros H. induction keys as [|k rest IH]; intros p I; [reflexivity|].
  destruct (H p k rest I) as (E & p' & E' & I'). cbn [for_each].
  rewrite E, E'. cbn [and_then]. apply IH. exact I'.
Qed.

Lemma key_dict_get (d : dict) (k : string) :
  In k (map fst d) -> exists v, dict_get d k = Some v.
Proof.
  intros I. destruct (dict_get d k) as [v|] eqn:G; [eauto|].
  apply dict_get_None_keys in G. contradiction.
Qed.

Lemma first_loop_step (filter : string) (d1 : dict) (p : pairing)
  (k : string) (rest : list string) :
  neat d1 -> first_loop d1 (k :: rest) p ->
  exists p', pair_mate1 filter p k = Done p' /\ first_loop d1 rest p' /\
             (forall k', k' <> pair_id k ->
                         dict_get (ids_to_keep p') k' = dict_get (ids_to_keep p) k').
Proof.
  intros [_ V] (E & Sub & Cov & M).
  destruct (key_dict_get d1 k (Sub k (or_introl eq_refl))) as [list1 G].
  destruct (V k list1 G) as [N _]. rewrite <- E in G.
  destruct (pair_mate1_ok filter p k list1 G N) as (p' & -> & E1 & E2 & E3 & O).
  exists p'. split; [reflexivity|]. split; [|exact O].
  split; [congruence|]. split; [|split].
  - intros k' I. apply Sub. right. exact I.
  - intros k' I. rewrite E3. destruct (Cov k' I) as [[<-|J]|J].
    + right. apply set_add_In. auto.
    + auto.
    + right. apply set_add_In. auto.
  - intros k' v G' Z. rewrite E3. apply set_add_In. rewrite E2 in G'.
    destruct (String.eqb_spec k' (pair_id k ++ ".2")) as [->|D].
    + right. apply pair_id_mate. reflexivity.
    + left. rewrite dict_get_touch_other in G' by exact D. eapply M; eauto.
Qed.

Lemma second_loop_step (filter : string) (p1 p : pairing)
  (k : string) (rest : list string) :
  mates_checked p1 -> second_loop p1 (k :: rest) p ->
  pair_mate2 "yes" p k = pair_mate2 filter p k /\
  exists p', pair_mate2 filter p k = Done p' /\ second_loop p1 rest p'.
Proof.
  intros M (E2 & Ec & Sub & R). split.
  - apply pair_mate2_filter. intros C.
    destruct (dd_get (r1 p) (pair_id k ++ ".1")) as [|a l] eqn:G; [reflexivity|].
    exfalso. unfold dd_get in G.
    destruct (dict_get (r1 p) (pair_id k ++ ".1")) as [v|] eqn:G'; [|discriminate].
    subst v. assert (I := R _ _ G' ltac:(discriminate)).
    rewrite pair_id_mate in I by reflexivity.
    rewrite <- Ec in I. apply set_in_In in I. congruence.
  - destruct (key_dict_get (r2 p1) k (Sub k (or_introl eq_refl))) as [list2 G].
    rewrite <- E2 in G.
    destruct (pair_mate2_ok filter p k list2 G) as (p' & -> & F2 & Fc & F1).
    + intros C Z. subst list2. rewrite E2 in G.
      assert (I := M _ _ G eq_refl).
      rewrite <- Ec in I. apply set_in_In in I. congruence.
    + exists p'. split; [reflexivity|]. split; [congruence|]. split; [congruence|].
      split; [intros k' I; apply Sub; right; exact I|].
      intros k' v G' Nv. destruct F1 as [F1|F1]; rewrite F1 in G'; [eauto|].
      destruct (String.eqb_spec k' (pair_id k ++ ".1")) as [->|D].
      * rewrite dict_get_touch_same in G'. injection G' as <-.
        unfold dd_get in Nv.
        destruct (dict_get (r1 p) (pair_id k ++ ".1")) as [v|] eqn:G1; [|congruence].
        eapply R; eauto.
      * rewrite dict_get_touch_other in G' by exact D. eauto.
Qed.

(** The two loops end, and end alike with and without the filter when no
    two reads of [r1] have the same id. *)
Lemma pair_mates_done (filter : string) (d1 d2 : dict) :
  neat d1 -> neat d2 ->
  (exists p, pair_mates filter (d1, d2) = Done p) /\
  (NoDup (map pair_id (map fst d1)) ->
   pair_mates "yes" (d1, d2) = pair_mates filter (d1, d2)).
Proof.
  intros N1 N2. unfold pair_mates. cbn [fst snd r1].
  set (p0 := mkPairing d1 d2 [] [] [] (mkTally 0 0 0)).
  assert (I0 : first_loop d1 (map fst d1) p0).
  { split; [reflexivity|]. split; [auto|]. split; [auto|].
    intros k v G Z. subst v. destruct N2 as [_ V].
    destruct (V k [] G) as [C _]. congruence. }
  assert (L1 : forall f, exists p1,
             for_each (pair_mate1 f) p0 (map fst d1) = Done p1 /\
             first_loop d1 [] p1).
  { intros f. apply (for_each_invariant (pair_mate1 f) (first_loop d1)); [|exact I0].
    intros p k rest I. destruct (first_loop_step f d1 p k rest N1 I) as (p' & E & I' & _).
    eauto. }
  assert (L2 : forall f p1, first_loop d1 [] p1 ->
             for_each (pair_mate2 "yes") p1 (map fst (r2 p1)) =
             for_each (pair_mate2 f) p1 (map fst (r2 p1)) /\
             exists p2, for_each (pair_mate2 f) p1 (map fst (r2 p1)) = Done p2).
  { intros f p1 (E & _ & Cov & M).
    assert (J : second_loop p1 (map fst (r2 p1)) p1).
    { split; [reflexivity|]. split; [reflexivity|]. split; [auto|].
      intros k v G _. rewrite E in G.
      assert (Ik : In k (map fst d1)) by (apply dict_get_key; congruence).
      destruct (Cov k Ik) as [[]|C]. exact C. }
    split.
    - apply (for_each_agree _ _ (second_loop p1)); [|exact J].
      intros p k rest I. apply second_loop_step; assumption.
    - destruct (for_each_invariant (pair_mate2 f) (second_loop p1)) with
        (keys := map fst (r2 p1)) (p := p1) as (p2 & E2 & _); [|exact J|eauto].
      intros p k rest I. apply (second_loop_step f p1 p k rest M I). }
  split.
  - destruct (L1 filter) as (p1 & -> & I1). cbn [and_then].
    destruct (L2 filter p1 I1) as (_ & p2 & ->). eauto.
  - intros U.
    assert (A : for_each (pair_mate1 "yes") p0 (map fst d1) =
                for_each (pair_mate1 filter) p0 (map fst d1)).
    { apply (for_each_agree _ _
               (fun rest p => first_loop d1 rest p /\ NoDup (map pair_id rest) /\
                              forall k, In k rest ->
                                        dict_get (ids_to_keep p) (pair_id k) = None)).
      - intros p k rest (I & Ur & Fr).
        destruct I as (E & Sub & Cov & M).
        destruct (key_dict_get d1 k (Sub k (or_introl eq_refl))) as [list1 G].
        destruct N1 as [K V]. destruct (V k list1 G) as [_ Ul].
        split.
        + apply (pair_mate1_filter filter p k list1); [congruence|exact Ul|].
          apply Fr. left. reflexivity.
        + destruct (first_loop_step filter d1 p k rest (conj K V)
                      (conj E (conj Sub (conj Cov M)))) as (p' & Ep & I' & O).
          exists p'. split; [exact Ep|]. split; [exact I'|].
          cbn [map] in Ur. inversion Ur as [|? ? Uk Ur']; subst.
          split; [exact Ur'|]. intros k' J. rewrite O.
          * apply Fr. right. exact J.
          * intros C. apply Uk. rewrite <- C. apply in_map. exact J.
      - split; [exact I0|]. split; [exact U|]. reflexivity. }
    rewrite A. destruct (L1 filter) as (p1 & -> & I1). cbn [and_then].
    apply (L2 filter p1 I1).
Qed.



(** X22. The option [filter] changes none of the ids: when no two reads of
    the first mates have the same id (their name without its last two
    characters), [main] builds with ['yes'] the [ids_to_keep], the
    [unique_refs] and the counts it builds with any other value, so a pair
    whose mates disagree, or that maps to several loci, keeps all its loci
    under the filter too. *)
Theorem filter_changes_no_id :
  forall ab_read_map filter paired_suffixes : string,
    (forall r : dict * dict,
        read_mates ([], []) (file_lines ab_read_map) = Ok r ->
        NoDup (map pair_id (map fst (fst r)))) ->
    main_ids ab_read_map "yes" paired_suffixes =
    main_ids ab_read_map filter paired_suffixes.
Proof.
  intros ab_read_map filter paired_suffixes U. unfold main_ids.
  destruct (String.eqb paired_suffixes "yes"); [|reflexivity].
  destruct (read_mates ([], []) (file_lines ab_read_map)) as [[d1 d2]|e] eqn:H;
    [|reflexivity].
  cbn [lift and_then].
  destruct (read_mates_neat _ ([], []) _ neat_empty neat_empty H) as [N1 N2].
  rewrite (proj2 (pair_mates_done filter d1 d2 N1 N2) (U _ eq_refl)).
  reflexivity.
Qed.

Lemma filter_changes_no_id_witness :
  main_ids example_mate_map "yes" "yes" =
    Done ([("readA", ["locus1"]); ("readB", ["locus1"; "locus2"]);
           ("readC", ["locus3"])],
          ["locus1"; "locus2"; "locus3"],
          Some (stats_lines (mkTally 1 0 2))) /\
  main_ids example_mate_map "yes" "yes" = main_ids example_mate_map "no" "yes".
Proof.
  split; [vm_compute; reflexivity|].
  apply (filter_changes_no_id example_mate_map "no" "yes").
  intros r H. vm_compute in H. injection H as <-.
  cbn [fst map]. vm_compute. repeat constructor; cbn; intuition discriminate.
Defined.

(** * Properties of [main] of get_final_sequences.py *)

Lemma best_get_set (d : list (string * best)) (entity k : string) (v : best) :
  best_get (best_set d entity v) k =
  if String.eqb k entity
  then match best_get d entity with Some _ => Some v | None => None end
  else best_get d k.
Proof.
  induction d as [|[k' v'] d IH]; cbn [best_set best_get].
  - destruct (String.eqb k entity); reflexivity.
  - destruct (String.eqb_spec k' entity) as [->|N]; cbn [best_get].
    + destruct (String.eqb_spec entity k) as [<-|M].
      * rewrite String.eqb_refl. reflexivity.
      * destruct (String.eqb_spec k entity); [congruence|reflexivity].
    + rewrite IH. destruct (String.eqb_spec k' k) as [->|M]; [|reflexivity].
      destruct (String.eqb_spec k entity); [congruence|reflexivity].
Qed.

Lemma best_get_app (d : list (string * best)) (entity k : string) (v : best) :
  best_get (d ++ [(entity, v)]) k =
  match best_get d k with
  | Some v' => Some v'
  | None => if String.eqb entity k then Some v else None
  end.
Proof.
  induction d as [|[k' v'] d IH]; cbn [app best_get]; [reflexivity|].
  destruct (String.eqb k' k); [reflexivity|exact IH].
Qed.

Lemma best_keys_set (d : list (string * best)) (entity : string) (v : best) :
  map fst (best_set d entity v) = map fst d.
Proof.
  induction d as [|[k' v'] d IH]; cbn [best_set map fst]; [reflexivity|].
  destruct (String.eqb_spec k' entity) as [->|N]; cbn [map fst]; [reflexivity|].
  rewrite IH. reflexivity.
Qed.

Lemma best_get_None (d : list (string * best)) (k : string) :
  best_get d k = None <-> ~ In k (map fst d).
Proof.
  induction d as [|[k' v] d IH]; cbn [best_get map fst In]; [tauto|].
  destruct (String.eqb_spec k' k) as [->|N].
  - split; [discriminate|]. intros H. exfalso. auto.
  - rewrite IH. tauto.
Qed.

Lemma best_get_In (d : list (string * best)) (k : string) (v : best) :
  best_get d k = Some v -> In (k, v) d.
Proof.
  induction d as [|[k' v'] d IH]; cbn [best_get]; [discriminate|].
  destruct (String.eqb_spec k' k) as [->|_].
  - intros H. injection H as <-. left. reflexivity.
  - intros H. right. auto.
Qed.

Lemma In_best_get (d : list (string * best)) (k : string) (v : best) :
  NoDup (map fst d) -> In (k, v) d -> best_get d k = Some v.
Proof.
  induction d as [|[k' v'] d IH]; intros N I; [destruct I|].
  cbn [map fst] in N. inversion N as [|? ? N1 N2]; subst.
  cbn [best_get]. destruct I as [E|I].
  - injection E as -> ->. rewrite String.eqb_refl. reflexivity.
  - destruct (String.eqb_spec k' k) as [->|_]; [|auto].
    exfalso. apply N1. apply (in_map fst) in I. exact I.
Qed.

(** ** The entries are the greatest offers *)

Lemma float_gtb_irrefl (x : spec_float) : number x -> float_gtb x x = false.
Proof.
  intros N. destruct (float_gtb x x) eqn:E; [|reflexivity].
  apply (float_gtb_key x x N N) in E. exfalso. eapply key_lt_irrefl; eauto.
Qed.

Lemma float_gtb_trans (x y z : spec_float) :
  number x -> number y -> number z ->
  float_gtb x y = true -> float_gtb y z = true -> float_gtb x z = true.
Proof.
  intros Nx Ny Nz A B.
  apply (float_gtb_key x y Nx Ny) in A. apply (float_gtb_key y z Ny Nz) in B.
  apply (float_gtb_key x z Nx Nz). eapply key_lt_trans; eauto.
Qed.

Lemma float_gtb_le_trans (x y z : spec_float) :
  number x -> number y -> number z ->
  float_gtb x y = true -> float_gtb z y = false -> float_gtb x z = true.
Proof.
  intros Nx Ny Nz A B.
  apply (float_gtb_key x y Nx Ny) in A.
  apply (float_gtb_key x z Nx Nz).
  eapply key_le_lt_trans; [|exact A].
  intros C. apply (float_gtb_key z y Nz Ny) in C. congruence.
Qed.

Lemma greatest_update (os d : list (string * best)) (ev : string * best) :
  Forall (fun o => number (b_id (snd o))) os -> number (b_id (snd ev)) ->
  greatest_of os d -> greatest_of (os ++ [ev]) (best_update d ev).
Proof.
  intros Nos Nev (K & G & A). destruct ev as [e v]. cbn [fst snd] in *.
  assert (Num : forall e' v', In (e', v') os -> number (b_id v')).
  { intros e' v' I. rewrite Forall_forall in Nos. apply (Nos (e', v') I). }
  assert (Ext : forall entity w,
             entity <> e -> first_greatest os entity w ->
             first_greatest (os ++ [(e, v)]) entity w).
  { intros entity w D (before & after & -> & B & C).
    exists before, (after ++ [(e, v)])%list. rewrite <- app_assoc. split; [reflexivity|].
    split; [exact B|]. intros v' I. apply in_app_iff in I as [I|[I|[]]]; [auto|].
    injection I as I _. congruence. }
  unfold best_update. cbn [fst snd].
  destruct (best_get d e) as [old|] eqn:O.
  - destruct (G e old O) as (before & after & Eos & B & C).
    assert (Nold : number (b_id old)).
    { apply (Num e old). rewrite Eos. apply in_app_iff. right. left. reflexivity. }
    destruct (float_gtb (b_id v) (b_id old)) eqn:Gt.
    + split; [rewrite best_keys_set; exact K|]. split.
      * intros entity w. rewrite best_get_set.
        destruct (String.eqb_spec entity e) as [->|D].
        -- rewrite O. intros H. injection H as <-.
           exists os, []. split; [reflexivity|]. split; [|intros v' []].
           intros v' I. pose proof (Num e v' I) as Nv'.
           rewrite Eos in I. apply in_app_iff in I as [I|[I|I]].
           ++ eapply float_gtb_trans; [| | |exact Gt|]; auto.
           ++ injection I as <-. exact Gt.
           ++ eapply float_gtb_le_trans; [| | |exact Gt|]; auto.
        -- intros H. apply Ext; auto.
      * intros entity w I. rewrite best_get_set.
        destruct (String.eqb_spec entity e) as [->|D]; [rewrite O; discriminate|].
        apply in_app_iff in I as [I|[I|[]]]; [eauto|]. injection I as I _. congruence.
    + split; [exact K|]. split.
      * intros entity w H. destruct (String.eqb_spec entity e) as [->|D].
        -- rewrite O in H. injection H as <-.
           exists before, (after ++ [(e, v)])%list. rewrite Eos, <- app_assoc.
           split; [reflexivity|]. split; [exact B|].
           intros v' I. apply in_app_iff in I as [I|[I|[]]]; [auto|].
           injection I as <-. exact Gt.
        -- apply Ext; auto.
      * intros entity w I. apply in_app_iff in I as [I|[I|[]]]; [eauto|].
        injection I as -> _. congruence.
  - assert (No : forall v', ~ In (e, v') os).
    { intros v' I. apply (A e v' I). exact O. }
    split; [|split].
    + rewrite map_app. cbn [map fst]. apply NoDup_app; [exact K| |].
      * constructor; [intros []|constructor].
      * intros x I [<-|[]]. apply best_get_None in O. contradiction.
    + intros entity w. rewrite best_get_app.
      destruct (best_get d entity) as [w'|] eqn:W.
      * intros H. injection H as <-. apply Ext; [congruence|]. apply G. exact W.
      * destruct (String.eqb_spec e entity) as [<-|D]; [|discriminate].
        intros H. injection H as <-. exists os, []. split; [reflexivity|].
        split; [|intros v' []]. intros v' I. exfalso. eapply No; eauto.
    + intros entity w I. rewrite best_get_app.
      destruct (best_get d entity) as [w'|] eqn:W; [discriminate|].
      apply in_app_iff in I as [I|[I|[]]].
      * exfalso. apply (A entity w I). exact W.
      * injection I as -> _. rewrite String.eqb_refl. discriminate.
Qed.

Lemma greatest_fold (os : list (string * best)) :
  forall seen d,
    Forall (fun o => number (b_id (snd o))) seen ->
    Forall (fun o => number (b_id (snd o))) os ->
    greatest_of seen d ->
    greatest_of (seen ++ os) (fold_left best_update os d).
Proof.
  induction os as [|ev os IH]; intros seen d Ns No G.
  - rewrite app_nil_r. exact G.
  - inversion No as [|? ? Nev No']; subst. cbn [fold_left].
    replace (seen ++ ev :: os)%list with ((seen ++ [ev]) ++ os)%list
      by (rewrite <- app_assoc; reflexivity).
    apply IH; [|exact No'|apply greatest_update; assumption].
    apply Forall_app. split; [exact Ns|]. constructor; [exact Nev|constructor].
Qed.

Section FinalSequencesFacts.
Context {rt : Runtime} {ir : IntReader}.
Variable groupby : string.
Variable align_path : string.
Variable threshold : Z.
Variable min_len : spec_float.
Variable seq_dict : string -> option string.

Ltac head_step :=
  match goal with
  | |- and_then ?r _ = _ => destruct r; cbn [and_then]; try reflexivity
  end.

(** A turn of the loop is the offer of its line, taken into [best_id]. *)
Lemma table_line_offer (st : option string * list (string * best)) (line : string) :
  table_line groupby align_path threshold min_len seq_dict st line =
  (o <~ offer groupby align_path threshold min_len seq_dict (fst st) line ;;
   Done (fst o, match snd o with
                | Some ev => best_update (snd st) ev
                | None => snd st
                end)).
Proof.
  destruct st as [ref_seq best_id]. unfold table_line, offer. cbn [fst snd].
  destruct (item (split tab (rstrip is_space line)) 5) as [e5|e]; cbn [lift and_then];
    [|reflexivity].
  destruct (negb (String.eqb groupby "l")).
  - cbn [and_then]. repeat head_step.
    destruct (_ <? _); [reflexivity|]. repeat head_step.
    destruct (_ <? _); [reflexivity|]. cbn [and_then fst snd].
    unfold best_update. cbn [fst snd].
    destruct (best_get best_id _); [|reflexivity].
    destruct (float_gtb _ _); reflexivity.
  - destruct (item (split "." (basename e5)) 1) as [entity|e]; cbn [lift and_then];
      [|reflexivity].
    repeat head_step.
    destruct (_ <? _); [reflexivity|]. repeat head_step.
    destruct (_ <? _); [reflexivity|]. cbn [and_then fst snd].
    unfold best_update. cbn [fst snd].
    destruct (best_get best_id _); [|reflexivity].
    destruct (float_gtb _ _); reflexivity.
Qed.

Lemma table_lines_offers (lines : list string) :
  forall st : option string * list (string * best),
    match offers groupby align_path threshold min_len seq_dict (fst st) lines with
    | Done os =>
        exists r, table_lines groupby align_path threshold min_len seq_dict st lines =
                  Done (r, fold_left best_update os (snd st))
    | Fail e =>
        table_lines groupby align_path threshold min_len seq_dict st lines = Fail e
    end.
Proof.
  induction lines as [|line lines IH]; intros st.
  - cbn. destruct st. eauto.
  - cbn [offers table_lines]. rewrite table_line_offer.
    destruct (offer _ _ _ _ _ (fst st) line) as [[r o]|e]; cbn [and_then fst snd];
      [|reflexivity].
    specialize (IH (r, match o with Some ev => best_update (snd st) ev | None => snd st end)).
    cbn [fst snd] in IH.
    destruct (offers _ _ _ _ _ r lines) as [os|e]; cbn [and_then]; [|exact IH].
    destruct IH as [r' ->]. exists r'. destruct o; reflexivity.
Qed.

(** A line makes no offer when [ref_seq] is unbound and [groupby] is not
    ['l']: the turn fails before it reads the dictionary. *)
Lemma offer_unbound (line : string) :
  String.eqb groupby "l" = false ->
  exists e, offer groupby align_path threshold min_len seq_dict None line =
            Fail (Builtin e) /\
            (e = IndexError \/ e = ValueError \/ e = UnboundLocalError).
Proof.
  intros G. unfold offer. rewrite G. cbn [negb].
  destruct (item _ 5) as [e5|e] eqn:I5; cbn [lift and_then].
  2:{ apply item_raise in I5. subst. eauto. }
  unfold split_str. destruct (String.eqb (basename align_path) ""); cbn [lift and_then].
  { eauto 6. }
  destruct (item _ 1) as [tmp|e] eqn:I1; cbn [lift and_then].
  2:{ apply item_raise in I1. subst. eauto. }
  cbn [read_local lift and_then]. eauto 6.
Qed.

Lemma int_of_float_number (x : spec_float) (n : Z) :
  int_of_float x = Done n -> number x.
Proof. destruct x; cbn; intros H; try discriminate; reflexivity. Qed.

Lemma offer_passes (ref_seq ref_seq' : option string) (line entity : string) (v : best) :
  offer groupby align_path threshold min_len seq_dict ref_seq line =
    Done (ref_seq', Some (entity, v)) ->
  passes threshold min_len seq_dict v.
Proof.
  unfold offer. intros H.
  apply and_then_done in H as [e5 [_ H]].
  apply and_then_done in H as [[entity0 ref0] [_ H]].
  apply and_then_done in H as [parts [_ H]].
  apply and_then_done in H as [tmp_path [_ H]].
  apply and_then_done in H as [ref_name [_ H]].
  apply and_then_done in H as [s [S H]].
  destruct (seq_dict ref_name) as [s'|] eqn:SD; [|discriminate].
  injection S as ->.
  apply and_then_done in H as [id [_ H]].
  apply and_then_done in H as [e2 [_ H]].
  apply and_then_done in H as [length [_ H]].
  apply and_then_done in H as [e1 [_ H]].
  apply and_then_done in H as [cov [_ H]].
  apply and_then_done in H as [e4 [_ H]].
  apply and_then_done in H as [ref_len [_ H]].
  apply and_then_done in H as [floor [F H]].
  destruct (Z.ltb_spec ref_len floor) as [Lf|Lf]; [discriminate|].
  apply and_then_done in H as [whole [W H]].
  destruct (Z.ltb_spec whole threshold) as [Lw|Lw]; [discriminate|].
  injection H as _ _ <-. cbn [b_ref_seq b_ref_len b_id].
  exists s, floor, whole. repeat split; assumption.
Qed.

Lemma offers_pass (lines : list string) :
  forall ref_seq os,
    offers groupby align_path threshold min_len seq_dict ref_seq lines = Done os ->
    Forall (fun o => passes threshold min_len seq_dict (snd o)) os.
Proof.
  induction lines as [|line lines IH]; intros ref_seq os H; cbn [offers] in H.
  - injection H as <-. constructor.
  - apply and_then_done in H as [[r o] [O H]].
    apply and_then_done in H as [os' [Os H]]. injection H as <-.
    cbn [fst snd] in *. apply IH in Os.
    destruct o as [[entity v]|]; [|exact Os].
    constructor; [|exact Os]. eapply offer_passes; eauto.
Qed.

Lemma passes_number (v : best) : passes threshold min_len seq_dict v -> number (b_id v).
Proof. intros (s & f & w & _ & _ & _ & W & _). eapply int_of_float_number; eauto. Qed.

Lemma file_lines_nonempty (s : string) : s <> "" -> file_lines s <> [].
Proof.
  destruct s as [|c r]; [congruence|]. intros _. cbn [file_lines].
  destruct (Ascii.eqb c newline); [discriminate|].
  destruct (Ascii.eqb c carriage_return).
  - destruct r as [|d r']; [discriminate|]. destruct (Ascii.eqb d newline); discriminate.
  - destruct (file_lines r); discriminate.
Qed.

(** X23. With [groupby] other than ['l'] the loop assigns [ref_seq]
    nowhere and reads it on every line: a table that is not empty gives no
    output, [main] failing on its first line, with UnboundLocalError or,
    before it gets there, with the IndexError or the ValueError of a line
    or a path that cannot be split. *)
Theorem groupby_other_than_loci_fails :
  groupby <> "l" ->
  forall ivc : string,
    ivc <> "" ->
    exists e : exn,
      best_ids groupby align_path threshold min_len seq_dict ivc = Fail (Builtin e) /\
      (e = IndexError \/ e = ValueError \/ e = UnboundLocalError).
Proof.
  intros G ivc N. apply file_lines_nonempty in N. unfold best_ids.
  destruct (file_lines ivc) as [|line lines]; [congruence|].
  cbn [table_lines]. rewrite table_line_offer. cbn [fst].
  destruct (offer_unbound line) as (e & -> & E).
  - destruct (String.eqb_spec groupby "l"); [contradiction|reflexivity].
  - cbn [and_then]. eauto.
Qed.

(** X24. When the loop ends, [best_id] holds one entry for every entity a
    line made an offer for, an offer being a line that passed both
    cutoffs; the entry is the first offer of the entity whose identity no
    offer of the entity exceeds: the offers before it have a smaller
    identity. *)
Theorem best_ids_first_greatest :
  forall (ivc : string) (d : list (string * best)),
    best_ids groupby align_path threshold min_len seq_dict ivc = Done d ->
    exists os : list (string * best),
      offers groupby align_path threshold min_len seq_dict None (file_lines ivc) =
        Done os /\
      NoDup (map fst d) /\
      (forall entity v, In (entity, v) d -> first_greatest os entity v) /\
      (forall entity v', In (entity, v') os -> exists v, In (entity, v) d).
Proof.
  intros ivc d H. unfold best_ids in H.
  pose proof (table_lines_offers (file_lines ivc) (None, [])) as T.
  cbn [fst snd] in T.
  destruct (offers _ _ _ _ _ None (file_lines ivc)) as [os|e] eqn:O.
  2:{ rewrite T in H. discriminate. }
  destruct T as [r T]. rewrite T in H. cbn [and_then snd] in H. injection H as <-.
  exists os. split; [reflexivity|].
  assert (Nos : Forall (fun o => number (b_id (snd o))) os).
  { eapply Forall_impl; [|eapply offers_pass; exact O].
    intros o P. apply passes_number. exact P. }
  destruct (greatest_fold os [] [] (Forall_nil _) Nos) as (K & G & A).
  { split; [constructor|]. split; [discriminate|]. intros entity v []. }
  cbn [app] in G, A. split; [exact K|]. split.
  - intros entity v I. apply G. apply In_best_get; assumption.
  - intros entity v' I. specialize (A entity v' I).
    destruct (best_get (fold_left best_update os []) entity) as [v|] eqn:E;
      [|congruence].
    exists v. apply best_get_In. exact E.
Qed.

(** X25. Every entry the loop keeps passed both cutoffs: its reference is
    in the dictionary, its length of reference is no less than the
    integer part of the length of that reference times [min_len], and the
    integer part of its identity, which is a number, is no less than the
    threshold. *)
Theorem best_ids_pass_the_cutoffs :
  forall (ivc : string) (d : list (string * best)),
    best_ids groupby align_path threshold min_len seq_dict ivc = Done d ->
    forall entity v, In (entity, v) d -> passes threshold min_len seq_dict v.
Proof.
  intros ivc d H entity v I. unfold best_ids in H.
  pose proof (table_lines_offers (file_lines ivc) (None, [])) as T.
  cbn [fst snd] in T.
  destruct (offers _ _ _ _ _ None (file_lines ivc)) as [os|e] eqn:O.
  2:{ rewrite T in H. discriminate. }
  destruct T as [r T]. rewrite T in H. cbn [and_then snd] in H. injection H as <-.
  pose proof (offers_pass _ _ _ O) as P.
  assert (Nos : Forall (fun o => number (b_id (snd o))) os).
  { eapply Forall_impl; [|exact P]. intros o Q. apply passes_number. exact Q. }
  destruct (greatest_fold os [] [] (Forall_nil _) Nos) as (K & G & A).
  { split; [constructor|]. split; [discriminate|]. intros e' v' []. }
  cbn [app] in G. destruct (G entity v (In_best_get _ _ _ K I))
    as (before & after & E & _).
  rewrite Forall_forall in P. apply (P (entity, v)).
  rewrite E. apply in_app_iff. right. left. reflexivity.
Qed.

End FinalSequencesFacts.

Lemma groupby_other_than_loci_fails_witness :
  "ae" <> "l" /\ example_table <> "" /\
  exists e : exn,
    @best_ids example_runtime digits_int "ae" "work/aligns" 70 example_min_len
      example_seq_dict example_table = Fail (Builtin e) /\
    (e = IndexError \/ e = ValueError \/ e = UnboundLocalError).
Proof.
  split; [discriminate|]. split; [discriminate|].
  apply (@groupby_other_than_loci_fails example_runtime digits_int "ae" "work/aligns"
           70 example_min_len example_seq_dict); discriminate.
Defined.

Lemma best_ids_first_greatest_witness :
  exists d : list (string * best),
    @best_ids example_runtime digits_int "l" "work/aligns" 70 example_min_len
      example_seq_dict example_table = Done d /\
    map (fun kv => (fst kv, b_file_path (snd kv))) d =
      [("L1", "work/aligns//L1/3D7.L1.WITH.b.trimmed_align.txt")] /\
    exists os : list (string * best),
      @offers example_runtime digits_int "l" "work/aligns" 70 example_min_len
        example_seq_dict None (file_lines example_table) = Done os /\
      NoDup (map fst d) /\
      (forall entity v, In (entity, v) d -> first_greatest os entity v) /\
      (forall entity v', In (entity, v') os -> exists v, In (entity, v) d).
Proof.
  eexists. split; [vm_compute; reflexivity|]. split; [reflexivity|].
  apply (@best_ids_first_greatest example_runtime digits_int "l" "work/aligns" 70
           example_min_len example_seq_dict example_table).
  vm_compute. reflexivity.
Defined.

Lemma best_ids_pass_the_cutoffs_witness :
  exists d : list (string * best),
    @best_ids example_runtime digits_int "l" "work/aligns" 70 example_min_len
      example_seq_dict example_table = Done d /\
    map fst d = ["L1"] /\
    forall entity v, In (entity, v) d -> passes 70 example_min_len example_seq_dict v.
Proof.
  eexists. split; [vm_compute; reflexivity|]. split; [reflexivity|].
  apply (@best_ids_pass_the_cutoffs example_runtime digits_int "l" "work/aligns" 70
           example_min_len example_seq_dict example_table).
  vm_compute. reflexivity.
Defined.
